(** * SECAR weather report generator (update-weather.js and its two variants)

    A shallow embedding of the report pipeline of franzenjb/SECAR-claude:
    the per-state condition composer, the tropical-outlook resolver, the
    report renderer and the step that splices the report into index.html.

    Conventions.
    - A JavaScript string is kept as the list of the bytes of its UTF-8 form
      ([str]); a literal is written as a Rocq string and coerced.  Searches
      for ASCII text and concatenation work on the bytes; [length],
      [substring] and [trim] count and cut UTF-16 code units as JavaScript
      does, through [Js.units] and [Js.of_units].
    - A JavaScript number that the code only ever uses as an integer is a [Z];
      [NaN] is [None].  The agreement is exact below 2^53.
    - Exceptions are explicit: a computation that may throw returns a
      [completion].  The clock, the network and the file system are inputs. *)

From Stdlib Require Import String Ascii List ZArith NArith Lia Bool Arith.
From Stdlib Require Import Permutation DecimalString.
From Stdlib Require DecimalPos.
Import ListNotations.
Open Scope string_scope.
Open Scope list_scope.

(* ================================================================= *)
(** ** JavaScript strings and numbers *)

Definition str : Type := list ascii.
Coercion list_ascii_of_string : string >-> list.

(** The double-quote character, which the markup of the report uses. *)
Definition dq : str := [ascii_of_nat 34].

Module Js.

(** [s.startsWith(p)]; also: the literal pattern [p] matches at the head
    of [s]. *)
Fixpoint starts_with (p s : str) : bool :=
  match p, s with
  | [], _ => true
  | a :: p', b :: s' => Ascii.eqb a b && starts_with p' s'
  | _ :: _, [] => false
  end.

Definition str_eqb (a b : str) : bool :=
  starts_with a b && (length a =? length b)%nat.

(** Truthiness of a string value: every string but the empty one. *)
Definition truthy (s : str) : bool :=
  match s with [] => false | _ :: _ => true end.

(** [a || b] on strings. *)
Definition or_else (a b : str) : str := if truthy a then a else b.

(** [s.indexOf(p)], [None] for -1: the leftmost position where the literal
    [p] matches. *)
Fixpoint index_of (p s : str) : option nat :=
  if starts_with p s then Some 0
  else match s with
       | [] => None
       | _ :: s' => option_map S (index_of p s')
       end.

(** [s.includes(p)]. *)
Definition includes (p s : str) : bool :=
  match index_of p s with Some _ => true | None => false end.

(** The number of positions of [s] at which the literal [p] matches. *)
Fixpoint count_occ (p s : str) : nat :=
  (if starts_with p s then 1 else 0) +
  match s with
  | [] => 0
  | _ :: s' => count_occ p s'
  end.

(** [l.join(sep)] on an array of strings. *)
Fixpoint join (sep : str) (l : list str) : str :=
  match l with
  | [] => []
  | [x] => x
  | x :: rest => x ++ sep ++ join sep rest
  end.

(** *** Code units

    The bytes of a string are those of its UTF-8 form; a surrogate that
    stands alone is kept as the three bytes the same scheme gives it.
    [units] reads the UTF-16 code units off the bytes and [of_units]
    writes code units back as bytes. *)

(** The six low bits of a continuation byte. *)
Definition low6 (c : ascii) : N := N.land (N_of_ascii c) 63.

Fixpoint units (s : str) : list N :=
  match s with
  | [] => []
  | b0 :: r0 =>
      let n := N_of_ascii b0 in
      if (n <? 192)%N then n :: units r0
      else if (n <? 224)%N then
        match r0 with
        | b1 :: r1 => (N.land n 31 * 64 + low6 b1)%N :: units r1
        | [] => [n]
        end
      else if (n <? 240)%N then
        match r0 with
        | b1 :: b2 :: r2 =>
            (N.land n 15 * 4096 + low6 b1 * 64 + low6 b2)%N :: units r2
        | _ => n :: units r0
        end
      else
        match r0 with
        | b1 :: b2 :: b3 :: r3 =>
            let v := (N.land n 7 * 262144 + low6 b1 * 4096 + low6 b2 * 64
                      + low6 b3 - 65536)%N in
            (55296 + v / 1024)%N :: (56320 + v mod 1024)%N :: units r3
        | _ => n :: units r0
        end
  end.

Definition byte (n : N) : ascii := ascii_of_N n.

(** The bytes of a code unit that is not half of a surrogate pair. *)
Definition encode1 (u : N) : str :=
  if (u <? 128)%N then [byte u]
  else if (u <? 2048)%N then [byte (192 + u / 64); byte (128 + u mod 64)]
  else [byte (224 + (u / 4096) mod 16); byte (128 + (u / 64) mod 64);
        byte (128 + u mod 64)].

Definition is_high (u : N) : bool := ((55296 <=? u) && (u <? 56320))%N.
Definition is_low (u : N) : bool := ((56320 <=? u) && (u <? 57344))%N.

(** The four bytes of a surrogate pair. *)
Definition encode2 (hi lo : N) : str :=
  let v := (65536 + (hi - 55296) * 1024 + (lo - 56320))%N in
  [byte (240 + v / 262144); byte (128 + (v / 4096) mod 64);
   byte (128 + (v / 64) mod 64); byte (128 + v mod 64)].

Fixpoint of_units (l : list N) : str :=
  match l with
  | [] => []
  | u :: rest =>
      match rest with
      | v :: rest' =>
          if is_high u && is_low v then encode2 u v ++ of_units rest'
          else encode1 u ++ of_units rest
      | [] => encode1 u
      end
  end.

(** The code units that [trim] and [parseInt] strip: WhiteSpace (TAB, VT,
    FF, SP, NBSP, U+1680, U+2000 to U+200A, U+202F, U+205F, U+3000, U+FEFF)
    and LineTerminator (LF, CR, U+2028, U+2029). *)
Definition is_space (u : N) : bool :=
  ((9 <=? u) && (u <=? 13) || (u =? 32) || (u =? 160) || (u =? 5760)
   || (8192 <=? u) && (u <=? 8202) || (u =? 8232) || (u =? 8233)
   || (u =? 8239) || (u =? 8287) || (u =? 12288) || (u =? 65279))%N.

Fixpoint trim_units (l : list N) : list N :=
  match l with
  | u :: l' => if is_space u then trim_units l' else l
  | [] => []
  end.

Definition trim_start (s : str) : str := of_units (trim_units (units s)).

Definition trim_end (s : str) : str :=
  of_units (rev (trim_units (rev (units s)))).

(** [s.trim()]. *)
Definition trim (s : str) : str :=
  of_units (rev (trim_units (rev (trim_units (units s))))).

(** [s.substring(a, b)] for [a <= b], in code units. *)
Definition substring (a b : nat) (s : str) : str :=
  of_units (firstn (b - a) (skipn a (units s))).

(** [l.slice(a, b)] on an array, for [a <= b]. *)
Definition slice {A : Type} (a b : nat) (l : list A) : list A :=
  firstn (b - a) (skipn a l).

Definition lower_char (c : ascii) : ascii :=
  let n := nat_of_ascii c in
  if ((65 <=? n) && (n <=? 90))%nat then ascii_of_nat (n + 32) else c.

(** [s.toLowerCase()], as far as ASCII letters go: the ASCII capitals are
    lowered, and so are the two characters outside ASCII whose lower-case
    form holds an ASCII letter, U+0130 (which gives i and U+0307) and the
    Kelvin sign U+212A (which gives k).  The other letters outside ASCII are
    left as they are: their lower-case forms hold no ASCII character, so an
    ASCII word occurs in the result exactly when it occurs in the result of
    JavaScript. *)
Fixpoint toLowerCase (s : str) : str :=
  match s with
  | [] => []
  | c :: s1 =>
      match s1 with
      | c1 :: s2 =>
          if ((N_of_ascii c =? 196) && (N_of_ascii c1 =? 176))%N then
            "i"%char :: byte 204 :: byte 135 :: toLowerCase s2
          else
            match s2 with
            | c2 :: s3 =>
                if ((N_of_ascii c =? 226) && (N_of_ascii c1 =? 132)
                    && (N_of_ascii c2 =? 170))%N
                then "k"%char :: toLowerCase s3
                else lower_char c :: toLowerCase s1
            | [] => lower_char c :: toLowerCase s1
            end
      | [] => [lower_char c]
      end
  end.

(** [s.split('\n')]: the lines of [s]; always at least one. *)
Fixpoint split_lines (s : str) : list str :=
  match s with
  | [] => [[]]
  | c :: s' =>
      if (nat_of_ascii c =? 10)%nat then [] :: split_lines s'
      else match split_lines s' with
           | l :: ls => (c :: l) :: ls
           | [] => [[c]]
           end
  end.

(** [s.replace(p, r)] with a string pattern [p] and a replacement [r] free
    of dollar patterns: the first occurrence only. *)
Definition replace_first (p r s : str) : str :=
  match index_of p s with
  | Some i => firstn i s ++ r ++ skipn (i + length p) s
  | None => s
  end.

(** [s.replace(/p/g, r)] for a literal, non-empty pattern [p] and a
    replacement [r] free of dollar patterns: the text is scanned from the
    left, a match is replaced and the scan resumes after it.  [skip] counts
    the characters of the current match that are still to be passed over. *)
Fixpoint replace_from (p r : str) (skip : nat) (s : str) : str :=
  match s with
  | [] => []
  | c :: s' =>
      match skip with
      | S k => replace_from p r k s'
      | O =>
          if starts_with p s then r ++ replace_from p r (length p - 1) s'
          else c :: replace_from p r 0 s'
      end
  end.

Definition replace_all (p r s : str) : str := replace_from p r 0 s.

(** The value of a digit in the given radix (10 or 16). *)
Definition digit_val (radix : Z) (c : ascii) : option Z :=
  let n := Z.of_nat (nat_of_ascii c) in
  let v := (if (48 <=? n) && (n <=? 57) then Some (n - 48)
            else if (97 <=? n) && (n <=? 122) then Some (n - 87)
            else if (65 <=? n) && (n <=? 90) then Some (n - 55)
            else None)%Z in
  match v with
  | Some d => if (d <? radix)%Z then Some d else None
  | None => None
  end.

(** The longest prefix of digits, read as a number; [acc] is [None] until a
    digit has been seen. *)
Fixpoint parse_digits (radix : Z) (acc : option Z) (s : str) : option Z :=
  match s with
  | [] => acc
  | c :: s' =>
      match digit_val radix c with
      | Some d =>
          parse_digits radix
            (Some (radix * (match acc with Some a => a | None => 0 end) + d)%Z) s'
      | None => acc
      end
  end.

(** [parseInt(s)] with no radix argument; [None] is [NaN]. *)
Definition parseInt (s : str) : option Z :=
  let s1 := trim_start s in
  let '(sign, s2) :=
    match s1 with
    | "-"%char :: t => (-1, t)
    | "+"%char :: t => (1, t)
    | _ => (1, s1)
    end%Z in
  let '(radix, s3) :=
    match s2 with
    | "0"%char :: "x"%char :: t => (16, t)
    | "0"%char :: "X"%char :: t => (16, t)
    | _ => (10, s2)
    end%Z in
  option_map (Z.mul sign) (parse_digits radix None s3).

(** [n || 0] on a number: [NaN] and zero both give zero. *)
Definition or_zero (n : option Z) : Z :=
  match n with Some z => z | None => 0%Z end.

(** [a > b] on numbers; false when the left operand is [NaN]. *)
Definition gt (a : option Z) (b : Z) : bool :=
  match a with Some z => (b <? z)%Z | None => false end.

(** The decimal text of an integer, as a template literal prints it. *)
Definition of_Z (z : Z) : str := NilZero.string_of_int (Z.to_int z).

Definition of_nat (n : nat) : str := of_Z (Z.of_nat n).

(** [s.length]: the number of code units.  It is the last definition of
    the module, so that [length] is the length of a list everywhere else. *)
Definition length (s : str) : nat := List.length (units s).

End Js.

(* ================================================================= *)
(** ** The state catalog and the condition composer

    These functions are the same in the three versions of the script. *)

Module Composer.

(** [WEATHER_OFFICES]; the order of the keys is the order of the report. *)
Definition WEATHER_OFFICES : list (str * str) :=
  [ ("Tennessee" : str, "Nashville, TN" : str);
    ("Mississippi" : str, "Jackson, MS" : str);
    ("Alabama" : str, "Birmingham, AL" : str);
    ("Georgia" : str, "Atlanta, GA" : str);
    ("Florida" : str, "Miami, FL" : str);
    ("North Carolina" : str, "Raleigh, NC" : str);
    ("South Carolina" : str, "Charleston, SC" : str);
    ("U.S. Virgin Islands" : str, "San Juan, PR" : str) ].

(** [Object.keys(WEATHER_OFFICES)]. *)
Definition states : list str := map fst WEATHER_OFFICES.

Fixpoint lookup (k : str) (m : list (str * str)) : option str :=
  match m with
  | [] => None
  | (k', v) :: m' => if Js.str_eqb k k' then Some v else lookup k m'
  end.

Definition codes : list (str * str) :=
  [ ("Tennessee" : str, "TN" : str);
    ("Mississippi" : str, "MS" : str);
    ("Alabama" : str, "AL" : str);
    ("Georgia" : str, "GA" : str);
    ("Florida" : str, "FL" : str);
    ("North Carolina" : str, "NC" : str);
    ("South Carolina" : str, "SC" : str);
    ("U.S. Virgin Islands" : str, "VI" : str) ].

Definition getStateCode (state : str) : str :=
  match lookup state codes with
  | Some c => Js.or_else c "US"
  | None => "US"
  end.

(** The part of [alert.properties] that the composer reads.  [expires] is the
    time value of [new Date(alert.properties.expires)] in milliseconds,
    [None] for an invalid date. *)
Record alert : Type := {
  event : str;
  severity : str;
  expires : option Z
}.

(** [new Date(alert.properties.expires) > new Date()], the clock reading
    [t]. *)
Definition unexpired (a : alert) (t : Z) : bool := Js.gt (expires a) t.

(** The array index keeps the identity of an alert object; [now i] is the
    clock reading taken when the alert at index [i] is tested. *)
Definition activeAlerts (now : nat -> Z) (alerts : list alert)
  : list (nat * alert) :=
  filter (fun ia => unexpired (snd ia) (now (fst ia)))
         (combine (seq 0 (length alerts)) alerts).

Definition is_warning (a : alert) : bool :=
  Js.str_eqb (severity a) "Severe" ||
  Js.str_eqb (severity a) "Extreme" ||
  Js.includes "Warning" (event a).

Definition is_watch (a : alert) : bool := Js.includes "Watch" (event a).

Definition is_advisory (a : alert) : bool :=
  Js.str_eqb (severity a) "Moderate" ||
  Js.includes "Advisory" (event a).

Definition warnings (now : nat -> Z) (alerts : list alert) :=
  filter (fun ia => is_warning (snd ia)) (activeAlerts now alerts).

Definition watches (now : nat -> Z) (alerts : list alert) :=
  filter (fun ia => is_watch (snd ia)) (activeAlerts now alerts).

Definition advisories (now : nat -> Z) (alerts : list alert) :=
  filter (fun ia => is_advisory (snd ia)) (activeAlerts now alerts).

(** [group.map(a => a.properties.event).join(', ')]. *)
Definition types (group : list (nat * alert)) : str :=
  Js.join ", " (map (fun ia => event (snd ia)) group).

Definition getSeasonalConditions (state : str) (isHotSeason : bool) : str :=
  if isHotSeason then
    "Monitor for heat stress during outdoor activities. Stay hydrated and seek air conditioning during peak heating hours. "
  else
    "Typical seasonal weather patterns expected. Monitor for changing conditions. ".

Definition no_hazards (state : str) : str :=
  "No significant weather hazards reported for " ++ state ++ " at this time.".

Definition processAlerts (now : nat -> Z) (state : str)
    (alerts : list alert) (isHotSeason : bool) : str :=
  let condition : str := "" in
  let condition :=
    match activeAlerts now alerts with
    | [] => condition
    | _ :: _ =>
        let condition :=
          match warnings now alerts with
          | [] => condition
          | ws => condition ++ "Active " ++ types ws ++ " WARNINGS in effect. "
          end in
        let condition :=
          match watches now alerts with
          | [] => condition
          | ws => condition ++ types ws ++ " WATCHES in effect. "
          end in
        match advisories now alerts with
        | [] => condition
        | ads => condition ++ types ads ++ " ADVISORIES in effect. "
        end
    end in
  let condition := condition ++ getSeasonalConditions state isHotSeason in
  Js.or_else condition (no_hazards state).

Definition hot_opening : str :=
  "Hot and humid conditions with ADVISORIES for heat index values near or above 100°F. ".

Definition cold_opening (state : str) : str :=
  "Seasonal temperatures expected for " ++ state ++ ". ".

Definition generateFallbackConditions (state : str) (isHotSeason : bool)
  : str :=
  let conditions : str := "" in
  if isHotSeason then
    let conditions := conditions ++ hot_opening in
    if Js.str_eqb state "Florida" then
      conditions ++ "WATCHES for heavy rainfall and potential flash flooding. Scattered to numerous thunderstorms with frequent lightning and locally heavy rainfall. "
    else if Js.str_eqb state "Mississippi" || Js.str_eqb state "Alabama" then
      conditions ++ "Isolated to scattered thunderstorms possible with frequent lightning and brief heavy downpours. Monitor for heat-related illnesses. "
    else if Js.str_eqb state "Georgia" || Js.str_eqb state "South Carolina" then
      conditions ++ "Scattered afternoon thunderstorms with dangerous lightning and locally heavy rainfall. "
    else if Js.str_eqb state "Tennessee" || Js.str_eqb state "North Carolina" then
      conditions ++ "ADVISORIES for scattered thunderstorms with lightning and brief heavy rainfall. "
    else if Js.str_eqb state "U.S. Virgin Islands" then
      conditions ++ "ADVISORIES for isolated showers and thunderstorms with dangerous lightning. "
    else conditions
  else
    let conditions := conditions ++ cold_opening state in
    if Js.str_eqb state "Florida" || Js.str_eqb state "U.S. Virgin Islands" then
      conditions ++ "Mild temperatures with occasional shower activity. "
    else
      conditions ++ "Monitor for potential winter weather impacts and changing conditions. ".

(** [today.getMonth() >= 4 && today.getMonth() <= 9], May to October. *)
Definition isHotSeason (month : nat) : bool :=
  ((4 <=? month) && (month <=? 9))%nat.

End Composer.


(* ================================================================= *)
(** ** The report renderer *)

Module Renderer.

(** The value of [weatherData.tropical]. *)
Record outlook : Type := {
  outlook_text : str;        (* the property [outlook] *)
  formation_chance : str
}.

(** [weatherData]: one condition string per state, stored in catalog order
    by [fetchWeatherConditions], and the tropical outlook ([None] when the
    property holds [null]). *)
Record weather_data : Type := {
  conditions : list (str * str);
  tropical : option outlook
}.

(** The six global replacements of [generateReport], in source order: the
    literal pattern and the text that replaces each match. *)
Definition highlight_rules : list (str * str) :=
  [ ("WARNINGS" : str,
     "<span class=" ++ dq ++ "warning" ++ dq ++ ">WARNINGS</span>");
    ("WATCHES" : str,
     "<span class=" ++ dq ++ "watch" ++ dq ++ ">WATCHES</span>");
    ("ADVISORIES" : str,
     "<span class=" ++ dq ++ "advisory" ++ dq ++ ">ADVISORIES</span>");
    ("frequent lightning" : str,
     "<strong>frequent lightning</strong>" : str);
    ("dangerous lightning" : str,
     "<strong>dangerous lightning</strong>" : str);
    ("cloud-to-ground lightning" : str,
     "<strong>cloud-to-ground lightning</strong>" : str) ].

(** A chain of [.replace(/p/g, r)] calls, applied from the first rule on. *)
Definition apply_rules (rules : list (str * str)) (s : str) : str :=
  fold_left (fun acc rule => Js.replace_all (fst rule) (snd rule) acc) rules s.

Definition highlight (condition : str) : str :=
  apply_rules highlight_rules condition.

(** A line break of a template literal followed by [n] spaces of
    indentation. *)
Definition nl (n : nat) : str := ascii_of_nat 10 :: repeat " "%char n.

Definition report_header (checkTime startDate endDate : str)
    (weatherData : weather_data) : str :=
  let outlook_shown :=
    match tropical weatherData with
    | Some t => Js.or_else (outlook_text t) "Tropical outlook not available."
    | None => "Tropical outlook not available." : str
    end in
  let chance_shown :=
    match tropical weatherData with
    | Some t => Js.or_else (formation_chance t) "N/A"
    | None => "N/A" : str
    end in
  nl 8 ++ "<div class=" ++ dq ++ "weather-check-time" ++ dq ++ ">Weather.gov map checked at " ++ checkTime ++ ". NWS office verification completed for all SECAR state offices.</div>" ++
  nl 8 ++
  nl 8 ++ "<div class=" ++ dq ++ "date-range" ++ dq ++ ">" ++ startDate ++ " – " ++ endDate ++ "</div>" ++
  nl 8 ++
  nl 8 ++ "<div class=" ++ dq ++ "tropical-outlook" ++ dq ++ ">" ++
  nl 12 ++ "<h3>Tropical Weather Outlook</h3>" ++
  nl 12 ++ "<p>" ++ outlook_shown ++ "</p>" ++
  nl 12 ++ "<div class=" ++ dq ++ "formation-chance" ++ dq ++ ">" ++
  nl 16 ++ "<div class=" ++ dq ++ "formation-badge" ++ dq ++ ">" ++
  nl 20 ++ "Formation Chance: <span class=" ++ dq ++ "formation-percentage" ++ dq ++ ">" ++ chance_shown ++ "</span>" ++
  nl 16 ++ "</div>" ++
  nl 12 ++ "</div>" ++
  nl 8 ++ "</div>" ++
  nl 8 ++
  nl 8 ++ "<div class=" ++ dq ++ "section-title" ++ dq ++ ">Severe Weather Threats (5-Day Outlook)</div>" ++
  nl 4.

Definition state_report (state stateCondition : str) : str :=
  nl 16 ++ "<div class=" ++ dq ++ "state-report" ++ dq ++ ">" ++
  nl 20 ++ "<span class=" ++ dq ++ "state-name" ++ dq ++ ">" ++ state ++ ":</span> " ++
  nl 20 ++ "<span class=" ++ dq ++ "state-conditions" ++ dq ++ ">" ++ stateCondition ++ "</span>" ++
  nl 16 ++ "</div>" ++
  nl 12.

(** The two sentences of the closing block in which the versions differ:
    update-weather.js and part_000 name the National Hurricane Center,
    part_001 the National Weather Service. *)
Inductive wording : Type := NHC | NWS.

Definition track_sentence (v : wording) : str :=
  match v with
  | NHC => "Track NHC Tropical Weather Outlook updates for any changes in tropical development probability."
  | NWS => "Track National Weather Service tropical weather updates for any changes in development probability."
  end.

Definition sources_sentence (v : wording) : str :=
  match v with
  | NHC => "Sources: NWS local offices, National Hurricane Center, NOAA."
  | NWS => "Sources: NWS local offices, National Weather Service, NOAA."
  end.

Definition report_footer (v : wording) : str :=
  nl 8 ++ "<div class=" ++ dq ++ "recommendations" ++ dq ++ ">" ++
  nl 12 ++ "<div class=" ++ dq ++ "section-title" ++ dq ++ ">Recommendations</div>" ++
  nl 12 ++
  nl 12 ++ "<h4>Immediate Actions</h4>" ++
  nl 12 ++ "<ul>" ++
  nl 16 ++ "<li>Follow all local <span class=" ++ dq ++ "warning" ++ dq ++ ">WARNINGS</span>, <span class=" ++ dq ++ "watch" ++ dq ++ ">WATCHES</span>, and <span class=" ++ dq ++ "advisory" ++ dq ++ ">ADVISORIES</span> for heat, thunderstorms, and flooding.</li>" ++
  nl 16 ++ "<li>Monitor local conditions for rapidly developing thunderstorms, especially during peak heating hours.</li>" ++
  nl 16 ++ "<li>Practice lightning safety: move indoors immediately when thunder is heard; avoid open fields, water, and tall objects.</li>" ++
  nl 16 ++ "<li>Never drive through flooded roadways—Turn Around, Don't Drown.</li>" ++
  nl 16 ++ "<li>Stay hydrated and limit outdoor activity during periods of excessive heat.</li>" ++
  nl 12 ++ "</ul>" ++
  nl 12 ++
  nl 12 ++ "<h4>5-Day Monitoring</h4>" ++
  nl 12 ++ "<ul>" ++
  nl 16 ++ "<li>Monitor NWS local offices for updated <span class=" ++ dq ++ "warning" ++ dq ++ ">WARNINGS</span>, <span class=" ++ dq ++ "watch" ++ dq ++ ">WATCHES</span>, and <span class=" ++ dq ++ "advisory" ++ dq ++ ">ADVISORIES</span>.</li>" ++
  nl 16 ++ "<li>" ++ track_sentence v ++ "</li>" ++
  nl 16 ++ "<li>Monitor river and stream levels in flood-prone areas, especially after heavy rainfall.</li>" ++
  nl 16 ++ "<li>Remain alert for rapidly changing weather conditions, especially during holiday events and outdoor gatherings.</li>" ++
  nl 12 ++ "</ul>" ++
  nl 8 ++ "</div>" ++
  nl 8 ++
  nl 8 ++ "<div class=" ++ dq ++ "sources" ++ dq ++ ">" ++ sources_sentence v ++ "</div>" ++
  nl 4.

(** The iterations of [Object.keys(WEATHER_OFFICES).forEach] that pass the
    test [if (weatherData[state])]: the state and its highlighted
    condition, in the order of the loop. *)
Fixpoint state_entries (keys : list str) (weatherData : weather_data)
  : list (str * str) :=
  match keys with
  | [] => []
  | state :: rest =>
      match Composer.lookup state (conditions weatherData) with
      | Some c =>
          if Js.truthy c
          then (state, highlight c) :: state_entries rest weatherData
          else state_entries rest weatherData
      | None => state_entries rest weatherData
      end
  end.

Definition state_section (weatherData : weather_data) : str :=
  concat (map (fun e => state_report (fst e) (snd e))
              (state_entries Composer.states weatherData)).

(** [generateReport(weatherData)].  The three date texts come from the
    locale formatting of the host. *)
Definition generateReport (v : wording) (checkTime startDate endDate : str)
    (weatherData : weather_data) : str :=
  report_header checkTime startDate endDate weatherData ++
  state_section weatherData ++
  report_footer v.

End Renderer.

(* ================================================================= *)
(** ** Splicing the report into index.html *)

Module Publisher.

(** The opening tag of the placeholder container. *)
Definition OPEN : str :=
  "<div id=" ++ dq ++ "reportOutput" ++ dq ++ " class=" ++ dq ++ "report-text" ++ dq ++ ">".

Definition CLOSE : str := "</div>".

(** The first match of the regular expression
    [<div id=.reportOutput. class=.report-text.>[\s\S]*?<\/div>]
    in [s], as the positions where it starts and ends.  The match starts
    at the leftmost opening tag and, the quantifier being lazy, ends with
    the first closing tag after it; when no closing tag follows the leftmost
    opening tag, none follows a later one either. *)
Definition match_placeholder (s : str) : option (nat * nat) :=
  match Js.index_of OPEN s with
  | None => None
  | Some i =>
      match Js.index_of CLOSE (skipn (i + length OPEN) s) with
      | None => None
      | Some j => Some (i, i + length OPEN + j + length CLOSE)
      end
  end.

(** The text a replacement string stands for (GetSubstitution), for a
    pattern without capture groups: two dollars give one, dollar-ampersand
    the match, dollar-backquote the text before it and dollar-quote the
    text after it; a dollar before anything else stands for itself. *)
Fixpoint get_substitution (matched before after replacement : str) : str :=
  match replacement with
  | [] => []
  | c :: t =>
      let plain := c :: get_substitution matched before after t in
      if negb (Ascii.eqb c "$") then plain
      else
        match t with
        | [] => plain
        | d :: t' =>
            if Ascii.eqb d "$" then
              "$"%char :: get_substitution matched before after t'
            else if Ascii.eqb d "&" then
              matched ++ get_substitution matched before after t'
            else if Ascii.eqb d "`" then
              before ++ get_substitution matched before after t'
            else if Ascii.eqb d "'" then
              after ++ get_substitution matched before after t'
            else plain
        end
  end.

(** [s.replace(re, replacement)] for a regular expression without the g
    flag whose first match spans [start, stop). *)
Definition replace_match (s : str) (m : option (nat * nat))
    (replacement : str) : str :=
  match m with
  | None => s
  | Some (start, stop) =>
      let before := firstn start s in
      let after := skipn stop s in
      let matched := firstn (stop - start) (skipn start s) in
      before ++ get_substitution matched before after replacement ++ after
  end.

(** The first replacement of [updateHtmlFile], common to the three
    versions. *)
Definition replace_placeholder (htmlTemplate reportHtml : str) : str :=
  replace_match htmlTemplate (match_placeholder htmlTemplate)
    (OPEN ++ reportHtml ++ CLOSE).

(** The first match of [/Loading\.\.\./]. *)
Definition match_loading (s : str) : option (nat * nat) :=
  match Js.index_of "Loading..." s with
  | None => None
  | Some i => Some (i, i + 10)
  end.

(** The second replacement, which only update-weather.js performs. *)
Definition replace_loading (html updateTime : str) : str :=
  replace_match html (match_loading html) ("Last Updated: " ++ updateTime).

(** The inner content of the placeholder container of a page: the text
    between the leftmost opening tag and the first closing tag after it,
    located as [updateHtmlFile] locates the container. *)
Definition placeholder_content (html : str) : option str :=
  match match_placeholder html with
  | None => None
  | Some (start, stop) =>
      Some (firstn (stop - start - length OPEN - length CLOSE)
                   (skipn (start + length OPEN) html))
  end.

(** How a run of [updateHtmlFile] ends: the process exits with a status
    from the catch block, or the function completes after writing the
    page. *)
Inductive outcome : Type :=
| Exit (status : nat)
| Written (html : str).

(** The file operations of [updateHtmlFile] once the report is rendered.
    [index_html] is the result of [fs.readFileSync] ([None] when it
    throws), [writable] tells whether [fs.writeFileSync] succeeds, and
    [edit] is the chain of replacements. *)
Definition publish (index_html : option str) (writable : bool)
    (edit : str -> str) : outcome :=
  match index_html with
  | None => Exit 1
  | Some htmlTemplate =>
      let updatedHtml := edit htmlTemplate in
      if writable then Written updatedHtml else Exit 1
  end.

End Publisher.

(* ================================================================= *)
(** ** Exceptions, requests and the host's regular expressions *)

Module Effects.

(** What a [catch] clause can receive: an Error object, as [fetch], the
    JSON parser and the run time throw them, or a value without
    properties ([null], [undefined]), on which reading [.message] throws
    in turn. *)
Inductive thrown : Type := ErrorObject | Nullish.

(** The completion of an expression or of a loop body. *)
Inductive completion (A : Type) : Type :=
| Normal (a : A)
| Throw (e : thrown).
Arguments Normal {A} a.
Arguments Throw {A} e.

Definition bind {A B : Type} (c : completion A) (k : A -> completion B)
  : completion B :=
  match c with
  | Normal a => k a
  | Throw e => Throw e
  end.

(** [l.forEach(body)] and [for] loops whose body updates the variables
    [st] and may throw. *)
Fixpoint forEach {A S : Type} (body : S -> A -> completion S)
    (l : list A) (st : S) : completion S :=
  match l with
  | [] => Normal st
  | a :: rest => bind (body st a) (forEach body rest)
  end.

(** [l.map(f)] for a callback that may throw. *)
Fixpoint mapM {A B : Type} (f : A -> completion B) (l : list A)
  : completion (list B) :=
  match l with
  | [] => Normal []
  | a :: rest =>
      bind (f a) (fun b => bind (mapM f rest) (fun bs => Normal (b :: bs)))
  end.

(** What [await fetch(url)] gives: a rejection, or a response with its
    [ok] flag and the completion of [await response.json()] (or
    [response.text()]), which the code forces only when [ok] holds. *)
Inductive fetched (A : Type) : Type :=
| Rejected (e : thrown)
| Response (ok : bool) (body : completion A).
Arguments Rejected {A} e.
Arguments Response {A} ok body.

(** How a block of statements inside a function ends: a [return], the end
    of the block, or an exception that leaves it. *)
Inductive block (R : Type) : Type :=
| Returns (r : R)
| Falls
| Escapes (e : thrown).
Arguments Returns {R} r.
Arguments Falls {R}.
Arguments Escapes {R} e.

(** A request whose body is used only under [if (response.ok)]. *)
Definition when_ok {A R : Type} (f : fetched A) (k : A -> block R)
  : block R :=
  match f with
  | Rejected e => Escapes e
  | Response false _ => Falls
  | Response true (Throw e) => Escapes e
  | Response true (Normal a) => k a
  end.

(** [try { b } catch (error) { console.log(label, error.message) }]:
    the handler swallows an Error object and itself throws a TypeError on
    a value that has no properties. *)
Definition try_log {R : Type} (b : block R) : block R :=
  match b with
  | Escapes ErrorObject => Falls
  | Escapes Nullish => Escapes ErrorObject
  | _ => b
  end.

(** Blocks in sequence, closed by a [return final] statement. *)
Fixpoint sequence {R : Type} (blocks : list (block R)) (final : R)
  : completion R :=
  match blocks with
  | [] => Normal final
  | Returns r :: _ => Normal r
  | Falls :: rest => sequence rest final
  | Escapes e :: _ => Throw e
  end.

(** [try { c } catch (error) { console.error(label, error); return r }]
    around a whole function body. *)
Definition try_return {R : Type} (c : completion R) (r : R) : completion R :=
  match c with
  | Normal v => Normal v
  | Throw _ => Normal r
  end.

(** A property of a parsed JSON object, as far as the code tells values
    apart: a falsy value other than a string (also: no such property), a
    string, or a truthy value that is not a string (a number, [true], an
    array, an object), given with its conversion to a string. *)
Inductive field : Type :=
| Absent
| Text (s : str)
| Other (shown : str).

Definition field_truthy (f : field) : bool :=
  match f with
  | Absent => false
  | Text s => Js.truthy s
  | Other _ => true
  end.

(** The string a truthy field contributes to a concatenation. *)
Definition field_string (f : field) : str :=
  match f with
  | Absent => []
  | Text s => s
  | Other shown => shown
  end.

(** A regular expression literal of the source: its pattern and flags. *)
Record regex : Type := { source : str; flags : str }.

(** A match as [exec] reports it: [match.index], [match[0]], [match[1]]. *)
Record exec_result : Type := { index : nat; whole : str; group1 : str }.

(** The regular expression engine of the host.  The free-text scrapers of
    the resolver are stated for every engine; the patterns of the renderer
    and of the publisher are literal enough to be given in full above. *)
Record regexp_host : Type := {
  (* [s.match(re)] for a regex with the g flag; [[]] stands for [null] *)
  match_all : regex -> str -> list str;
  (* the results of [re.exec(s)] called until it gives [null] (g flag) *)
  exec_all : regex -> str -> list exec_result;
  (* [re.exec(s)] or [s.match(re)] for a regex without the g flag *)
  exec_first : regex -> str -> option exec_result;
  (* [s.replace(re, '')] for a regex with the g flag *)
  remove_all : regex -> str -> str
}.

(** [month >= 5 && month <= 10], June to November; the same line in the
    three versions. *)
Definition isHurricaneSeason (month : nat) : bool :=
  ((5 <=? month) && (month <=? 10))%nat.

(** The [storms] payload of CurrentStorms.json. *)
Inductive storms_payload : Type :=
| StormsNull                         (* [data] is [null] *)
| NoStorms                           (* no [activeStorms] of positive length *)
| StormsNotArray                     (* positive length but no [map] method *)
| Storms (l : list (option field)).  (* the [name] of each entry; [None]
                                        for an entry that is [null] *)

(** The [data] of the structured outlook (gtwo.php, fmt=json). *)
Record area : Type := {
  chance2day : field;
  chance7day : field;
  text : field
}.

Inductive gtwo_payload : Type :=
| NoAreas                            (* [data && data.areas && length > 0]
                                        fails on the shape of [data] *)
| AreasNotArray                      (* positive length but no [forEach] *)
| Areas (l : list (option area)).    (* [None] for an entry that is [null];
                                        an entry that is a number or a string
                                        has three absent fields *)

(** [parseInt(field.replace('%', '')) || 0] under [if (field)]: [None]
    when the test fails. *)
Definition chance_of (f : field) : completion (option Z) :=
  match f with
  | Absent => Normal None
  | Text s =>
      if Js.truthy s
      then Normal (Some (Js.or_zero (Js.parseInt (Js.replace_first "%" "" s))))
      else Normal None
  | Other _ => Throw ErrorObject
  end.

(** [Math.max(m, chance)] when the field was read. *)
Definition raise_to (m : Z) (chance : option Z) : Z :=
  match chance with
  | Some c => Z.max m c
  | None => m
  end.

(** [data.activeStorms.map(storm => storm.name || 'Unnamed')]. *)
Definition storm_name (storm : option field) : completion str :=
  match storm with
  | None => Throw ErrorObject
  | Some name =>
      Normal (if field_truthy name then field_string name else "Unnamed" : str)
  end.

(** The CurrentStorms block, the same in update-weather.js and part_000. *)
Definition current_storms (storms : fetched storms_payload)
  : block Renderer.outlook :=
  try_log
    (when_ok storms (fun data =>
       match data with
       | StormsNull => Escapes ErrorObject
       | NoStorms => Falls
       | StormsNotArray => Escapes ErrorObject
       | Storms [] => Falls
       | Storms activeStorms =>
           match mapM storm_name activeStorms with
           | Throw e => Escapes e
           | Normal names =>
               let stormNames := Js.join ", " names in
               Returns
                 {| Renderer.outlook_text :=
                      "The National Hurricane Center is currently tracking "
                      ++ Js.of_nat (length activeStorms)
                      ++ " active system(s): " ++ stormNames
                      ++ ". Monitor official forecasts for the latest information.";
                    Renderer.formation_chance := "Active Systems" |}
           end
       end)).

End Effects.

(* ================================================================= *)
(** ** update-weather.js: the resolver and the whole run *)

Module UpdateWeather.
Import Effects.

Record world : Type := {
  gtwo : fetched gtwo_payload;       (* gtwo.php?basin=atlc&fmt=json *)
  rss : fetched str;                 (* index-at.xml, as text *)
  storms : fetched storms_payload;   (* CurrentStorms.json *)
  month : nat                        (* [new Date().getMonth()] *)
}.

(** The variables of the loop over [data.areas]. *)
Record tally : Type := {
  maxChance2Day : Z;
  maxChance7Day : Z;
  outlookText : str
}.

Definition area_body (st : tally) (entry : option area) : completion tally :=
  match entry with
  | None => Throw ErrorObject
  | Some a =>
      bind (chance_of (chance2day a)) (fun chance2 =>
      bind (chance_of (chance7day a)) (fun chance7 =>
      Normal
        {| maxChance2Day := raise_to (maxChance2Day st) chance2;
           maxChance7Day := raise_to (maxChance7Day st) chance7;
           outlookText :=
             if field_truthy (text a)
             then outlookText st ++ field_string (text a) ++ " "
             else outlookText st |}))
  end.

Definition formationChance (st : tally) : str :=
  if (0 <? maxChance7Day st)%Z then Js.of_Z (maxChance7Day st) ++ "%"
  else if (0 <? maxChance2Day st)%Z then Js.of_Z (maxChance2Day st) ++ "%"
  else "0%".

Definition structured_outlook (w : world) : block Renderer.outlook :=
  try_log
    (when_ok (gtwo w) (fun data =>
       match data with
       | NoAreas => Falls
       | AreasNotArray => Escapes ErrorObject
       | Areas [] => Falls
       | Areas areas =>
           match forEach area_body areas
                   {| maxChance2Day := 0; maxChance7Day := 0;
                      outlookText := "" |} with
           | Throw e => Escapes e
           | Normal st =>
               Returns
                 {| Renderer.outlook_text :=
                      Js.or_else (Js.trim (outlookText st))
                        "The National Hurricane Center is monitoring the Atlantic basin for tropical development.";
                    Renderer.formation_chance := formationChance st |}
           end
       end)).

Definition RE_description : regex :=
  {| source := "<description[^>]*>(.*?)<\/description>"; flags := "gi" |}.
Definition RE_tag : regex := {| source := "<[^>]*>"; flags := "g" |}.
Definition RE_percent_sign : regex :=
  {| source := "(\d+)\s*%"; flags := "g" |}.

(** The body of [percentMatches.forEach]: the variables are [maxPercent]
    and [outlookText]. *)
Definition percent_body (cleanDesc : str) (st : Z * str) (m : str)
  : Z * str :=
  match Js.parseInt (Js.replace_first "%" "" m) with
  | Some num =>
      if (fst st <? num)%Z then (num, Js.substring 0 400 cleanDesc) else st
  | None => st
  end.

Definition desc_body (h : regexp_host) (st : Z * str) (desc : str)
  : Z * str :=
  let cleanDesc := Js.trim (remove_all h RE_tag desc) in
  fold_left (percent_body cleanDesc) (match_all h RE_percent_sign cleanDesc) st.

(** The RSS block.  The title match that the source computes first is never
    read and is left out. *)
Definition rss_feed (h : regexp_host) (w : world) : block Renderer.outlook :=
  try_log
    (when_ok (rss w) (fun xmlText =>
       match match_all h RE_description xmlText with
       | [] => Falls
       | descMatch =>
           let '(maxPercent, outlookText) :=
             fold_left (desc_body h) descMatch (0%Z, "" : str) in
           if (0 <? maxPercent)%Z || Js.truthy outlookText then
             Returns
               {| Renderer.outlook_text :=
                    Js.or_else outlookText
                      "The National Hurricane Center is monitoring disturbances in the Atlantic basin.";
                  Renderer.formation_chance :=
                    if (0 <? maxPercent)%Z then Js.of_Z maxPercent ++ "%"
                    else "0%" |}
           else Falls
       end)).

(** The last statements of the outer [try]: the season decides. *)
Definition seasonal (month : nat) : Renderer.outlook :=
  if isHurricaneSeason month then
    {| Renderer.outlook_text :=
         "Unable to retrieve current formation probabilities from NHC APIs. The National Hurricane Center continues to monitor the Atlantic basin. Visit nhc.noaa.gov for the most current tropical weather outlook.";
       Renderer.formation_chance := "Check NHC" |}
  else
    {| Renderer.outlook_text :=
         "Outside of peak hurricane season. No significant tropical activity expected in the Atlantic basin at this time.";
       Renderer.formation_chance := "0%" |}.

(** The value returned by the outer [catch]. *)
Definition unavailable : Renderer.outlook :=
  {| Renderer.outlook_text :=
       "Tropical weather outlook temporarily unavailable. Visit nhc.noaa.gov for official information.";
     Renderer.formation_chance := "Visit NHC" |}.

Definition sources (h : regexp_host) (w : world)
  : list (block Renderer.outlook) :=
  [ structured_outlook w; rss_feed h w; current_storms (storms w) ].

Definition getTropicalOutlook (h : regexp_host) (w : world)
  : completion Renderer.outlook :=
  try_return (sequence (sources h w) (seasonal (month w))) unavailable.

End UpdateWeather.

(* ================================================================= *)
(** ** src/unnamed/part_000: the resolver that scrapes the NHC pages *)

Module Part000.
Import Effects.

Record world : Type := {
  gtwo : fetched gtwo_payload;       (* gtwo.php?basin=atlc&fmt=json *)
  page : fetched str;                (* gtwo_atl.php, as text *)
  rss : fetched str;                 (* index-at.xml, as text *)
  storms : fetched storms_payload;   (* CurrentStorms.json *)
  month : nat                        (* [new Date().getMonth()] *)
}.

(** The variables of the loop over [data.areas]; [disturbanceCount] is
    also the index of the next entry. *)
Record tally : Type := {
  maxChance : Z;
  outlookText : str;
  disturbanceCount : nat
}.

Definition area_body (st : tally) (entry : option area) : completion tally :=
  match entry with
  | None => Throw ErrorObject
  | Some a =>
      bind (chance_of (chance7day a)) (fun chance7 =>
      bind (chance_of (chance2day a)) (fun chance2 =>
      Normal
        {| maxChance := raise_to (raise_to (maxChance st) chance7) chance2;
           outlookText :=
             if field_truthy (text a)
             then outlookText st ++ "Disturbance "
                  ++ Js.of_nat (disturbanceCount st + 1) ++ ": "
                  ++ field_string (text a) ++ " "
             else outlookText st;
           disturbanceCount := S (disturbanceCount st) |}))
  end.

(** Method 1. *)
Definition structured_outlook (w : world) : block Renderer.outlook :=
  try_log
    (when_ok (gtwo w) (fun data =>
       match data with
       | NoAreas => Falls
       | AreasNotArray => Escapes ErrorObject
       | Areas [] => Falls
       | Areas areas =>
           match forEach area_body areas
                   {| maxChance := 0; outlookText := "";
                      disturbanceCount := 0 |} with
           | Throw e => Escapes e
           | Normal st =>
               if (0 <? maxChance st)%Z then
                 Returns
                   {| Renderer.outlook_text :=
                        Js.or_else (Js.trim (outlookText st))
                          ("The National Hurricane Center is monitoring "
                           ++ Js.of_nat (disturbanceCount st)
                           ++ " disturbance(s) in the Atlantic basin for potential tropical development.");
                      Renderer.formation_chance :=
                        Js.of_Z (maxChance st) ++ "%" |}
               else Falls
           end
       end)).

Definition percentageRegex : regex :=
  {| source := "(\d+)\s*percent"; flags := "gi" |}.
Definition formationRegex : regex :=
  {| source := "formation.*?(\d+)\s*percent"; flags := "gi" |}.
Definition disturbanceRegex : regex :=
  {| source := "disturbance\s*\d+.*?(\d+)\s*percent"; flags := "gi" |}.
Definition tagRegex : regex := {| source := "<[^>]*>"; flags := "g" |}.

(** The body of the [while] loop over the matches of one pattern; the
    variables are [maxPercentage] and [foundText]. *)
Definition match_body (h : regexp_host) (htmlText : str) (st : Z * str)
    (m : exec_result) : Z * str :=
  match Js.parseInt (group1 m) with
  | Some percentage =>
      if (fst st <? percentage)%Z then
        let startIndex := Nat.max 0 (index m - 200) in
        let endIndex := Nat.min (Js.length htmlText) (index m + 200) in
        (percentage,
         Js.trim (remove_all h tagRegex
                    (Js.substring startIndex endIndex htmlText)))
      else st
  | None => st
  end.

Definition pattern_body (h : regexp_host) (htmlText : str) (st : Z * str)
    (pattern : regex) : Z * str :=
  fold_left (match_body h htmlText) (exec_all h pattern htmlText) st.

(** Method 2. *)
Definition page_scrape (h : regexp_host) (w : world)
  : block Renderer.outlook :=
  try_log
    (when_ok (page w) (fun htmlText =>
       let patterns := [formationRegex; disturbanceRegex; percentageRegex] in
       let '(maxPercentage, foundText) :=
         fold_left (pattern_body h htmlText) patterns (0%Z, "" : str) in
       if (0 <? maxPercentage)%Z then
         Returns
           {| Renderer.outlook_text :=
                Js.or_else foundText
                  "The National Hurricane Center reports tropical development chances in the Atlantic basin.";
              Renderer.formation_chance := Js.of_Z maxPercentage ++ "%" |}
       else Falls)).

Definition itemRegex : regex :=
  {| source := "<item>[\s\S]*?<\/item>"; flags := "gi" |}.
Definition descRegex : regex :=
  {| source := "<description[^>]*>(.*?)<\/description>"; flags := "i" |}.
Definition nonDigitRegex : regex := {| source := "\D"; flags := "g" |}.

Definition percent_body (h : regexp_host) (description : str)
    (st : Z * str) (percentMatch : str) : Z * str :=
  match Js.parseInt (remove_all h nonDigitRegex percentMatch) with
  | Some num =>
      if (fst st <? num)%Z then (num, Js.substring 0 400 description) else st
  | None => st
  end.

(** The body of the [while] loop over the items of the feed.  The title
    match of the source is never read and is left out. *)
Definition item_body (h : regexp_host) (st : Z * str) (m : exec_result)
  : Z * str :=
  let item := whole m in
  if Js.includes "tropical" (Js.toLowerCase item)
     || Js.includes "outlook" (Js.toLowerCase item)
  then
    match exec_first h descRegex item with
    | Some descMatch =>
        let description :=
          Js.trim (remove_all h tagRegex (group1 descMatch)) in
        fold_left (percent_body h description)
                  (match_all h percentageRegex description) st
    | None => st
    end
  else st.

(** Method 3. *)
Definition rss_feed (h : regexp_host) (w : world) : block Renderer.outlook :=
  try_log
    (when_ok (rss w) (fun xmlText =>
       let '(maxPercentage, outlookText) :=
         fold_left (item_body h) (exec_all h itemRegex xmlText)
                   (0%Z, "" : str) in
       if (0 <? maxPercentage)%Z then
         Returns
           {| Renderer.outlook_text :=
                Js.or_else outlookText
                  "The National Hurricane Center is monitoring tropical development in the Atlantic basin.";
              Renderer.formation_chance := Js.of_Z maxPercentage ++ "%" |}
       else Falls)).

Definition seasonal (month : nat) : Renderer.outlook :=
  if isHurricaneSeason month then
    {| Renderer.outlook_text :=
         "NHC data temporarily unavailable via automated systems. During hurricane season, formation chances can change rapidly. Visit nhc.noaa.gov for the most current tropical weather outlook and formation probabilities.";
       Renderer.formation_chance := "Visit NHC" |}
  else
    {| Renderer.outlook_text :=
         "Outside of peak hurricane season. No significant tropical activity expected in the Atlantic basin at this time.";
       Renderer.formation_chance := "0%" |}.

Definition unavailable : Renderer.outlook :=
  {| Renderer.outlook_text :=
       "Tropical weather outlook temporarily unavailable. Visit nhc.noaa.gov for official National Hurricane Center information.";
     Renderer.formation_chance := "Check NHC" |}.

Definition sources (h : regexp_host) (w : world)
  : list (block Renderer.outlook) :=
  [ structured_outlook w; page_scrape h w; rss_feed h w;
    current_storms (storms w) ].

Definition getTropicalOutlook (h : regexp_host) (w : world)
  : completion Renderer.outlook :=
  try_return (sequence (sources h w) (seasonal (month w))) unavailable.

End Part000.

(* ================================================================= *)
(** ** src/unnamed/part_001: the resolver that reads NWS products *)

Module Part001.
Import Effects.

(** The reply to the request for [productData]: [productData.productText]
    is [None] when it is not a string, so that [split] is not a function. *)
Inductive product_payload : Type :=
| ProductNull
| ProductText (productText : option str).

(** The list of products of one type ([data['@graph']]). *)
Inductive graph_payload : Type :=
| GraphNull                          (* [data] is [null] *)
| GraphEmpty                         (* no [@graph] of positive length *)
| GraphFirstNull                     (* the first entry is [null] *)
| GraphFirst (product : fetched product_payload).
                                     (* the request for the first [@id] *)

(** An alert of the tropical query, as [processTropicalAlerts] reads it. *)
Record tropical_alert : Type := {
  event : str;
  areaDesc : str;
  expires : option Z
}.

Inductive features_payload : Type :=
| FeaturesNull                       (* [data] is [null] *)
| NoFeatures                         (* no [features] of positive length *)
| FeaturesMalformed                  (* entries on which the helper throws *)
| Features (alerts : list tropical_alert).

Record world : Type := {
  two : fetched graph_payload;          (* products/types/MIATWO *)
  alerts : fetched features_payload;    (* alerts?event=... *)
  now : nat -> Z;                       (* the clock, per alert tested *)
  afd : fetched graph_payload;          (* products/types/MIAAFDEMF *)
  high_seas : fetched graph_payload;    (* products/types/MIAHSP *)
  month : nat                           (* [new Date().getMonth()] *)
}.

Definition percentRegex : regex :=
  {| source := "(\d+)\s*percent"; flags := "i" |}.

(** [lines.slice(a, b).join(' ').trim()]. *)
Definition context_of (lines : list str) (a b : nat) : str :=
  Js.trim (Js.join " " (Js.slice a b lines)).

Definition any_includes (words : list str) (line : str) : bool :=
  existsb (fun word => Js.includes word line) words.

(** The body of the [for] loop of [parseNWSTropicalOutlook]; the variables
    are [maxFormationChance] and [outlookText]. *)
Definition outlook_line (h : regexp_host) (lines : list str)
    (st : Z * str) (i : nat) : Z * str :=
  let line := Js.toLowerCase (nth i lines []) in
  if any_includes ["disturbance" : str; "tropical" : str; "development" : str] line
  then
    let contextText := context_of lines i (Nat.min (i + 3) (length lines)) in
    let st :=
      match exec_first h percentRegex contextText with
      | Some percentMatch =>
          match Js.parseInt (group1 percentMatch) with
          | Some percentage =>
              if (fst st <? percentage)%Z
              then (percentage, Js.substring 0 300 contextText ++ "...")
              else st
          | None => st
          end
      | None => st
      end in
    if negb (Js.truthy (snd st)) && (50 <? Js.length contextText)%nat
    then (fst st, Js.substring 0 300 contextText ++ "...")
    else st
  else st.

(** [parseNWSTropicalOutlook(productText)]; [None] is [null].  Its own
    [try] turns the TypeError of [split] on a non-string into [null]. *)
Definition parseNWSTropicalOutlook (h : regexp_host)
    (productText : option str) : option Renderer.outlook :=
  match productText with
  | None => None
  | Some t =>
      let lines := Js.split_lines t in
      let '(maxFormationChance, outlookText) :=
        fold_left (outlook_line h lines) (seq 0 (length lines))
                  (0%Z, "" : str) in
      if Js.truthy outlookText || (0 <? maxFormationChance)%Z then
        Some
          {| Renderer.outlook_text :=
               Js.or_else outlookText
                 "The National Weather Service is monitoring tropical activity in the Atlantic basin.";
             Renderer.formation_chance :=
               if (0 <? maxFormationChance)%Z
               then Js.of_Z maxFormationChance ++ "%" else "Low" |}
      else None
  end.

(** [alerts.filter(alert => new Date(alert.properties.expires) > new Date())]. *)
Fixpoint active_from (now : nat -> Z) (i : nat) (l : list tropical_alert)
  : list tropical_alert :=
  match l with
  | [] => []
  | a :: rest =>
      if Js.gt (expires a) (now i)
      then a :: active_from now (S i) rest
      else active_from now (S i) rest
  end.

(** [[...new Set(l)]]: the first occurrence of each string is kept. *)
Fixpoint distinct (seen : list str) (l : list str) : list str :=
  match l with
  | [] => []
  | x :: rest =>
      if existsb (Js.str_eqb x) seen then distinct seen rest
      else x :: distinct (x :: seen) rest
  end.

(** [processTropicalAlerts(alerts)]; [None] is [null]. *)
Definition processTropicalAlerts (now : nat -> Z)
    (alerts : list tropical_alert) : option Renderer.outlook :=
  match active_from now 0 alerts with
  | [] => None
  | activeAlerts =>
      let alertTypes := Js.join ", " (map event activeAlerts) in
      let areas := Js.join ", " (distinct [] (map areaDesc activeAlerts)) in
      Some
        {| Renderer.outlook_text :=
             "Active tropical weather alerts: " ++ alertTypes ++ " affecting "
             ++ areas
             ++ ". Monitor National Weather Service for updates and follow all evacuation orders.";
           Renderer.formation_chance := "Active System" |}
  end.

(** The [for] loop with [break] of the two extractors: the context of the
    first line that holds one of [words] and whose context is longer than
    [minimum], cut to [keep] characters. *)
Fixpoint first_context (words : list str) (before after minimum keep : nat)
    (lines : list str) (indices : list nat) : str :=
  match indices with
  | [] => ""
  | i :: rest =>
      let line := Js.toLowerCase (nth i lines []) in
      if any_includes words line then
        let startIdx := Nat.max 0 (i - before) in
        let endIdx := Nat.min (length lines) (i + after) in
        let context := context_of lines startIdx endIdx in
        if (minimum <? Js.length context)%nat
        then Js.substring 0 keep context ++ "..."
        else first_context words before after minimum keep lines rest
      else first_context words before after minimum keep lines rest
  end.

(** [extractTropicalFromAFD(productText)]. *)
Definition extractTropicalFromAFD (h : regexp_host)
    (productText : option str) : option Renderer.outlook :=
  match productText with
  | None => None
  | Some t =>
      let lines := Js.split_lines t in
      let tropicalContent :=
        first_context
          ["tropical" : str; "hurricane" : str; "depression" : str;
           "disturbance" : str]
          2 4 100 400 lines (seq 0 (length lines)) in
      if Js.truthy tropicalContent then
        let formationChance : str :=
          match exec_first h percentRegex tropicalContent with
          | Some percentMatch => group1 percentMatch ++ "%"
          | None => "Monitor"
          end in
        Some {| Renderer.outlook_text := tropicalContent;
                Renderer.formation_chance := formationChance |}
      else None
  end.

(** [extractTropicalFromMarine(productText)]. *)
Definition extractTropicalFromMarine (productText : option str)
  : option Renderer.outlook :=
  match productText with
  | None => None
  | Some t =>
      let lines := Js.split_lines t in
      let marineContent :=
        first_context ["tropical" : str; "cyclone" : str; "storm" : str]
          1 3 80 300 lines (seq 0 (length lines)) in
      if Js.truthy marineContent then
        Some {| Renderer.outlook_text := marineContent;
                Renderer.formation_chance := "See Marine Forecast" |}
      else None
  end.

(** The part common to Methods 1, 3 and 4: the list of products, then the
    text of the latest one, handed to [k]. *)
Definition latest_product {R : Type} (list_reply : fetched graph_payload)
    (k : option str -> block R) : block R :=
  when_ok list_reply (fun data =>
    match data with
    | GraphNull => Escapes ErrorObject
    | GraphEmpty => Falls
    | GraphFirstNull => Escapes ErrorObject
    | GraphFirst productResponse =>
        when_ok productResponse (fun productData =>
          match productData with
          | ProductNull => Escapes ErrorObject
          | ProductText productText => k productText
          end)
    end).

(** [if (tropicalInfo) { return tropicalInfo; }]. *)
Definition return_if_any {R : Type} (tropicalInfo : option R)
  : block (option R) :=
  match tropicalInfo with
  | Some info => Returns (Some info)
  | None => Falls
  end.

(** Method 1: [return parseNWSTropicalOutlook(productData.productText)],
    whatever the helper gives. *)
Definition outlook_product (h : regexp_host) (w : world)
  : block (option Renderer.outlook) :=
  try_log
    (latest_product (two w) (fun productText =>
       Returns (parseNWSTropicalOutlook h productText))).

(** Method 2: [return processTropicalAlerts(data.features)]. *)
Definition tropical_alerts (w : world) : block (option Renderer.outlook) :=
  try_log
    (when_ok (alerts w) (fun data =>
       match data with
       | FeaturesNull => Escapes ErrorObject
       | NoFeatures => Falls
       | FeaturesMalformed => Returns None
       | Features [] => Falls
       | Features features => Returns (processTropicalAlerts (now w) features)
       end)).

(** Method 3. *)
Definition forecast_discussion (h : regexp_host) (w : world)
  : block (option Renderer.outlook) :=
  try_log
    (latest_product (afd w) (fun productText =>
       return_if_any (extractTropicalFromAFD h productText))).

(** Method 4. *)
Definition high_seas_forecast (w : world)
  : block (option Renderer.outlook) :=
  try_log
    (latest_product (high_seas w) (fun productText =>
       return_if_any (extractTropicalFromMarine productText))).

Definition seasonal (month : nat) : Renderer.outlook :=
  if isHurricaneSeason month then
    {| Renderer.outlook_text :=
         "National Weather Service tropical data temporarily unavailable via automated systems. During hurricane season, conditions can change rapidly and tropical development is possible.";
       Renderer.formation_chance := "Monitor NWS" |}
  else
    {| Renderer.outlook_text :=
         "Outside of peak hurricane season. No significant tropical activity expected in the Atlantic basin at this time.";
       Renderer.formation_chance := "0%" |}.

Definition unavailable : Renderer.outlook :=
  {| Renderer.outlook_text :=
       "Tropical weather information temporarily unavailable. Monitor local National Weather Service offices for current conditions.";
     Renderer.formation_chance := "Check NWS" |}.

Definition sources (h : regexp_host) (w : world)
  : list (block (option Renderer.outlook)) :=
  [ outlook_product h w; tropical_alerts w; forecast_discussion h w;
    high_seas_forecast w ].

(** [getTropicalOutlook()]; the value is [None] when the function returns
    [null]. *)
Definition getTropicalOutlook (h : regexp_host) (w : world)
  : completion (option Renderer.outlook) :=
  try_return (sequence (sources h w) (Some (seasonal (month w))))
             (Some unavailable).

End Part001.

(* ================================================================= *)
(** ** The whole run: fetchWeatherConditions and updateHtmlFile *)

Module Pipeline.
Import Effects.

(** What [generateStateConditions] gets from the alerts endpoint: the
    array [data.features || []] of a successful reply, or a failure (a
    rejected request, a status that is not ok, a body that is not JSON, or
    a payload on which [processAlerts] throws), which its [catch] turns
    into the fallback text. *)
Inductive alerts_feed : Type :=
| FeedFailed
| FeedAlerts (features : list Composer.alert).

Definition generateStateConditions (feed : alerts_feed) (now : nat -> Z)
    (state : str) (isHotSeason : bool) : str :=
  match feed with
  | FeedAlerts features => Composer.processAlerts now state features isHotSeason
  | FeedFailed => Composer.generateFallbackConditions state isHotSeason
  end.

(** The inputs of a run other than the tropical sources. *)
Record run : Type := {
  today_month : nat;             (* [today.getMonth()] *)
  feed : str -> alerts_feed;     (* the alerts reply, by state code *)
  clock : str -> nat -> Z;       (* the clock while a state is processed *)
  checkTime : str;               (* texts formatted by the host *)
  startDate : str;
  endDate : str;
  updateTime : str;
  index_html : option str;       (* [None]: the page cannot be read *)
  writable : bool                (* the page can be written *)
}.

(** The loop over [Object.entries(WEATHER_OFFICES)]. *)
Definition state_conditions (r : run) : list (str * str) :=
  map (fun state =>
         (state,
          generateStateConditions (feed r (Composer.getStateCode state))
            (clock r state) state (Composer.isHotSeason (today_month r))))
      Composer.states.

(** [fetchWeatherConditions()], given the completion of
    [getTropicalOutlook()]. *)
Definition fetchWeatherConditions (r : run)
    (tropical : completion (option Renderer.outlook))
  : completion Renderer.weather_data :=
  match tropical with
  | Normal t =>
      Normal {| Renderer.conditions := state_conditions r;
                Renderer.tropical := t |}
  | Throw _ => Throw ErrorObject
  end.

(** The version of the script that runs, with its tropical sources. *)
Inductive script : Type :=
| UpdateWeatherJs (w : UpdateWeather.world)
| Part000Js (w : Part000.world)
| Part001Js (w : Part001.world).

Definition getTropicalOutlook (h : regexp_host) (s : script)
  : completion (option Renderer.outlook) :=
  match s with
  | UpdateWeatherJs w =>
      bind (UpdateWeather.getTropicalOutlook h w) (fun o => Normal (Some o))
  | Part000Js w =>
      bind (Part000.getTropicalOutlook h w) (fun o => Normal (Some o))
  | Part001Js w => Part001.getTropicalOutlook h w
  end.

Definition wording_of (s : script) : Renderer.wording :=
  match s with
  | Part001Js _ => Renderer.NWS
  | _ => Renderer.NHC
  end.

(** The chain of replacements applied to the page. *)
Definition edit (r : run) (s : script) (reportHtml htmlTemplate : str)
  : str :=
  match s with
  | UpdateWeatherJs _ =>
      Publisher.replace_loading
        (Publisher.replace_placeholder htmlTemplate reportHtml)
        (updateTime r)
  | _ => Publisher.replace_placeholder htmlTemplate reportHtml
  end.

(** [updateHtmlFile()]. *)
Definition updateHtmlFile (h : regexp_host) (r : run) (s : script)
  : Publisher.outcome :=
  match fetchWeatherConditions r (getTropicalOutlook h s) with
  | Throw _ => Publisher.Exit 1
  | Normal weatherData =>
      let reportHtml :=
        Renderer.generateReport (wording_of s) (checkTime r) (startDate r)
          (endDate r) weatherData in
      Publisher.publish (index_html r) (writable r) (edit r s reportHtml)
  end.

End Pipeline.

(** A host on which no pattern ever matches, for closed examples. *)
Definition quiet_host : Effects.regexp_host :=
  {| Effects.match_all := fun _ _ => [];
     Effects.exec_all := fun _ _ => [];
     Effects.exec_first := fun _ _ => None;
     Effects.remove_all := fun _ s => s |}.

(* ================================================================= *)
(** ** Vocabulary of the properties *)

Module Spec.
Import Effects.


(** [weatherData[state]], the empty string when there is none. *)
Definition entry (weatherData : Renderer.weather_data) (state : str) : str :=
  match Composer.lookup state (Renderer.conditions weatherData) with
  | Some c => c
  | None => []
  end.

(** The probability that a field of an area states, if it states one. *)
Definition stated (f : field) : list Z :=
  match chance_of f with
  | Normal (Some c) => [c]
  | _ => []
  end.

(** The probabilities stated by one field across the areas. *)
Definition chances (proj : area -> field) (areas : list (option area))
  : list Z :=
  flat_map (fun e => match e with
                     | Some a => stated (proj a)
                     | None => []
                     end) areas.

(** The largest of a list of probabilities, zero for none. *)
Definition maximum (l : list Z) : Z := fold_right Z.max 0%Z l.

Definition is_text (f : field) : bool :=
  match f with Other _ => false | _ => true end.

(** Every entry is an object whose probability fields are strings or
    absent, so that the loop over the areas does not throw. *)
Definition readable (areas : list (option area)) : bool :=
  forallb (fun e => match e with
                    | Some a => is_text (chance2day a) && is_text (chance7day a)
                    | None => false
                    end) areas.

(** The integers that a JavaScript number holds exactly. *)
Definition exact (z : Z) : Prop := (Z.abs z < 2 ^ 53)%Z.

(** A token is numeric when [parseInt] reads a number from it. *)
Definition numeric (token : str) : bool :=
  match Js.parseInt token with Some _ => true | None => false end.

(** Every source block of the resolver ends without a [return] and
    without an exception leaving it: the resolver reaches its last
    statements. *)
Definition all_sources_fail (h : regexp_host) (s : Pipeline.script) : Prop :=
  match s with
  | Pipeline.UpdateWeatherJs w =>
      Forall (fun b => b = Falls) (UpdateWeather.sources h w)
  | Pipeline.Part000Js w => Forall (fun b => b = Falls) (Part000.sources h w)
  | Pipeline.Part001Js w => Forall (fun b => b = Falls) (Part001.sources h w)
  end.

(** [new Date().getMonth()] as the resolver reads it. *)
Definition month_of (s : Pipeline.script) : nat :=
  match s with
  | Pipeline.UpdateWeatherJs w => UpdateWeather.month w
  | Pipeline.Part000Js w => Part000.month w
  | Pipeline.Part001Js w => Part001.month w
  end.

(** The value of the last statements of the resolver in a given month. *)
Definition seasonal_of (s : Pipeline.script) (month : nat)
  : Renderer.outlook :=
  match s with
  | Pipeline.UpdateWeatherJs _ => UpdateWeather.seasonal month
  | Pipeline.Part000Js _ => Part000.seasonal month
  | Pipeline.Part001Js _ => Part001.seasonal month
  end.

(** The literal [p] and the text [s] agree as far as both go: [p] matches
    at the head of [s], or would once [s] is continued suitably. *)
Definition compatible (p s : str) : bool :=
  Js.starts_with p s || Js.starts_with s p.

(** At no position of [a] can a match of [p] start, whatever text follows
    [a]. *)
Fixpoint never_matches_in (p a : str) : bool :=
  match a with
  | [] => true
  | _ :: a' => negb (compatible p a) && never_matches_in p a'
  end.

(** At every position of [a] the literal [p] either matches inside [a] or
    cannot match whatever follows: no match of [p] runs over the end of
    [a]. *)
Fixpoint settled (p a : str) : bool :=
  match a with
  | [] => true
  | _ :: a' =>
      (Js.starts_with p a || negb (compatible p a)) && settled p a'
  end.

(** Two rules do not interfere: neither pattern can match in or across the
    other pattern or the other replacement. *)
Definition independent (x y : str * str) : bool :=
  let '(p1, r1) := x in
  let '(p2, r2) := y in
  Js.truthy p1 && Js.truthy p2
  && never_matches_in p2 r1 && never_matches_in p1 r2
  && never_matches_in p1 p2 && never_matches_in p2 p1
  && never_matches_in r1 (tl p2) && never_matches_in r2 (tl p1).

Definition rule_eqb (x y : str * str) : bool :=
  Js.str_eqb (fst x) (fst y) && Js.str_eqb (snd x) (snd y).

Definition pairwise_independent (rules : list (str * str)) : bool :=
  forallb (fun x => forallb (fun y => rule_eqb x y || independent x y) rules)
          rules.

(** The text [m] is cut off from its surroundings under a chain of rules:
    no match runs into [m] from the left or out of it to the right, at any
    stage of the chain. *)
Fixpoint splits_at (rules : list (str * str)) (m : str) : bool :=
  match rules with
  | [] => true
  | (p, r) :: rest =>
      Js.truthy p && never_matches_in m (tl p) && settled p m
      && splits_at rest (Js.replace_all p r m)
  end.

(** A rule keeps the number of occurrences of [q]. *)
Definition keeps_count (q : str) (rule : str * str) : bool :=
  let '(p, r) := rule in
  Js.truthy q && Js.truthy p && settled q p && settled q r
  && (Js.count_occ q p =? Js.count_occ q r)%nat
  && never_matches_in p (tl q) && never_matches_in r (tl q).

(** The phrase of the claim and its emphasised form. *)
Definition phrase : str := "frequent lightning".
Definition emphasised : str := "<strong>frequent lightning</strong>".
Definition warnings_span : str :=
  "<span class=" ++ dq ++ "warning" ++ dq ++ ">WARNINGS</span>".

(** A dollar sign followed by one of the four characters that make a
    replacement pattern together with it. *)
Definition special (d : ascii) : bool :=
  Ascii.eqb d "$" || Ascii.eqb d "&" || Ascii.eqb d "`" || Ascii.eqb d "'".

Fixpoint has_dollar_pattern (s : str) : bool :=
  match s with
  | [] => false
  | c :: t =>
      (Ascii.eqb c "$" && match t with d :: _ => special d | [] => false end)
      || has_dollar_pattern t
  end.

(** A request that fails: it is rejected with an Error object, or its
    reply has a status that is not ok. *)
Definition refused {A : Type} (f : fetched A) : Prop :=
  f = Rejected ErrorObject \/ exists body, f = Response false body.


End Spec.

(* ================================================================= *)
(** ** Concrete inputs used by the examples *)

Module Examples.
Import Effects.

(** The areas of the specification's example: a 7-day chance of 40% in
    the first area, a 2-day chance of 70% in the second. *)
Definition two_areas : list (option area) :=
  [ Some {| chance2day := Absent; chance7day := Text "40%"; text := Absent |};
    Some {| chance2day := Text "70%"; chance7day := Absent; text := Absent |} ].

Definition main_world (g : fetched gtwo_payload) (month : nat)
  : UpdateWeather.world :=
  {| UpdateWeather.gtwo := g;
     UpdateWeather.rss := Rejected ErrorObject;
     UpdateWeather.storms := Rejected ErrorObject;
     UpdateWeather.month := month |}.

Definition part000_world (g : fetched gtwo_payload) (month : nat)
  : Part000.world :=
  {| Part000.gtwo := g;
     Part000.page := Rejected ErrorObject;
     Part000.rss := Rejected ErrorObject;
     Part000.storms := Rejected ErrorObject;
     Part000.month := month |}.

(** part_001 with the outlook product unreachable and one alert of the
    tropical query that expired before the run. *)
Definition expired_alert_world : Part001.world :=
  {| Part001.two := Rejected ErrorObject;
     Part001.alerts :=
       Response true
         (Normal
            (Part001.Features
               [ {| Part001.event := "Hurricane Warning";
                    Part001.areaDesc := "Coastal Miami-Dade";
                    Part001.expires := Some 1000%Z |} ]));
     Part001.now := fun _ => 2000%Z;
     Part001.afd := Rejected ErrorObject;
     Part001.high_seas := Rejected ErrorObject;
     Part001.month := 6 |}.

(** A run whose alert requests all fail, over a given page. *)
Definition offline_run (month : nat) (page : option str) : Pipeline.run :=
  {| Pipeline.today_month := month;
     Pipeline.feed := fun _ => Pipeline.FeedFailed;
     Pipeline.clock := fun _ _ => 0%Z;
     Pipeline.checkTime := "9:00 AM EDT";
     Pipeline.startDate := "Monday, June 1, 2026";
     Pipeline.endDate := "Friday, June 5, 2026";
     Pipeline.updateTime := "6/1/2026, 9:00:00 AM";
     Pipeline.index_html := page;
     Pipeline.writable := true |}.

End Examples.

(* ================================================================= *)
(** ** Further vocabulary *)

Module Terms.

(** Both fields of an outlook record are non-empty strings, so that the
    renderer prints them and not its placeholders. *)
Definition shown (o : Renderer.outlook) : Prop :=
  Js.truthy (Renderer.outlook_text o) = true /\
  Js.truthy (Renderer.formation_chance o) = true.

Definition shown_or_null (v : option Renderer.outlook) : Prop :=
  match v with Some o => shown o | None => True end.

(** The characters of an unsigned decimal numeral. *)
Definition digits (d : Decimal.uint) : str :=
  list_ascii_of_string (NilEmpty.string_of_uint d).

(** What a later run leaves in the page of a fragment written by an
    earlier run: the text after the first closing tag of the fragment,
    and the closing tag that ended the container. *)
Definition leftover (frag : str) : str :=
  match Js.index_of Publisher.CLOSE frag with
  | Some j => skipn (j + length Publisher.CLOSE) frag ++ Publisher.CLOSE
  | None => []
  end.

(** The numbers read from a list of tokens; a token that is not numeric is
    passed over. *)
Definition numbers {A : Type} (read : A -> option Z) (l : list A) : list Z :=
  flat_map (fun x => match read x with Some z => [z] | None => [] end) l.

(** part_000, Method 2: the percentages that the three patterns capture in
    the page, in the order of the loops. *)
Definition page_percentages (h : Effects.regexp_host) (htmlText : str)
  : list Z :=
  flat_map
    (fun pattern =>
       numbers (fun m => Js.parseInt (Effects.group1 m))
               (Effects.exec_all h pattern htmlText))
    [Part000.formationRegex; Part000.disturbanceRegex;
     Part000.percentageRegex].


(** What one area adds to the outlook text of update-weather.js, and what
    the area at index [i] adds in part_000. *)
Definition area_text (e : option Effects.area) : str :=
  match e with
  | Some a =>
      if Effects.field_truthy (Effects.text a)
      then Effects.field_string (Effects.text a) ++ " "
      else []
  | None => []
  end.

Definition numbered_text (ie : nat * option Effects.area) : str :=
  match snd ie with
  | Some a =>
      if Effects.field_truthy (Effects.text a)
      then "Disturbance " ++ Js.of_nat (fst ie + 1) ++ ": "
           ++ Effects.field_string (Effects.text a) ++ " "
      else []
  | None => []
  end.

(** part_001, the outlook product: the percentage read from the context of
    the line at index [i], when that line holds one of the three words. *)
Definition product_percentage (h : Effects.regexp_host) (lines : list str)
    (i : nat) : option Z :=
  if Part001.any_includes
       ["disturbance" : str; "tropical" : str; "development" : str]
       (Js.toLowerCase (nth i lines []))
  then
    match Effects.exec_first h Part001.percentRegex
            (Part001.context_of lines i (Nat.min (i + 3) (length lines))) with
    | Some percentMatch => Js.parseInt (Effects.group1 percentMatch)
    | None => None
    end
  else None.

Definition product_percentages (h : Effects.regexp_host) (productText : str)
  : list Z :=
  let lines := Js.split_lines productText in
  numbers (product_percentage h lines) (seq 0 (length lines)).

(** A host on which every pattern matches once, with one fixed capture,
    for closed examples. *)
Definition sample_host : Effects.regexp_host :=
  {| Effects.match_all := fun _ _ => ["40%" : str];
     Effects.exec_all := fun _ _ =>
       [ {| Effects.index := 0; Effects.whole := "40 percent";
            Effects.group1 := "40" |} ];
     Effects.exec_first := fun _ _ => None;
     Effects.remove_all := fun _ s => s |}.

End Terms.

(* ================================================================= *)
(** * Properties *)

(** ** Strings: prefixes *)

Section StringFacts.

Lemma starts_with_app (p x : str) : Js.starts_with p (p ++ x) = true.
Proof.
  induction p as [|a p IH]; simpl; [reflexivity|].
  now rewrite Ascii.eqb_refl, IH.
Qed.

Lemma starts_with_inv (p s : str) :
  Js.starts_with p s = true -> s = p ++ skipn (length p) s.
Proof.
  revert s; induction p as [|a p IH]; intros s H; simpl in *; [reflexivity|].
  destruct s as [|b s]; [discriminate|].
  apply andb_true_iff in H as [Hab Hps].
  apply Ascii.eqb_eq in Hab; subst b.
  simpl. f_equal. now apply IH.
Qed.

Lemma starts_with_iff (p s : str) :
  Js.starts_with p s = true <-> exists x, s = p ++ x.
Proof.
  split.
  - intros H. exists (skipn (length p) s). now apply starts_with_inv.
  - intros [x ->]. apply starts_with_app.
Qed.

Lemma str_eqb_eq (a b : str) : Js.str_eqb a b = true <-> a = b.
Proof.
  unfold Js.str_eqb. split.
  - intros H. apply andb_true_iff in H as [Hp Hl].
    apply Nat.eqb_eq in Hl.
    apply starts_with_inv in Hp.
    assert (Hn : skipn (length a) b = []).
    { apply length_zero_iff_nil. rewrite length_skipn. lia. }
    rewrite Hn, app_nil_r in Hp. now symmetry.
  - intros ->. rewrite <- (app_nil_r b) at 2.
    now rewrite starts_with_app, Nat.eqb_refl.
Qed.

Lemma truthy_app_l (a b : str) : Js.truthy a = true -> Js.truthy (a ++ b) = true.
Proof. destruct a; [discriminate | reflexivity]. Qed.

Lemma truthy_nonempty (a : str) : Js.truthy a = true <-> a <> [].
Proof. destruct a; simpl; split; congruence. Qed.

End StringFacts.

(** ** Replacing a literal pattern everywhere *)

Section LiteralReplace.
Import Spec.

Lemma starts_with_nil_r (p : str) : Js.starts_with p [] = true -> p = [].
Proof. destruct p; [reflexivity | discriminate]. Qed.

Lemma starts_with_extend (p a b : str) :
  Js.starts_with p a = true -> Js.starts_with p (a ++ b) = true.
Proof.
  intros H. apply starts_with_iff in H as [x ->].
  rewrite <- app_assoc. apply starts_with_app.
Qed.

Lemma compatible_sym (p s : str) : compatible p s = compatible s p.
Proof. unfold compatible. apply orb_comm. Qed.

(** A match at the head of [a ++ b] shows that [p] and [a] agree. *)
Lemma starts_with_compatible (p a b : str) :
  Js.starts_with p (a ++ b) = true -> compatible p a = true.
Proof.
  unfold compatible. revert a; induction p as [|x p IH]; intros a H.
  - reflexivity.
  - destruct a as [|y a]; simpl in *.
    + reflexivity.
    + apply andb_true_iff in H as [Hxy H]. apply IH in H.
      apply Ascii.eqb_eq in Hxy; subst y. rewrite Ascii.eqb_refl. exact H.
Qed.

Lemma never_matches_tl (p a : str) :
  never_matches_in p a = true -> never_matches_in p (tl a) = true.
Proof.
  destruct a; simpl; [tauto|]. intros H.
  now apply andb_true_iff in H as [_ H].
Qed.

Lemma replace_from_skip (p r : str) (k : nat) (s : str) :
  Js.replace_from p r k s = Js.replace_all p r (skipn k s).
Proof.
  revert k; induction s as [|c s IH]; intros [|k]; try reflexivity.
  simpl. apply IH.
Qed.

Lemma replace_all_nil (p r : str) : Js.replace_all p r [] = [].
Proof. reflexivity. Qed.

Lemma replace_all_skip (p r : str) (c : ascii) (s : str) :
  Js.starts_with p (c :: s) = false ->
  Js.replace_all p r (c :: s) = c :: Js.replace_all p r s.
Proof. intros H. unfold Js.replace_all. simpl Js.replace_from. now rewrite H. Qed.

Lemma replace_all_match (p r s : str) :
  p <> [] -> Js.starts_with p s = true ->
  Js.replace_all p r s = r ++ Js.replace_all p r (skipn (length p) s).
Proof.
  intros Hp H. destruct s as [|c s].
  - apply starts_with_nil_r in H. contradiction.
  - unfold Js.replace_all at 1. simpl Js.replace_from. rewrite H.
    rewrite replace_from_skip. destruct p as [|a p]; [contradiction|].
    simpl. now rewrite Nat.sub_0_r.
Qed.

Lemma replace_all_hit (p r y : str) :
  p <> [] -> Js.replace_all p r (p ++ y) = r ++ Js.replace_all p r y.
Proof.
  intros Hp. rewrite (replace_all_match p r (p ++ y) Hp (starts_with_app p y)).
  now rewrite skipn_app, skipn_all, Nat.sub_diag.
Qed.

(** Induction along the scan of [replace_all]. *)
Lemma scan_ind (p : str) (P : str -> Prop) :
  p <> [] ->
  P [] ->
  (forall x, Js.starts_with p x = true -> P (skipn (length p) x) -> P x) ->
  (forall c x, Js.starts_with p (c :: x) = false -> P x -> P (c :: x)) ->
  forall x, P x.
Proof.
  intros Hp H0 Hm Hs x.
  remember (length x) as n eqn:E. revert x E.
  induction n as [n IH] using lt_wf_ind. intros x E.
  destruct x as [|c x]; [exact H0|].
  destruct (Js.starts_with p (c :: x)) eqn:M.
  - apply Hm; [exact M|].
    apply (IH (length (skipn (length p) (c :: x)))); [|reflexivity].
    rewrite length_skipn. subst n. destruct p; [congruence|]. simpl. lia.
  - apply Hs; [exact M|]. apply (IH (length x)); [|reflexivity].
    subst n. simpl. lia.
Qed.

(** A settled prefix is rewritten on its own. *)
Lemma replace_all_settled (p r m y : str) :
  p <> [] -> settled p m = true ->
  Js.replace_all p r (m ++ y) = Js.replace_all p r m ++ Js.replace_all p r y.
Proof.
  intros Hp. revert m. apply (scan_ind p (fun m => settled p m = true ->
    Js.replace_all p r (m ++ y) = Js.replace_all p r m ++ Js.replace_all p r y) Hp).
  - reflexivity.
  - intros x Hx IH Hset.
    rewrite (replace_all_match p r x Hp Hx).
    rewrite (replace_all_match p r (x ++ y) Hp (starts_with_extend _ _ _ Hx)).
    rewrite <- app_assoc. f_equal.
    pose proof (starts_with_inv p x Hx) as E.
    rewrite E at 1. rewrite <- app_assoc, skipn_app, skipn_all, Nat.sub_diag.
    simpl. apply IH.
    clear -Hset. revert Hset. generalize (length p).
    induction x as [|c x IHx]; intros [|n] H; simpl in *; auto.
    apply andb_true_iff in H as [_ H]. now apply IHx.
  - intros c x Hx IH Hset. simpl in Hset.
    apply andb_true_iff in Hset as [Hc Hset]. rewrite Hx in Hc. simpl in Hc.
    assert (Hn : Js.starts_with p ((c :: x) ++ y) = false).
    { destruct (Js.starts_with p ((c :: x) ++ y)) eqn:E; [|reflexivity].
      apply starts_with_compatible in E. rewrite E in Hc. discriminate. }
    simpl app in *. rewrite (replace_all_skip _ _ _ _ Hn).
    rewrite (replace_all_skip _ _ _ _ Hx). simpl. f_equal. now apply IH.
Qed.

Lemma never_matches_settled (p a : str) :
  never_matches_in p a = true -> settled p a = true.
Proof.
  induction a as [|c a IH]; simpl; [reflexivity|]. intros H.
  apply andb_true_iff in H as [H1 H2]. rewrite H1, orb_true_r. now apply IH.
Qed.

Lemma replace_all_clean (p r a : str) :
  never_matches_in p a = true -> Js.replace_all p r a = a.
Proof.
  induction a as [|c a IH]; [reflexivity|]. simpl. intros H.
  apply andb_true_iff in H as [H1 H2].
  rewrite replace_all_skip.
  - f_equal. now apply IH.
  - unfold compatible in H1. apply negb_true_iff, orb_false_iff in H1. tauto.
Qed.

(** A prefix in which [p] never matches is copied. *)
Lemma replace_all_clean_prefix (p r a b : str) :
  p <> [] -> never_matches_in p a = true ->
  Js.replace_all p r (a ++ b) = a ++ Js.replace_all p r b.
Proof.
  intros Hp H.
  rewrite (replace_all_settled p r a b Hp (never_matches_settled _ _ H)).
  now rewrite (replace_all_clean p r a H).
Qed.

(** Text that follows cannot complete a match when it agrees with no
    proper suffix of the pattern. *)
Lemma starts_with_before (m q x y : str) :
  never_matches_in m q = true ->
  Js.starts_with q (x ++ m ++ y) = Js.starts_with q x.
Proof.
  revert x; induction q as [|a q IH]; intros x H; [reflexivity|].
  simpl in H. apply andb_true_iff in H as [H1 H2].
  destruct x as [|c x]; simpl app.
  - destruct (Js.starts_with (a :: q) (m ++ y)) eqn:E; [|reflexivity].
    apply starts_with_compatible in E. rewrite compatible_sym in E.
    rewrite E in H1. discriminate.
  - simpl. f_equal. now apply IH.
Qed.

Lemma starts_with_before_cons (m p x y : str) :
  x <> [] -> never_matches_in m (tl p) = true ->
  Js.starts_with p (x ++ m ++ y) = Js.starts_with p x.
Proof.
  intros Hx H. destruct p as [|a q]; [reflexivity|].
  destruct x as [|c x]; [contradiction|]. simpl. f_equal.
  now apply starts_with_before.
Qed.

(** No match runs into [m] from the left. *)
Lemma replace_all_left (p r m x y : str) :
  p <> [] -> never_matches_in m (tl p) = true ->
  Js.replace_all p r (x ++ m ++ y)
  = Js.replace_all p r x ++ Js.replace_all p r (m ++ y).
Proof.
  intros Hp Hm. revert x. apply (scan_ind p (fun x =>
    Js.replace_all p r (x ++ m ++ y)
    = Js.replace_all p r x ++ Js.replace_all p r (m ++ y)) Hp).
  - reflexivity.
  - intros x Hx IH.
    rewrite (replace_all_match p r x Hp Hx).
    rewrite (replace_all_match p r (x ++ m ++ y) Hp (starts_with_extend _ _ _ Hx)).
    rewrite <- app_assoc. f_equal.
    pose proof (starts_with_inv p x Hx) as E.
    rewrite E at 1. rewrite <- app_assoc, skipn_app, skipn_all, Nat.sub_diag.
    simpl. exact IH.
  - intros c x Hx IH.
    assert (Hn : Js.starts_with p ((c :: x) ++ m ++ y) = false).
    { rewrite starts_with_before_cons; [exact Hx | discriminate | exact Hm]. }
    simpl app in *. rewrite (replace_all_skip _ _ _ _ Hn).
    rewrite (replace_all_skip _ _ _ _ Hx). simpl. now f_equal.
Qed.

(** A text cut off from its surroundings is rewritten on its own. *)
Lemma replace_all_split (p r m x y : str) :
  p <> [] -> never_matches_in m (tl p) = true -> settled p m = true ->
  Js.replace_all p r (x ++ m ++ y)
  = Js.replace_all p r x ++ Js.replace_all p r m ++ Js.replace_all p r y.
Proof.
  intros Hp Hm Hs. rewrite (replace_all_left p r m x y Hp Hm).
  now rewrite (replace_all_settled p r m y Hp Hs).
Qed.

Lemma truthy_ne (p : str) : Js.truthy p = true -> p <> [].
Proof. now apply truthy_nonempty. Qed.

Lemma apply_rules_split (rules : list (str * str)) (m : str) :
  splits_at rules m = true ->
  forall x y,
    Renderer.apply_rules rules (x ++ m ++ y)
    = Renderer.apply_rules rules x ++ Renderer.apply_rules rules m
      ++ Renderer.apply_rules rules y.
Proof.
  revert m; induction rules as [|[p r] rules IH]; intros m H x y.
  - reflexivity.
  - simpl in H. repeat (apply andb_true_iff in H as [H ?]).
    unfold Renderer.apply_rules in *. simpl.
    rewrite (replace_all_split p r m x y); auto using truthy_ne.
Qed.


(** Replacing [p] does not change whether a text [t] matches at the head,
    when neither [p] nor [r] can match in or across [t]. *)
Lemma starts_with_replaced (p r : str) :
  p <> [] ->
  forall x t,
    never_matches_in p t = true -> never_matches_in r t = true ->
    Js.starts_with t (Js.replace_all p r x) = Js.starts_with t x.
Proof.
  intros Hp. apply (scan_ind p (fun x => forall t,
    never_matches_in p t = true -> never_matches_in r t = true ->
    Js.starts_with t (Js.replace_all p r x) = Js.starts_with t x) Hp).
  - reflexivity.
  - intros x Hx _ t Hpt Hrt. destruct t as [|a t]; [reflexivity|].
    simpl in Hpt, Hrt.
    apply andb_true_iff in Hpt as [Hpt _]. apply andb_true_iff in Hrt as [Hrt _].
    apply negb_true_iff in Hpt, Hrt.
    rewrite (replace_all_match p r x Hp Hx).
    transitivity false; [|symmetry].
    + destruct (Js.starts_with (a :: t) (r ++ _)) eqn:E; [|reflexivity].
      apply starts_with_compatible in E. rewrite compatible_sym in E. congruence.
    + rewrite (starts_with_inv p x Hx).
      destruct (Js.starts_with (a :: t) (p ++ _)) eqn:E; [|reflexivity].
      apply starts_with_compatible in E. rewrite compatible_sym in E. congruence.
  - intros c x Hx IH t Hpt Hrt. rewrite (replace_all_skip _ _ _ _ Hx).
    destruct t as [|a t]; [reflexivity|]. simpl. f_equal.
    apply IH; [exact (never_matches_tl p (a :: t) Hpt)
              | exact (never_matches_tl r (a :: t) Hrt)].
Qed.

Lemma starts_with_cons_replaced (p r q : str) (c : ascii) (x : str) :
  p <> [] ->
  never_matches_in p (tl q) = true -> never_matches_in r (tl q) = true ->
  Js.starts_with q (c :: Js.replace_all p r x) = Js.starts_with q (c :: x).
Proof.
  intros Hp H1 H2. destruct q as [|a t]; [reflexivity|]. simpl. f_equal.
  now apply starts_with_replaced.
Qed.

(** Two independent rules can be applied in either order. *)
Lemma replace_all_commute (x y : str * str) :
  independent x y = true ->
  forall s,
    Js.replace_all (fst y) (snd y) (Js.replace_all (fst x) (snd x) s)
    = Js.replace_all (fst x) (snd x) (Js.replace_all (fst y) (snd y) s).
Proof.
  destruct x as [p1 r1], y as [p2 r2]. unfold independent.
  intros H. repeat (apply andb_true_iff in H as [H ?]).
  apply truthy_ne in H.
  assert (Hp2 : p2 <> []) by now apply truthy_ne.
  simpl fst; simpl snd.
  intros s. remember (length s) as n eqn:E. revert s E.
  induction n as [n IH] using lt_wf_ind. intros s E.
  destruct s as [|c s]; [reflexivity|].
  destruct (Js.starts_with p1 (c :: s)) eqn:M1;
    [|destruct (Js.starts_with p2 (c :: s)) eqn:M2].
  - rewrite (starts_with_inv p1 _ M1).
    rewrite (replace_all_hit p1 r1 _ H).
    rewrite (replace_all_clean_prefix p2 r2 r1); auto.
    rewrite (replace_all_clean_prefix p2 r2 p1); auto.
    rewrite (replace_all_hit p1 r1 _ H). f_equal.
    apply (IH (length (skipn (length p1) (c :: s)))); [|reflexivity].
    rewrite length_skipn. subst n. destruct p1; [congruence|]. simpl. lia.
  - rewrite (starts_with_inv p2 _ M2).
    rewrite (replace_all_hit p2 r2 _ Hp2).
    rewrite (replace_all_clean_prefix p1 r1 r2); auto.
    rewrite (replace_all_clean_prefix p1 r1 p2); auto.
    rewrite (replace_all_hit p2 r2 _ Hp2). f_equal.
    apply (IH (length (skipn (length p2) (c :: s)))); [|reflexivity].
    rewrite length_skipn. subst n. destruct p2; [congruence|]. simpl. lia.
  - rewrite (replace_all_skip p1 r1 c s M1), (replace_all_skip p2 r2 c s M2).
    rewrite (replace_all_skip p2 r2 c (Js.replace_all p1 r1 s)).
    2:{ rewrite starts_with_cons_replaced; auto using never_matches_tl. }
    rewrite (replace_all_skip p1 r1 c (Js.replace_all p2 r2 s)).
    2:{ rewrite starts_with_cons_replaced; auto using never_matches_tl. }
    f_equal. apply (IH (length s)); [|reflexivity]. subst n. simpl. lia.
Qed.

Lemma rule_eqb_eq (x y : str * str) : rule_eqb x y = true -> x = y.
Proof.
  destruct x, y. unfold rule_eqb. simpl. intros H.
  apply andb_true_iff in H as [H1 H2].
  apply str_eqb_eq in H1, H2. now subst.
Qed.

Lemma apply_rules_cons (rule : str * str) (rules : list (str * str)) (s : str) :
  Renderer.apply_rules (rule :: rules) s
  = Renderer.apply_rules rules (Js.replace_all (fst rule) (snd rule) s).
Proof. reflexivity. Qed.

(** A chain of pairwise independent rules gives the same text in every
    order. *)
Lemma apply_rules_permutation (rules l l' : list (str * str)) :
  pairwise_independent rules = true ->
  Permutation l l' -> incl l rules ->
  forall s, Renderer.apply_rules l s = Renderer.apply_rules l' s.
Proof.
  intros Hind Hperm. induction Hperm as [|x l l' Hp IH|x y l|l l' l'' H1 IH1 H2 IH2];
    intros Hincl s.
  - reflexivity.
  - rewrite !apply_rules_cons. apply IH.
    intros z Hz. apply Hincl. now right.
  - rewrite !apply_rules_cons. f_equal.
    assert (Hx : In x rules) by (apply Hincl; simpl; tauto).
    assert (Hy : In y rules) by (apply Hincl; simpl; tauto).
    unfold pairwise_independent in Hind.
    rewrite forallb_forall in Hind. specialize (Hind x Hx).
    rewrite forallb_forall in Hind. specialize (Hind y Hy).
    apply orb_true_iff in Hind as [Heq | Hxy].
    + apply rule_eqb_eq in Heq. now subst.
    + symmetry. now apply replace_all_commute.
  - rewrite IH1 by assumption. apply IH2.
    intros z Hz. apply Hincl. apply (Permutation_in z (Permutation_sym H1) Hz).
Qed.

(** *** Counting occurrences *)

Lemma count_occ_cons (q : str) (c : ascii) (s : str) :
  Js.count_occ q (c :: s)
  = (if Js.starts_with q (c :: s) then 1 else 0) + Js.count_occ q s.
Proof. reflexivity. Qed.

Lemma count_occ_nil (q : str) : q <> [] -> Js.count_occ q [] = 0.
Proof. destruct q; [congruence | reflexivity]. Qed.

Lemma count_settled (q a z : str) :
  q <> [] -> settled q a = true ->
  Js.count_occ q (a ++ z) = Js.count_occ q a + Js.count_occ q z.
Proof.
  intros Hq. induction a as [|c a IH]; intros H.
  - now rewrite (count_occ_nil q Hq).
  - simpl in H. apply andb_true_iff in H as [H1 H2].
    simpl app. rewrite !count_occ_cons, (IH H2).
    assert (E : Js.starts_with q (c :: a ++ z) = Js.starts_with q (c :: a)).
    { destruct (Js.starts_with q (c :: a)) eqn:M.
      - exact (starts_with_extend q (c :: a) z M).
      - simpl in H1. apply negb_true_iff in H1.
        destruct (Js.starts_with q (c :: a ++ z)) eqn:N; [|reflexivity].
        apply (starts_with_compatible q (c :: a) z) in N. congruence. }
    rewrite E. lia.
Qed.

(** A rule that keeps the count of [q] in its own pattern and replacement
    keeps it in every text. *)
Lemma count_replace (q : str) (rule : str * str) :
  keeps_count q rule = true ->
  forall x,
    Js.count_occ q (Js.replace_all (fst rule) (snd rule) x) = Js.count_occ q x.
Proof.
  destruct rule as [p r]. unfold keeps_count. intros H.
  repeat (apply andb_true_iff in H as [H ?]).
  apply truthy_ne in H.
  assert (Hp : p <> []) by now apply truthy_ne.
  match goal with Hc : (_ =? _)%nat = true |- _ => apply Nat.eqb_eq in Hc end.
  simpl fst; simpl snd.
  apply (scan_ind p (fun x =>
    Js.count_occ q (Js.replace_all p r x) = Js.count_occ q x) Hp).
  - reflexivity.
  - intros x Hx IH. rewrite (replace_all_match p r x Hp Hx).
    rewrite (starts_with_inv p x Hx) at 2.
    rewrite !count_settled by assumption. congruence.
  - intros c x Hx IH. rewrite (replace_all_skip _ _ _ _ Hx).
    rewrite !count_occ_cons, IH.
    now rewrite starts_with_cons_replaced.
Qed.

Lemma count_apply_rules (q : str) (rules : list (str * str)) :
  forallb (keeps_count q) rules = true ->
  forall x, Js.count_occ q (Renderer.apply_rules rules x) = Js.count_occ q x.
Proof.
  induction rules as [|rule rules IH]; intros H x; [reflexivity|].
  simpl in H. apply andb_true_iff in H as [H1 H2].
  rewrite apply_rules_cons, (IH H2). now apply count_replace.
Qed.

Lemma count_tl_le (q x : str) : Js.count_occ q (tl x) <= Js.count_occ q x.
Proof. destruct x as [|c x]; [reflexivity|]. rewrite count_occ_cons. simpl. lia. Qed.

(** An occurrence of [a :: q] holds an occurrence of [q] one place on. *)
Lemma count_shift (a : ascii) (q x : str) :
  Js.count_occ (a :: q) x <= Js.count_occ q (tl x).
Proof.
  induction x as [|c x IH]; [simpl; lia|].
  rewrite count_occ_cons. simpl tl.
  destruct x as [|d x].
  - simpl. destruct (Ascii.eqb a c), q; simpl; lia.
  - rewrite (count_occ_cons q d x). simpl tl in IH.
    assert (E : (if Js.starts_with (a :: q) (c :: d :: x) then 1 else 0)
                <= (if Js.starts_with q (d :: x) then 1 else 0)).
    { simpl Js.starts_with at 1.
      destruct (Ascii.eqb a c); simpl;
        destruct (Js.starts_with q (d :: x)); lia. }
    lia.
Qed.

Lemma count_truncate (q b x : str) :
  Js.count_occ (q ++ b) x <= Js.count_occ q x.
Proof.
  assert (Hs : forall s, (if Js.starts_with (q ++ b) s then 1 else 0)
                         <= (if Js.starts_with q s then 1 else 0)).
  { intros s. destruct (Js.starts_with (q ++ b) s) eqn:E; [|lia].
    apply starts_with_iff in E as [z ->]. rewrite <- app_assoc.
    now rewrite starts_with_app. }
  induction x as [|c x IH].
  - simpl. specialize (Hs []). lia.
  - rewrite !count_occ_cons. specialize (Hs (c :: x)). lia.
Qed.

Lemma count_inside (a q b x : str) :
  Js.count_occ (a ++ q ++ b) x <= Js.count_occ q x.
Proof.
  revert x; induction a as [|c a IH]; intros x.
  - simpl app. apply count_truncate.
  - simpl app. etransitivity; [apply count_shift|].
    etransitivity; [apply IH|]. apply count_tl_le.
Qed.

Lemma count_occurs (q a b : str) : 1 <= Js.count_occ q (a ++ q ++ b).
Proof.
  induction a as [|c a IH].
  - simpl app. destruct (q ++ b) eqn:E.
    + destruct q; [reflexivity | discriminate].
    + rewrite count_occ_cons, <- E, starts_with_app. lia.
  - simpl app. rewrite count_occ_cons. lia.
Qed.

Lemma count_pos_split (q s : str) :
  1 <= Js.count_occ q s -> exists a b, s = a ++ q ++ b.
Proof.
  induction s as [|c s IH]; intros H.
  - simpl in H. destruct (Js.starts_with q []) eqn:E; [|lia].
    apply starts_with_nil_r in E. subst. now exists [], [].
  - rewrite count_occ_cons in H.
    destruct (Js.starts_with q (c :: s)) eqn:E.
    + apply starts_with_iff in E as [z Hz]. exists [], z. exact Hz.
    + destruct IH as [a [b ->]]; [lia|]. now exists (c :: a), b.
Qed.

End LiteralReplace.

(** ** Searching for a literal pattern *)

Section SearchFacts.
Import Spec.

Lemma skipn_length_app {A : Type} (a b : list A) :
  skipn (length a) (a ++ b) = b.
Proof. induction a; simpl; auto. Qed.

Lemma firstn_length_app {A : Type} (a b : list A) :
  firstn (length a) (a ++ b) = a.
Proof. induction a; simpl; f_equal; auto. Qed.

Lemma skipn_length_app2 {A : Type} (a b c : list A) :
  skipn (length a + length b) (a ++ b ++ c) = c.
Proof.
  rewrite app_assoc, <- length_app. apply skipn_length_app.
Qed.

Lemma starts_with_long (p u x : str) :
  length p <= length u -> Js.starts_with p (u ++ x) = Js.starts_with p u.
Proof.
  revert u; induction p as [|a p IH]; intros u H; [reflexivity|].
  destruct u as [|c u]; simpl in *; [lia|].
  f_equal. apply IH. lia.
Qed.

(** [index_of] finds the leftmost position at which the pattern matches. *)
Lemma index_of_found (p s : str) (i : nat) :
  Js.index_of p s = Some i ->
  Js.starts_with p (skipn i s) = true /\ i <= length s /\
  forall k, k < i -> Js.starts_with p (skipn k s) = false.
Proof.
  revert i; induction s as [|c s IH]; intros i H.
  - simpl in H. destruct (Js.starts_with p []) eqn:E; [|discriminate].
    injection H as <-. repeat split; [exact E | lia | lia].
  - simpl in H. destruct (Js.starts_with p (c :: s)) eqn:E.
    + injection H as <-. repeat split; [exact E | lia | lia].
    + destruct (Js.index_of p s) as [j|] eqn:J; [|discriminate].
      injection H as <-. destruct (IH j eq_refl) as [H1 [H2 H3]].
      repeat split; [exact H1 | simpl; lia |].
      intros [|k] Hk; [exact E|]. apply H3. lia.
Qed.

Lemma index_of_leftmost (p s : str) (i : nat) :
  Js.starts_with p (skipn i s) = true -> i <= length s ->
  (forall k, k < i -> Js.starts_with p (skipn k s) = false) ->
  Js.index_of p s = Some i.
Proof.
  revert i; induction s as [|c s IH]; intros i H Hi Hk.
  - simpl in Hi. assert (i = 0) by lia. subst. simpl in *. now rewrite H.
  - destruct i as [|i].
    + simpl in *. now rewrite H.
    + pose proof (Hk 0 (Nat.lt_0_succ i)) as H0. simpl in H0.
      simpl. rewrite H0.
      rewrite (IH i); [reflexivity | exact H | simpl in Hi; lia |].
      intros k Hlt. apply (Hk (S k)). lia.
Qed.

Lemma index_of_absent (p s : str) :
  Js.index_of p s = None -> forall k, Js.starts_with p (skipn k s) = false.
Proof.
  induction s as [|c s IH]; intros H k.
  - simpl in H. destruct (Js.starts_with p []) eqn:E; [discriminate|].
    now destruct k.
  - simpl in H. destruct (Js.starts_with p (c :: s)) eqn:E; [discriminate|].
    destruct (Js.index_of p s); [discriminate|].
    destruct k; [exact E | now apply IH].
Qed.

Lemma index_of_split (p s : str) (i : nat) :
  Js.index_of p s = Some i ->
  s = firstn i s ++ p ++ skipn (i + length p) s /\ length (firstn i s) = i.
Proof.
  intros H. destruct (index_of_found p s i H) as [H1 [H2 _]].
  split; [|now apply firstn_length_le].
  rewrite <- (firstn_skipn i s) at 1. f_equal.
  rewrite (starts_with_inv p _ H1) at 1. f_equal.
  rewrite skipn_skipn. f_equal. lia.
Qed.

(** The first occurrence of a pattern that cannot overlap itself, in a
    text that ends with an occurrence. *)
Lemma index_of_terminator (m x y : str) :
  never_matches_in m (tl m) = true ->
  Js.index_of m x = None ->
  Js.index_of m (x ++ m ++ y) = Some (length x).
Proof.
  intros Hm Hx. apply index_of_leftmost.
  - rewrite skipn_length_app. apply starts_with_app.
  - rewrite length_app. lia.
  - intros k Hk. rewrite skipn_app.
    replace (k - length x) with 0 by lia. simpl skipn.
    rewrite starts_with_before_cons; [now apply index_of_absent | | exact Hm].
    intros E. apply (f_equal (@length _)) in E. rewrite length_skipn in E.
    simpl in E. lia.
Qed.

(** The first occurrence of a pattern does not depend on the text after
    it. *)
Lemma index_of_prefix (p pre x y : str) :
  Js.index_of p (pre ++ p ++ x) = Some (length pre) ->
  Js.index_of p (pre ++ p ++ y) = Some (length pre).
Proof.
  intros H. destruct (index_of_found _ _ _ H) as [_ [_ Hk]].
  apply index_of_leftmost.
  - rewrite skipn_length_app. apply starts_with_app.
  - rewrite length_app. lia.
  - intros k Hlt. specialize (Hk k Hlt).
    rewrite skipn_app in *. replace (k - length pre) with 0 in * by lia.
    simpl skipn in *. rewrite app_assoc in *.
    rewrite starts_with_long in *; try (rewrite length_app; lia).
    exact Hk.
Qed.

Lemma includes_app_r (p a b : str) :
  Js.includes p b = true -> Js.includes p (a ++ b) = true.
Proof.
  unfold Js.includes. intros H. induction a as [|c a IH]; [exact H|].
  simpl. destruct (Js.starts_with p (c :: a ++ b)); [reflexivity|].
  destruct (Js.index_of p (a ++ b)); [reflexivity | discriminate].
Qed.

End SearchFacts.

(** ** The condition composer *)

Section ComposerFacts.
Import Composer.

Lemma in_combine_seq {A : Type} (l : list A) (start i : nat) (a : A) :
  In (i, a) (combine (seq start (length l)) l) <->
  start <= i /\ nth_error l (i - start) = Some a.
Proof.
  revert start; induction l as [|x l IH]; intros start; simpl.
  - split; [tauto|]. intros [_ H]. now destruct (i - start).
  - rewrite IH. split.
    + intros [H | [Hle Hn]].
      * inversion H; subst. split; [lia|]. now rewrite Nat.sub_diag.
      * split; [lia|]. replace (i - start) with (S (i - S start)) by lia.
        exact Hn.
    + intros [Hle Hn]. destruct (Nat.eq_dec i start) as [->|Hne].
      * left. rewrite Nat.sub_diag in Hn. simpl in Hn. congruence.
      * right. split; [lia|].
        replace (i - start) with (S (i - S start)) in Hn by lia. exact Hn.
Qed.

(** The active alerts are the alerts of the reply whose expiry lies
    strictly after the clock reading of their own test. *)
Lemma activeAlerts_spec (now : nat -> Z) (alerts : list alert) (i : nat)
    (a : alert) :
  In (i, a) (activeAlerts now alerts) <->
  nth_error alerts i = Some a /\
  exists e, expires a = Some e /\ (now i < e)%Z.
Proof.
  unfold activeAlerts. rewrite filter_In, in_combine_seq. simpl.
  rewrite Nat.sub_0_r. unfold unexpired, Js.gt.
  split.
  - intros [[_ Hn] Hu]. split; [exact Hn|].
    destruct (expires a) as [e|]; [|discriminate].
    exists e. split; [reflexivity|]. now apply Z.ltb_lt.
  - intros [Hn [e [He Hlt]]]. split; [split; [lia | exact Hn]|].
    rewrite He. now apply Z.ltb_lt.
Qed.

Lemma group_subset (now : nat -> Z) (alerts : list alert) (ia : nat * alert) :
  In ia (warnings now alerts) \/ In ia (watches now alerts)
  \/ In ia (advisories now alerts) ->
  In ia (activeAlerts now alerts).
Proof.
  unfold warnings, watches, advisories.
  intros [H | [H | H]]; apply filter_In in H; tauto.
Qed.

(** An alert that is active and satisfies the rule of a group is in it, so
    the groups are not empty by construction. *)
Lemma active_warning_kept (now : nat -> Z) (alerts : list alert) (i : nat)
    (a : alert) (e : Z) :
  nth_error alerts i = Some a -> expires a = Some e -> (now i < e)%Z ->
  is_warning a = true -> In (i, a) (warnings now alerts).
Proof.
  intros Hn He Hlt Hw. unfold warnings. apply filter_In. split; [|exact Hw].
  apply activeAlerts_spec. eauto.
Qed.


Lemma opening_nonempty (state : str) (hot : bool) :
  (if hot then hot_opening else cold_opening state) <> [].
Proof. destruct hot; discriminate. Qed.

Lemma seasonal_is_not_default (c state : str) (hot : bool) :
  c ++ getSeasonalConditions state hot <> no_hazards state.
Proof.
  intros E. apply (f_equal (fun l => hd "x"%char (rev l))) in E.
  unfold no_hazards in E. rewrite !rev_app_distr in E.
  destruct hot; vm_compute in E; discriminate.
Qed.

(** The default of [processAlerts] is never taken: the result ends with
    the seasonal sentence, whose last character is a space, and the default
    ends with a full stop. *)
Lemma no_hazards_default_is_dead (now : nat -> Z) (state : str)
    (alerts : list alert) (hot : bool) :
  exists condition : str,
    processAlerts now state alerts hot
    = condition ++ getSeasonalConditions state hot /\
    processAlerts now state alerts hot <> no_hazards state.
Proof.
  unfold processAlerts.
  match goal with
  | |- context [Js.or_else (?c ++ ?t) _] =>
      exists c; assert (H : Js.truthy (c ++ t) = true)
  end.
  { apply truthy_nonempty. intros E. apply app_eq_nil in E as [_ E].
    destruct hot; discriminate. }
  unfold Js.or_else. rewrite H. split; [reflexivity|].
  apply seasonal_is_not_default.
Qed.

End ComposerFacts.

(** C2.  With zero active alerts and outside the hot season,
    [processAlerts] does not return the no-significant-hazards sentence:
    for Florida and an empty alert list it returns the seasonal sentence. *)
Lemma no_alerts_cold_is_not_no_hazards :
  Composer.activeAlerts (fun _ => 0%Z) [] = [] /\
  Composer.processAlerts (fun _ => 0%Z) "Florida" [] false
  <> Composer.no_hazards "Florida".
Proof. split; [reflexivity | discriminate]. Qed.

(** C2, amended.  For every jurisdiction, [processAlerts] with zero active
    alerts and [isHotSeason = false] returns exactly the fixed seasonal
    sentence, which does not name the jurisdiction. *)
Theorem no_alerts_cold_is_seasonal_sentence (now : nat -> Z) (state : str)
    (alerts : list Composer.alert) :
  Composer.activeAlerts now alerts = [] ->
  Composer.processAlerts now state alerts false =
  "Typical seasonal weather patterns expected. Monitor for changing conditions. ".
Proof.
  intros H. unfold Composer.processAlerts. rewrite H. reflexivity.
Qed.

Lemma no_alerts_cold_is_seasonal_sentence_witness :
  Composer.processAlerts (fun _ => 100%Z) "Georgia"
    [ {| Composer.event := "Flood Watch"; Composer.severity := "Moderate";
         Composer.expires := Some 100%Z |} ] false =
  "Typical seasonal weather patterns expected. Monitor for changing conditions. ".
Proof.
  apply (no_alerts_cold_is_seasonal_sentence (fun _ => 100%Z) "Georgia").
  reflexivity.
Defined.

(** C7.  An alert whose expiry is at or before the clock reading of its
    test (or is not a date) is in none of the three groups; the alert at
    index [i] is the pair of [i] and its record. *)
Theorem expired_alert_in_no_group (now : nat -> Z)
    (alerts : list Composer.alert) (i : nat) (a : Composer.alert) :
  nth_error alerts i = Some a ->
  (forall e, Composer.expires a = Some e -> (e <= now i)%Z) ->
  ~ In (i, a) (Composer.warnings now alerts) /\
  ~ In (i, a) (Composer.watches now alerts) /\
  ~ In (i, a) (Composer.advisories now alerts).
Proof.
  intros _ Hexp.
  assert (Hna : ~ In (i, a) (Composer.activeAlerts now alerts)).
  { intros Hin. apply activeAlerts_spec in Hin as [_ [e [He Hlt]]].
    specialize (Hexp e He). lia. }
  repeat split; intros Hin; apply Hna; apply group_subset; tauto.
Qed.

Lemma expired_alert_in_no_group_witness :
  let a := {| Composer.event := "Hurricane Warning";
              Composer.severity := "Extreme";
              Composer.expires := Some 1000%Z |} in
  ~ In (0, a) (Composer.warnings (fun _ => 1000%Z) [a]) /\
  ~ In (0, a) (Composer.watches (fun _ => 1000%Z) [a]) /\
  ~ In (0, a) (Composer.advisories (fun _ => 1000%Z) [a]).
Proof.
  intros a.
  apply (expired_alert_in_no_group (fun _ => 1000%Z) [a] 0 a).
  - reflexivity.
  - intros e He. injection He as <-. lia.
Defined.

(** ** The renderer's state lines *)

Section RendererFacts.
Import Composer Renderer Spec.








End RendererFacts.


(** ** The highlighting transform *)

Section HighlightFacts.
Import Renderer Spec.

Lemma highlight_rules_independent :
  pairwise_independent highlight_rules = true.
Proof. vm_compute. reflexivity. Qed.

Lemma highlight_rules_keep_phrase :
  forallb (keeps_count phrase) highlight_rules = true.
Proof. vm_compute. reflexivity. Qed.

Lemma phrase_is_cut_off :
  splits_at highlight_rules phrase = true /\
  splits_at highlight_rules ("WARNINGS" ++ phrase) = true /\
  splits_at highlight_rules (phrase ++ "WARNINGS") = true.
Proof. vm_compute. repeat split; reflexivity. Qed.

End HighlightFacts.

(** C8.  The highlighting transform wraps an occurrence of the phrase in
    place and leaves the text around it to be highlighted on its own; a
    text with exactly one occurrence of the phrase gives a text with
    exactly one occurrence of the phrase and exactly one of its emphasised
    form; this also holds next to WARNINGS, on either side; and the six
    replacements give the same text in every order. *)
Theorem highlight_wraps_phrase_once :
  (forall pre post : str,
     Renderer.highlight (pre ++ Spec.phrase ++ post)
     = Renderer.highlight pre ++ Spec.emphasised ++ Renderer.highlight post) /\
  (forall s : str,
     Js.count_occ Spec.phrase s = 1 ->
     Js.count_occ Spec.phrase (Renderer.highlight s) = 1 /\
     Js.count_occ Spec.emphasised (Renderer.highlight s) = 1) /\
  (forall pre post : str,
     Renderer.highlight (pre ++ "WARNINGS" ++ Spec.phrase ++ post)
     = Renderer.highlight pre ++ Spec.warnings_span ++ Spec.emphasised
       ++ Renderer.highlight post) /\
  (forall pre post : str,
     Renderer.highlight (pre ++ Spec.phrase ++ "WARNINGS" ++ post)
     = Renderer.highlight pre ++ Spec.emphasised ++ Spec.warnings_span
       ++ Renderer.highlight post) /\
  (forall rules : list (str * str),
     Permutation rules Renderer.highlight_rules ->
     forall s : str, Renderer.apply_rules rules s = Renderer.highlight s).
Proof.
  destruct phrase_is_cut_off as [H1 [H2 H3]].
  assert (Hwrap : forall pre post : str,
            Renderer.highlight (pre ++ Spec.phrase ++ post)
            = Renderer.highlight pre ++ Spec.emphasised
              ++ Renderer.highlight post).
  { intros pre post. unfold Renderer.highlight.
    rewrite (apply_rules_split _ _ H1). reflexivity. }
  split; [exact Hwrap|]. split; [|split; [|split]].
  - intros s Hs.
    assert (Hc : Js.count_occ Spec.phrase (Renderer.highlight s) = 1).
    { unfold Renderer.highlight.
      now rewrite (count_apply_rules _ _ highlight_rules_keep_phrase). }
    split; [exact Hc|].
    apply Nat.le_antisymm.
    + rewrite <- Hc.
      apply (count_inside "<strong>" Spec.phrase "</strong>").
    + destruct (count_pos_split Spec.phrase s) as [pre [post ->]]; [lia|].
      rewrite Hwrap. apply count_occurs.
  - intros pre post. unfold Renderer.highlight.
    replace (pre ++ "WARNINGS" ++ Spec.phrase ++ post)
      with (pre ++ ("WARNINGS" ++ Spec.phrase) ++ post)
      by now rewrite <- app_assoc.
    rewrite (apply_rules_split _ _ H2).
    change (Renderer.apply_rules Renderer.highlight_rules
              ("WARNINGS" ++ Spec.phrase))
      with (Spec.warnings_span ++ Spec.emphasised).
    now rewrite <- app_assoc.
  - intros pre post. unfold Renderer.highlight.
    replace (pre ++ Spec.phrase ++ "WARNINGS" ++ post)
      with (pre ++ (Spec.phrase ++ "WARNINGS") ++ post)
      by now rewrite <- app_assoc.
    rewrite (apply_rules_split _ _ H3).
    change (Renderer.apply_rules Renderer.highlight_rules
              (Spec.phrase ++ "WARNINGS"))
      with (Spec.emphasised ++ Spec.warnings_span).
    now rewrite <- app_assoc.
  - intros rules Hperm s. unfold Renderer.highlight.
    apply (apply_rules_permutation Renderer.highlight_rules);
      [exact highlight_rules_independent | exact Hperm |].
    intros z Hz. exact (Permutation_in z Hperm Hz).
Qed.

Lemma highlight_wraps_phrase_once_witness :
  let s : str :=
    "Active Severe Thunderstorm Warning WARNINGS in effect. Storms with frequent lightning." in
  Js.count_occ Spec.emphasised (Renderer.highlight s) = 1 /\
  Renderer.apply_rules (rev Renderer.highlight_rules) s = Renderer.highlight s.
Proof.
  intros s.
  destruct highlight_wraps_phrase_once as [_ [Honce [_ [_ Horder]]]].
  split.
  - apply (Honce s). vm_compute. reflexivity.
  - apply (Horder (rev Renderer.highlight_rules)).
    apply Permutation_sym, Permutation_rev.
Defined.

(** ** The resolver *)

Section ResolverFacts.
Import Effects Spec.

Lemma maximum_nonneg (l : list Z) : (0 <= maximum l)%Z.
Proof. induction l as [|x l IH]; simpl; lia. Qed.

Lemma maximum_app (a b : list Z) :
  maximum (a ++ b) = Z.max (maximum a) (maximum b).
Proof.
  induction a as [|x a IH]; simpl.
  - pose proof (maximum_nonneg b). lia.
  - rewrite IH. lia.
Qed.

Lemma raise_to_stated (m : Z) (f : field) (c : option Z) :
  chance_of f = Normal c -> (0 <= m)%Z ->
  raise_to m c = Z.max m (maximum (stated f)).
Proof.
  intros Hc Hm. unfold stated. rewrite Hc.
  destruct c as [c|]; simpl; lia.
Qed.

Lemma chance_of_text (f : field) :
  is_text f = true -> exists c, chance_of f = Normal c.
Proof.
  destruct f as [|s|shown]; simpl; intros H; try discriminate; eauto.
  destruct (Js.truthy s); eauto.
Qed.

(** The loop of update-weather.js over readable areas ends normally, with
    the two maxima kept apart. *)
Lemma main_loop_maxima (areas : list (option area)) :
  readable areas = true ->
  forall st, (0 <= UpdateWeather.maxChance2Day st)%Z ->
             (0 <= UpdateWeather.maxChance7Day st)%Z ->
  exists st',
    forEach UpdateWeather.area_body areas st = Normal st' /\
    UpdateWeather.maxChance2Day st' =
      Z.max (UpdateWeather.maxChance2Day st)
            (maximum (chances chance2day areas)) /\
    UpdateWeather.maxChance7Day st' =
      Z.max (UpdateWeather.maxChance7Day st)
            (maximum (chances chance7day areas)).
Proof.
  induction areas as [|e areas IH]; intros Hr st H2 H7.
  - exists st. simpl. repeat split; lia.
  - simpl in Hr. apply andb_true_iff in Hr as [He Hr].
    destruct e as [a|]; [|discriminate].
    apply andb_true_iff in He as [Ht2 Ht7].
    destruct (chance_of_text _ Ht2) as [c2 Hc2].
    destruct (chance_of_text _ Ht7) as [c7 Hc7].
    simpl. rewrite Hc2, Hc7. simpl.
    match goal with
    | |- context [forEach _ _ ?s] =>
        destruct (IH Hr s) as [st' [Hrun [Hm2 Hm7]]]
    end.
    + simpl. destruct c2; simpl; lia.
    + simpl. destruct c7; simpl; lia.
    + exists st'. split; [exact Hrun|].
      simpl in Hm2, Hm7. rewrite Hm2, Hm7.
      rewrite (raise_to_stated _ _ _ Hc2 H2), (raise_to_stated _ _ _ Hc7 H7).
      rewrite !maximum_app. split; lia.
Qed.

(** The loop of part_000 keeps one maximum for both fields. *)
Lemma part000_loop_maximum (areas : list (option area)) :
  readable areas = true ->
  forall st, (0 <= Part000.maxChance st)%Z ->
  exists st',
    forEach Part000.area_body areas st = Normal st' /\
    Part000.maxChance st' =
      Z.max (Part000.maxChance st)
            (Z.max (maximum (chances chance7day areas))
                   (maximum (chances chance2day areas))).
Proof.
  induction areas as [|e areas IH]; intros Hr st Hm.
  - exists st. simpl. split; [reflexivity | lia].
  - simpl in Hr. apply andb_true_iff in Hr as [He Hr].
    destruct e as [a|]; [|discriminate].
    apply andb_true_iff in He as [Ht2 Ht7].
    destruct (chance_of_text _ Ht2) as [c2 Hc2].
    destruct (chance_of_text _ Ht7) as [c7 Hc7].
    simpl. rewrite Hc2, Hc7. simpl.
    match goal with
    | |- context [forEach _ _ ?s] => destruct (IH Hr s) as [st' [Hrun Hmax]]
    end.
    + simpl. destruct c7, c2; simpl; lia.
    + exists st'. split; [exact Hrun|].
      simpl in Hmax. rewrite Hmax.
      assert (H7 : (0 <= raise_to (Part000.maxChance st) c7)%Z)
        by (destruct c7; simpl; lia).
      rewrite (raise_to_stated _ _ _ Hc2 H7), (raise_to_stated _ _ _ Hc7 Hm).
      rewrite !maximum_app. lia.
Qed.

Lemma sequence_all_fall {R : Type} (blocks : list (block R)) (final : R) :
  Forall (fun b => b = Falls) blocks -> sequence blocks final = Normal final.
Proof.
  induction 1 as [|b blocks Hb _ IH]; simpl; [reflexivity|].
  now rewrite Hb.
Qed.

Lemma try_return_normal {R : Type} (c : completion R) (r : R) :
  exists v, try_return c r = Normal v.
Proof. destruct c; simpl; eauto. Qed.

Lemma refused_falls {A R : Type} (f : fetched A) (k : A -> block R) :
  refused f -> try_log (when_ok f k) = Falls.
Proof. intros [-> | [body ->]]; reflexivity. Qed.

(** When every request fails, every source block falls through. *)
Lemma refused_requests_fail (h : regexp_host) (s : Pipeline.script) :
  match s with
  | Pipeline.UpdateWeatherJs w =>
      refused (UpdateWeather.gtwo w) /\ refused (UpdateWeather.rss w)
      /\ refused (UpdateWeather.storms w)
  | Pipeline.Part000Js w =>
      refused (Part000.gtwo w) /\ refused (Part000.page w)
      /\ refused (Part000.rss w) /\ refused (Part000.storms w)
  | Pipeline.Part001Js w =>
      refused (Part001.two w) /\ refused (Part001.alerts w)
      /\ refused (Part001.afd w) /\ refused (Part001.high_seas w)
  end -> all_sources_fail h s.
Proof.
  destruct s as [w|w|w]; simpl; intros H; decompose [and] H;
    repeat constructor;
    try (apply refused_falls; assumption).
  all: unfold Part001.outlook_product, Part001.forecast_discussion,
         Part001.high_seas_forecast, Part001.latest_product;
       apply refused_falls; assumption.
Qed.

(** The resolver of update-weather.js and of part_000 always returns an
    outlook record, and that of part_001 never throws. *)
Lemma resolver_never_throws (h : regexp_host) (s : Pipeline.script) :
  exists v, Pipeline.getTropicalOutlook h s = Normal v /\
            match s with
            | Pipeline.Part001Js _ => True
            | _ => v <> None
            end.
Proof.
  destruct s as [w|w|w]; simpl.
  - unfold UpdateWeather.getTropicalOutlook.
    destruct (try_return_normal
                (sequence (UpdateWeather.sources h w)
                          (UpdateWeather.seasonal (UpdateWeather.month w)))
                UpdateWeather.unavailable) as [v ->].
    simpl. eexists; split; [reflexivity | discriminate].
  - unfold Part000.getTropicalOutlook.
    destruct (try_return_normal
                (sequence (Part000.sources h w)
                          (Part000.seasonal (Part000.month w)))
                Part000.unavailable) as [v ->].
    simpl. eexists; split; [reflexivity | discriminate].
  - unfold Part001.getTropicalOutlook.
    destruct (try_return_normal
                (sequence (Part001.sources h w)
                          (Some (Part001.seasonal (Part001.month w))))
                (Some Part001.unavailable)) as [v ->].
    eauto.
Qed.

Lemma terminal_fallback_by_month_general (h : regexp_host)
    (s : Pipeline.script) :
  all_sources_fail h s ->
  Pipeline.getTropicalOutlook h s
  = Normal (Some (seasonal_of s (month_of s))).
Proof.
  intros Hfail. destruct s as [w|w|w]; simpl in *.
  - unfold UpdateWeather.getTropicalOutlook.
    now rewrite (sequence_all_fall _ _ Hfail).
  - unfold Part000.getTropicalOutlook.
    now rewrite (sequence_all_fall _ _ Hfail).
  - unfold Part001.getTropicalOutlook.
    now rewrite (sequence_all_fall _ _ Hfail).
Qed.

(** In part_000 a structured reply whose probabilities are all zero is
    passed over, and a later source decides the formation chance. *)
Lemma part000_passes_over_zero :
  exists o,
    Part000.getTropicalOutlook quiet_host
      {| Part000.gtwo :=
           Response true
             (Normal (Areas [ Some {| chance2day := Text "0%";
                                      chance7day := Text "0%";
                                      text := Text "Quiet." |} ]));
         Part000.page := Rejected ErrorObject;
         Part000.rss := Rejected ErrorObject;
         Part000.storms :=
           Response true (Normal (Storms [ Some (Text "Alberto") ]));
         Part000.month := 6 |}
    = Normal o /\
    Renderer.formation_chance o = "Active Systems".
Proof. eexists. split; reflexivity. Qed.

End ResolverFacts.

(** C1.  On the areas of the specification's example, update-weather.js
    answers 40%, although the largest probability over both fields is 70:
    the formation chance is not the maximum across all fields. *)
Lemma example_areas_give_40 :
  Spec.maximum (Spec.chances Effects.chance7day Examples.two_areas
                ++ Spec.chances Effects.chance2day Examples.two_areas)
  = 70%Z /\
  exists o,
    UpdateWeather.getTropicalOutlook quiet_host
      (Examples.main_world
         (Effects.Response true
            (Effects.Normal (Effects.Areas Examples.two_areas))) 6)
    = Effects.Normal o /\
    Renderer.formation_chance o = "40%" /\
    Renderer.formation_chance o <> "70%".
Proof.
  split; [reflexivity|].
  eexists. split; [reflexivity|]. split; [reflexivity | discriminate].
Qed.

(** C1, amended.  For a structured reply whose non-empty list of areas is
    readable and states probabilities that are exact integers:
    update-weather.js gives the largest 7-day probability when it is
    positive, else the largest 2-day probability when it is positive, else
    0%; part_000 gives the largest probability over both fields whenever
    it is positive. *)
Theorem structured_formation_chance (h : Effects.regexp_host)
    (areas : list (option Effects.area)) :
  areas <> [] ->
  Spec.readable areas = true ->
  Forall Spec.exact (Spec.chances Effects.chance7day areas
                     ++ Spec.chances Effects.chance2day areas) ->
  let max7 := Spec.maximum (Spec.chances Effects.chance7day areas) in
  let max2 := Spec.maximum (Spec.chances Effects.chance2day areas) in
  (forall w,
     UpdateWeather.gtwo w
     = Effects.Response true (Effects.Normal (Effects.Areas areas)) ->
     exists o,
       UpdateWeather.getTropicalOutlook h w = Effects.Normal o /\
       Renderer.formation_chance o =
         if (0 <? max7)%Z then Js.of_Z max7 ++ "%"
         else if (0 <? max2)%Z then Js.of_Z max2 ++ "%"
         else "0%") /\
  (forall w,
     Part000.gtwo w
     = Effects.Response true (Effects.Normal (Effects.Areas areas)) ->
     (0 < Z.max max7 max2)%Z ->
     exists o,
       Part000.getTropicalOutlook h w = Effects.Normal o /\
       Renderer.formation_chance o = Js.of_Z (Z.max max7 max2) ++ "%").
Proof.
  intros Hne Hr _ max7 max2.
  assert (H7 : (0 <= max7)%Z) by apply maximum_nonneg.
  assert (H2 : (0 <= max2)%Z) by apply maximum_nonneg.
  split.
  - intros w Hg.
    destruct (main_loop_maxima areas Hr
                {| UpdateWeather.maxChance2Day := 0;
                   UpdateWeather.maxChance7Day := 0;
                   UpdateWeather.outlookText := "" |})
      as [st [Hrun [Hm2 Hm7]]]; simpl; try lia.
    simpl in Hm2, Hm7. fold max2 in Hm2. fold max7 in Hm7.
    unfold UpdateWeather.getTropicalOutlook, UpdateWeather.sources,
      UpdateWeather.structured_outlook.
    rewrite Hg. destruct areas as [|e rest]; [congruence|].
    cbn [Effects.when_ok]. rewrite Hrun.
    cbn [Effects.try_log Effects.sequence Effects.try_return].
    eexists. split; [reflexivity|].
    cbn [Renderer.formation_chance]. unfold UpdateWeather.formationChance.
    rewrite Hm2, Hm7.
    replace (Z.max 0 max7) with max7 by lia.
    replace (Z.max 0 max2) with max2 by lia.
    reflexivity.
  - intros w Hg Hpos.
    destruct (part000_loop_maximum areas Hr
                {| Part000.maxChance := 0; Part000.outlookText := "";
                   Part000.disturbanceCount := 0 |})
      as [st [Hrun Hm]]; simpl; try lia.
    simpl in Hm. fold max2 in Hm. fold max7 in Hm.
    unfold Part000.getTropicalOutlook, Part000.sources,
      Part000.structured_outlook.
    rewrite Hg. destruct areas as [|e rest]; [congruence|].
    cbn [Effects.when_ok]. rewrite Hrun.
    replace (Z.max 0 (Z.max max7 max2)) with (Z.max max7 max2) in Hm by lia.
    rewrite Hm.
    assert (Hb : (0 <? Z.max max7 max2)%Z = true) by now apply Z.ltb_lt.
    rewrite Hb.
    cbn [Effects.try_log Effects.sequence Effects.try_return].
    eexists. split; reflexivity.
Qed.

Lemma structured_formation_chance_witness :
  (exists o,
     UpdateWeather.getTropicalOutlook quiet_host
       (Examples.main_world
          (Effects.Response true
             (Effects.Normal (Effects.Areas Examples.two_areas))) 6)
     = Effects.Normal o /\
     Renderer.formation_chance o = "40%") /\
  (exists o,
     Part000.getTropicalOutlook quiet_host
       (Examples.part000_world
          (Effects.Response true
             (Effects.Normal (Effects.Areas Examples.two_areas))) 6)
     = Effects.Normal o /\
     Renderer.formation_chance o = "70%").
Proof.
  assert (Hne : Examples.two_areas <> []) by discriminate.
  assert (Hr : Spec.readable Examples.two_areas = true) by reflexivity.
  assert (Hx : Forall Spec.exact
                 (Spec.chances Effects.chance7day Examples.two_areas
                  ++ Spec.chances Effects.chance2day Examples.two_areas)).
  { repeat constructor; unfold Spec.exact; simpl; lia. }
  destruct (structured_formation_chance quiet_host Examples.two_areas
              Hne Hr Hx) as [Hmain Hpart].
  split.
  - apply (Hmain (Examples.main_world _ 6)). reflexivity.
  - apply (Hpart (Examples.part000_world _ 6)); [reflexivity|].
    vm_compute. reflexivity.
Defined.

(** C5.  In part_001 the resolver returns [null] when the tropical-alert
    query answers with alerts that have all expired: Method 2 returns the
    helper's [null] where Methods 3 and 4 test it first. *)
Theorem part001_returns_null (h : Effects.regexp_host) :
  Part001.getTropicalOutlook h Examples.expired_alert_world
  = Effects.Normal None.
Proof. reflexivity. Qed.

(** C6.  When every source fails, the resolver returns the value that the
    month selects: in July a token from which no number can be read and
    which is not 0%, in January exactly 0%. *)
Theorem terminal_fallback_by_month (h : Effects.regexp_host)
    (s : Pipeline.script) :
  Spec.all_sources_fail h s ->
  Pipeline.getTropicalOutlook h s
  = Effects.Normal (Some (Spec.seasonal_of s (Spec.month_of s))) /\
  (Spec.month_of s = 6 ->
   let token :=
     Renderer.formation_chance (Spec.seasonal_of s (Spec.month_of s)) in
   Spec.numeric token = false /\ token <> "0%" /\
   In token [ "Check NHC" : str; "Visit NHC" : str; "Monitor NWS" : str ]) /\
  (Spec.month_of s = 0 ->
   Renderer.formation_chance (Spec.seasonal_of s (Spec.month_of s)) = "0%").
Proof.
  intros Hfail. split; [|split].
  - now apply terminal_fallback_by_month_general.
  - intros ->. destruct s; simpl;
      (split; [reflexivity | split; [discriminate | tauto]]).
  - intros ->. destruct s; reflexivity.
Qed.

Lemma terminal_fallback_by_month_witness :
  let s :=
    Pipeline.UpdateWeatherJs
      (Examples.main_world (Effects.Rejected Effects.ErrorObject) 6) in
  Pipeline.getTropicalOutlook quiet_host s
  = Effects.Normal (Some (UpdateWeather.seasonal 6)) /\
  Renderer.formation_chance (UpdateWeather.seasonal 6) = "Check NHC".
Proof.
  intros s.
  assert (Hfail : Spec.all_sources_fail quiet_host s).
  { apply refused_requests_fail. simpl. repeat split; left; reflexivity. }
  destruct (terminal_fallback_by_month quiet_host s Hfail) as [H _].
  split; [exact H | reflexivity].
Defined.



(** ** The publisher *)

Section PublisherFacts.
Import Publisher.

Lemma no_marker_no_match (page : str) :
  Js.includes OPEN page = false -> match_placeholder page = None.
Proof.
  unfold Js.includes, match_placeholder.
  destruct (Js.index_of OPEN page); [discriminate | reflexivity].
Qed.

End PublisherFacts.

(** C4.  A page without the placeholder marker: the run of part_000
    completes and writes the page back unchanged; no failure is
    reported. *)
Lemma missing_marker_is_not_reported :
  let page : str := "<html><body><p>Loading...</p></body></html>" in
  Js.includes Publisher.OPEN page = false /\
  Pipeline.updateHtmlFile quiet_host (Examples.offline_run 6 (Some page))
    (Pipeline.Part000Js
       (Examples.part000_world (Effects.Rejected Effects.ErrorObject) 6))
  = Publisher.Written page /\
  Pipeline.updateHtmlFile quiet_host (Examples.offline_run 6 (Some page))
    (Pipeline.Part000Js
       (Examples.part000_world (Effects.Rejected Effects.ErrorObject) 6))
  <> Publisher.Exit 1.
Proof.
  intros page. split; [reflexivity|].
  assert (H : Pipeline.updateHtmlFile quiet_host
                (Examples.offline_run 6 (Some page))
                (Pipeline.Part000Js
                   (Examples.part000_world
                      (Effects.Rejected Effects.ErrorObject) 6))
              = Publisher.Written page) by (vm_compute; reflexivity).
  split; [exact H | rewrite H; discriminate].
Qed.

(** C4, amended.  For every page in which the placeholder marker is
    absent, a run that can read and write the page completes without
    reporting a failure: part_000 and part_001 write the page back
    unchanged, update-weather.js writes it back with its first
    [Loading...] turned into the timestamp. *)
Theorem missing_marker_leaves_page (h : Effects.regexp_host)
    (r : Pipeline.run) (s : Pipeline.script) (page : str) :
  Pipeline.index_html r = Some page ->
  Pipeline.writable r = true ->
  Js.includes Publisher.OPEN page = false ->
  Pipeline.updateHtmlFile h r s =
  Publisher.Written
    match s with
    | Pipeline.UpdateWeatherJs _ =>
        Publisher.replace_loading page (Pipeline.updateTime r)
    | _ => page
    end.
Proof.
  intros Hpage Hw Hno.
  unfold Pipeline.updateHtmlFile.
  destruct (resolver_never_throws h s) as [v [-> _]].
  cbn [Pipeline.fetchWeatherConditions]. unfold Publisher.publish.
  rewrite Hpage, Hw. f_equal.
  unfold Pipeline.edit, Publisher.replace_placeholder.
  rewrite (no_marker_no_match page Hno).
  destruct s; reflexivity.
Qed.

Lemma missing_marker_leaves_page_witness :
  let page : str := "<html><body><p>Loading...</p></body></html>" in
  Pipeline.updateHtmlFile quiet_host (Examples.offline_run 6 (Some page))
    (Pipeline.UpdateWeatherJs
       (Examples.main_world (Effects.Rejected Effects.ErrorObject) 6))
  = Publisher.Written
      "<html><body><p>Last Updated: 6/1/2026, 9:00:00 AM</p></body></html>".
Proof.
  intros page.
  apply (missing_marker_leaves_page quiet_host
           (Examples.offline_run 6 (Some page))
           (Pipeline.UpdateWeatherJs
              (Examples.main_world (Effects.Rejected Effects.ErrorObject) 6))
           page); reflexivity.
Defined.

(** ** The placeholder of the page *)

Section PlaceholderFacts.
Import Publisher Spec.

Lemma get_substitution_plain (matched before after s : str) :
  has_dollar_pattern s = false ->
  get_substitution matched before after s = s.
Proof.
  induction s as [|c t IH]; [reflexivity|]. intros H.
  simpl in H. apply orb_false_iff in H as [H1 H2].
  simpl. rewrite (IH H2).
  destruct (Ascii.eqb c "$"); simpl; [|reflexivity].
  destruct t as [|d t']; [reflexivity|].
  simpl in H1. unfold special in H1.
  repeat (apply orb_false_iff in H1 as [H1 ?]).
  now repeat match goal with E : Ascii.eqb d _ = false |- _ => rewrite E; clear E end.
Qed.

Lemma has_dollar_pattern_app (a b : str) :
  has_dollar_pattern a = false -> has_dollar_pattern b = false ->
  match b with d :: _ => special d = false | [] => True end ->
  has_dollar_pattern (a ++ b) = false.
Proof.
  intros Ha Hb Hd. induction a as [|c a IH]; [exact Hb|].
  simpl in Ha. apply orb_false_iff in Ha as [H1 H2].
  simpl. rewrite (IH H2), orb_false_r.
  destruct (Ascii.eqb c "$"); [|reflexivity]. simpl in *.
  destruct a as [|d a]; simpl; [|exact H1].
  destruct b; [reflexivity | exact Hd].
Qed.

Lemma has_dollar_pattern_after (a b : str) :
  existsb (fun c => Ascii.eqb c "$") a = false ->
  has_dollar_pattern (a ++ b) = has_dollar_pattern b.
Proof.
  induction a as [|c a IH]; [reflexivity|].
  cbn [existsb app has_dollar_pattern]. intros H.
  apply orb_false_iff in H as [H1 H2].
  rewrite H1. simpl. now apply IH.
Qed.

Lemma replacement_is_plain (matched before after frag : str) :
  has_dollar_pattern frag = false ->
  get_substitution matched before after (OPEN ++ frag ++ CLOSE)
  = OPEN ++ frag ++ CLOSE.
Proof.
  intros H. apply get_substitution_plain.
  rewrite has_dollar_pattern_after by reflexivity.
  apply has_dollar_pattern_app; [exact H | reflexivity | reflexivity].
Qed.

Lemma close_has_no_overlap : never_matches_in CLOSE (tl CLOSE) = true.
Proof. reflexivity. Qed.

(** A page whose placeholder is found splits around its inner content. *)
Lemma match_placeholder_split (page : str) (start stop : nat) :
  match_placeholder page = Some (start, stop) ->
  exists pre inner post,
    page = pre ++ OPEN ++ inner ++ CLOSE ++ post /\
    start = length pre /\
    stop = length pre + length OPEN + length inner + length CLOSE /\
    Js.index_of OPEN page = Some (length pre) /\
    Js.index_of CLOSE inner = None.
Proof.
  unfold match_placeholder. intros H.
  destruct (Js.index_of OPEN page) as [i|] eqn:Hi; [|discriminate].
  destruct (Js.index_of CLOSE (skipn (i + length OPEN) page)) as [j|] eqn:Hj;
    [|discriminate].
  injection H as <- <-.
  destruct (index_of_split _ _ _ Hi) as [Epage Hlen].
  destruct (index_of_split _ _ _ Hj) as [Erest Hlen'].
  exists (firstn i page), (firstn j (skipn (i + length OPEN) page)),
         (skipn (j + length CLOSE) (skipn (i + length OPEN) page)).
  rewrite <- Erest, Hlen, Hlen'. repeat split; try assumption.
  destruct (Js.index_of CLOSE (firstn j (skipn (i + length OPEN) page)))
    as [k|] eqn:Hk; [|reflexivity].
  exfalso.
  destruct (index_of_found _ _ _ Hk) as [Hm [Hle _]].
  destruct (index_of_found _ _ _ Hj) as [_ [_ Hno]].
  rewrite firstn_length_le in Hle by (destruct (index_of_found _ _ _ Hj); lia).
  assert (Hlt : k < j).
  { apply starts_with_inv in Hm.
    apply (f_equal (@length _)) in Hm.
    rewrite length_app, !length_skipn in Hm.
    rewrite firstn_length_le in Hm
      by (destruct (index_of_found _ _ _ Hj); lia).
    simpl in Hm. lia. }
  specialize (Hno k Hlt).
  rewrite Erest in Hno at 1. rewrite skipn_app in Hno.
  rewrite Hlen' in Hno. replace (k - j) with 0 in Hno by lia. simpl skipn in Hno.
  rewrite (starts_with_extend _ _ _ Hm) in Hno. discriminate.
Qed.

Lemma match_placeholder_built (pre inner post : str) :
  Js.index_of OPEN (pre ++ OPEN ++ inner ++ CLOSE ++ post) = Some (length pre) ->
  Js.index_of CLOSE inner = None ->
  match_placeholder (pre ++ OPEN ++ inner ++ CLOSE ++ post)
  = Some (length pre,
          length pre + length OPEN + length inner + length CLOSE).
Proof.
  intros Ho Hc. unfold match_placeholder. rewrite Ho.
  rewrite skipn_length_app2.
  now rewrite (index_of_terminator CLOSE inner post close_has_no_overlap Hc).
Qed.

Lemma placeholder_content_built (pre inner post : str) :
  Js.index_of OPEN (pre ++ OPEN ++ inner ++ CLOSE ++ post) = Some (length pre) ->
  Js.index_of CLOSE inner = None ->
  placeholder_content (pre ++ OPEN ++ inner ++ CLOSE ++ post) = Some inner.
Proof.
  intros Ho Hc. unfold placeholder_content.
  rewrite (match_placeholder_built pre inner post Ho Hc).
  rewrite skipn_length_app2.
  replace (length pre + length OPEN + length inner + length CLOSE
           - length pre - length OPEN - length CLOSE)
    with (length inner) by lia.
  now rewrite firstn_length_app.
Qed.

Lemma replace_placeholder_built (pre inner post frag : str) :
  Js.index_of OPEN (pre ++ OPEN ++ inner ++ CLOSE ++ post) = Some (length pre) ->
  Js.index_of CLOSE inner = None ->
  has_dollar_pattern frag = false ->
  replace_placeholder (pre ++ OPEN ++ inner ++ CLOSE ++ post) frag
  = pre ++ OPEN ++ frag ++ CLOSE ++ post.
Proof.
  intros Ho Hc Hd. unfold replace_placeholder, replace_match.
  rewrite (match_placeholder_built pre inner post Ho Hc).
  rewrite (replacement_is_plain _ _ _ frag Hd).
  rewrite firstn_length_app.
  rewrite <- !app_assoc. do 4 f_equal.
  replace (pre ++ OPEN ++ inner ++ CLOSE ++ post)
    with ((pre ++ OPEN ++ inner ++ CLOSE) ++ post)
    by now rewrite <- !app_assoc.
  replace (length pre + length OPEN + length inner + length CLOSE)
    with (length (pre ++ OPEN ++ inner ++ CLOSE))
    by (rewrite !length_app; lia).
  apply skipn_length_app.
Qed.

(** Every rendered report holds a closing div tag. *)
Lemma rendered_report_has_closing_tag (v : Renderer.wording)
    (checkTime startDate endDate : str) (weatherData : Renderer.weather_data) :
  Js.includes CLOSE
    (Renderer.generateReport v checkTime startDate endDate weatherData)
  = true.
Proof.
  unfold Renderer.generateReport.
  do 2 apply includes_app_r. destruct v; vm_compute; reflexivity.
Qed.

(** A second run over the page of a first run: the container is matched
    up to the first closing tag of the old report only, and the rest of the
    old report stays in the page. *)
Lemma second_run_keeps_old_text :
  let page : str := "<body>" ++ OPEN ++ "Loading...</div></body>" in
  let first : str := "<div>Mon</div><div>calm</div>" in
  let second : str := "<div>Tue</div><div>windy</div>" in
  replace_placeholder (replace_placeholder page first) second
  = "<body>" ++ OPEN ++ second ++ "</div>" ++ "<div>calm</div></div></body>".
Proof. vm_compute. reflexivity. Qed.

End PlaceholderFacts.

(** On a fragment that holds a closing tag of its own, reading the
    container back stops at that tag; and update-weather.js, by its second
    replacement, also rewrites a [Loading...] that stands before the
    container. *)
Lemma round_trip_fails :
  let template : str :=
    "<p>Loading...</p>" ++ Publisher.OPEN ++ "Loading...</div><hr>" in
  Publisher.match_placeholder template <> None /\
  Publisher.placeholder_content
    (Publisher.replace_placeholder template "<div>x</div>")
  = Some ("<div>x" : str) /\
  Publisher.placeholder_content
    (Publisher.replace_placeholder template "<div>x</div>")
  <> Some ("<div>x</div>" : str) /\
  Pipeline.edit (Examples.offline_run 6 (Some template))
    (Pipeline.UpdateWeatherJs
       (Examples.main_world (Effects.Rejected Effects.ErrorObject) 6))
    "x" template
  = "<p>Last Updated: 6/1/2026, 9:00:00 AM</p>" ++ Publisher.OPEN
    ++ "x</div><hr>".
Proof.
  intros template.
  split; [vm_compute; discriminate|].
  split; [vm_compute; reflexivity|].
  split; [vm_compute; discriminate|].
  vm_compute; reflexivity.
Qed.

(** The round trip holds for the fragments that hold no closing div tag
    and no dollar pattern: the replacement puts the fragment in the place
    of the inner content and keeps the text before and after the
    container, and reading the container back gives the fragment.  No
    report that [generateReport] renders is such a fragment
    ([rendered_report_has_closing_tag]). *)
Lemma placeholder_round_trip (template frag : str) :
  Publisher.match_placeholder template <> None ->
  Spec.has_dollar_pattern frag = false ->
  Js.includes Publisher.CLOSE frag = false ->
  exists pre inner post : str,
    template = pre ++ Publisher.OPEN ++ inner ++ Publisher.CLOSE ++ post /\
    Publisher.placeholder_content template = Some inner /\
    Publisher.replace_placeholder template frag
    = pre ++ Publisher.OPEN ++ frag ++ Publisher.CLOSE ++ post /\
    Publisher.placeholder_content
      (Publisher.replace_placeholder template frag) = Some frag /\
    forall (r : Pipeline.run) (s : Pipeline.script),
      Pipeline.edit r s frag template =
      match s with
      | Pipeline.UpdateWeatherJs _ =>
          Publisher.replace_loading
            (pre ++ Publisher.OPEN ++ frag ++ Publisher.CLOSE ++ post)
            (Pipeline.updateTime r)
      | _ => pre ++ Publisher.OPEN ++ frag ++ Publisher.CLOSE ++ post
      end.
Proof.
  intros Hm Hd Hc.
  destruct (Publisher.match_placeholder template) as [[start stop]|] eqn:E;
    [|contradiction].
  destruct (match_placeholder_split _ _ _ E)
    as (pre & inner & post & -> & _ & _ & Ho & Hci).
  assert (Hcf : Js.index_of Publisher.CLOSE frag = None).
  { unfold Js.includes in Hc.
    destruct (Js.index_of Publisher.CLOSE frag); [discriminate | reflexivity]. }
  assert (Ho' : Js.index_of Publisher.OPEN
                  (pre ++ Publisher.OPEN ++ frag ++ Publisher.CLOSE ++ post)
                = Some (length pre))
    by exact (index_of_prefix _ _ _ _ Ho).
  pose proof (replace_placeholder_built pre inner post frag Ho Hci Hd) as Hr.
  exists pre, inner, post.
  split; [reflexivity|].
  split; [exact (placeholder_content_built pre inner post Ho Hci)|].
  split; [exact Hr|].
  split; [rewrite Hr; exact (placeholder_content_built pre frag post Ho' Hcf)|].
  intros r s. unfold Pipeline.edit. rewrite Hr. destruct s; reflexivity.
Qed.

(* ================================================================= *)
(** * Further properties of the code *)

(* ================================================================= *)
(** ** Code units: lengths, and text that is ASCII *)

Section CodeUnits.

Lemma byte_value (x : N) : (x < 256)%N -> N_of_ascii (Js.byte x) = x.
Proof. intro H. unfold Js.byte. apply N_ascii_embedding. exact H. Qed.

Lemma units_one (b : ascii) (r : str) :
  (N_of_ascii b < 192)%N -> Js.units (b :: r) = N_of_ascii b :: Js.units r.
Proof.
  intro H. cbn [Js.units]. apply N.ltb_lt in H. rewrite H. reflexivity.
Qed.

Lemma length_units_group (g r : str) :
  match g with
  | [b0] => (N_of_ascii b0 < 192)%N
  | [b0; _] => (192 <= N_of_ascii b0 < 224)%N
  | [b0; _; _] => (224 <= N_of_ascii b0 < 240)%N
  | _ => False
  end ->
  length (Js.units (g ++ r)) = S (length (Js.units r)).
Proof.
  destruct g as [|b0 [|b1 [|b2 [|b3 g]]]]; intro H; try contradiction;
    cbn [app Js.units];
    repeat match goal with
           | |- context [(?a <? ?b)%N] => destruct (N.ltb_spec a b); try lia
           end; reflexivity.
Qed.

Lemma length_units_pair (b0 b1 b2 b3 : ascii) (r : str) :
  (240 <= N_of_ascii b0)%N ->
  length (Js.units (b0 :: b1 :: b2 :: b3 :: r))
  = S (S (length (Js.units r))).
Proof.
  intro H. cbn [Js.units].
  repeat match goal with
         | |- context [(?a <? ?b)%N] => destruct (N.ltb_spec a b); try lia
         end; reflexivity.
Qed.

Lemma length_encode1 (u : N) (r : str) :
  length (Js.units (Js.encode1 u ++ r)) = S (length (Js.units r)).
Proof.
  apply length_units_group. unfold Js.encode1.
  destruct (N.ltb_spec u 128); [|destruct (N.ltb_spec u 2048)]; cbv iota.
  - rewrite byte_value by lia. lia.
  - assert (u / 64 < 32)%N by (apply N.Div0.div_lt_upper_bound; lia).
    set (q := (u / 64)%N) in *. rewrite byte_value by lia. lia.
  - assert ((u / 4096) mod 16 < 16)%N by (apply N.mod_lt; lia).
    set (q := ((u / 4096) mod 16)%N) in *. rewrite byte_value by lia. lia.
Qed.

Lemma length_encode2 (hi lo : N) (r : str) :
  Js.is_high hi && Js.is_low lo = true ->
  length (Js.units (Js.encode2 hi lo ++ r))
  = S (S (length (Js.units r))).
Proof.
  intro H. apply andb_true_iff in H. destruct H as [Hh Hl].
  unfold Js.is_high in Hh. unfold Js.is_low in Hl.
  apply andb_true_iff in Hh. apply andb_true_iff in Hl.
  destruct Hh as [H1 H2]. destruct Hl as [H3 H4].
  apply N.leb_le in H1, H3. apply N.ltb_lt in H2, H4.
  unfold Js.encode2. cbv zeta. cbn [app].
  apply length_units_pair.
  set (v := (65536 + (hi - 55296) * 1024 + (lo - 56320))%N).
  assert (v / 262144 < 5)%N
    by (apply N.Div0.div_lt_upper_bound; unfold v; lia).
  set (q := (v / 262144)%N) in *. rewrite byte_value by lia. lia.
Qed.

Lemma of_units_pair (u v : N) (rest : list N) :
  Js.of_units (u :: v :: rest)
  = if Js.is_high u && Js.is_low v then Js.encode2 u v ++ Js.of_units rest
    else Js.encode1 u ++ Js.of_units (v :: rest).
Proof. reflexivity. Qed.

Lemma length_of_units_app (l : list N) (t : str) :
  Js.length (Js.of_units l ++ t) = length l + Js.length t.
Proof.
  unfold Js.length.
  assert (G : forall n l, length l <= n ->
            length (Js.units (Js.of_units l ++ t))
            = length l + length (Js.units t)).
  { clear l. induction n as [|n IH]; intros l Hl.
    - destruct l; [reflexivity | simpl in Hl; lia].
    - destruct l as [|u [|v rest]]; [reflexivity | |].
      + change (Js.of_units [u]) with (Js.encode1 u).
        rewrite length_encode1. reflexivity.
      + rewrite of_units_pair.
        destruct (Js.is_high u && Js.is_low v) eqn:E.
        * rewrite <- app_assoc, (length_encode2 u v _ E).
          rewrite IH by (simpl in *; lia). reflexivity.
        * rewrite <- app_assoc, length_encode1.
          rewrite IH by (simpl in *; lia). reflexivity. }
  apply (G (length l)). apply Nat.le_refl.
Qed.

Lemma length_substring (n : nat) (s : str) :
  Js.length (Js.substring 0 n s) <= n.
Proof.
  unfold Js.substring. rewrite Nat.sub_0_r.
  rewrite <- (app_nil_r (Js.of_units _)), length_of_units_app.
  simpl. rewrite Nat.add_0_r. apply firstn_le_length.
Qed.

Lemma units_ascii (s : str) :
  Forall (fun c => (N_of_ascii c < 128)%N) s ->
  Js.units s = map N_of_ascii s.
Proof.
  induction 1 as [|c s Hc _ IH]; [reflexivity|].
  rewrite units_one by lia. rewrite IH. reflexivity.
Qed.

Lemma of_units_ascii (s : str) :
  Forall (fun c => (N_of_ascii c < 128)%N) s ->
  Js.of_units (map N_of_ascii s) = s.
Proof.
  induction 1 as [|c s Hc _ IH]; [reflexivity|].
  assert (E : Js.encode1 (N_of_ascii c) = [c]).
  { unfold Js.encode1. apply N.ltb_lt in Hc. rewrite Hc.
    unfold Js.byte. rewrite ascii_N_embedding. reflexivity. }
  assert (Hh : Js.is_high (N_of_ascii c) = false).
  { unfold Js.is_high. destruct (N.leb_spec 55296 (N_of_ascii c));
      [lia | reflexivity]. }
  cbn [map].
  destruct (map N_of_ascii s) as [|v rest] eqn:M.
  - change (Js.of_units [N_of_ascii c]) with (Js.encode1 (N_of_ascii c)).
    rewrite E. destruct s; [reflexivity | discriminate].
  - rewrite of_units_pair, Hh. cbn [andb]. rewrite E, IH. reflexivity.
Qed.

Lemma trim_start_ascii (s : str) :
  Forall (fun c => (N_of_ascii c < 128)%N) s ->
  match s with
  | c :: _ => Js.is_space (N_of_ascii c) = false
  | [] => True
  end ->
  Js.trim_start s = s.
Proof.
  intros Ha Hs. unfold Js.trim_start. rewrite (units_ascii s Ha).
  destruct s as [|c s]; [reflexivity|].
  cbn [map Js.trim_units]. rewrite Hs.
  exact (of_units_ascii (c :: s) Ha).
Qed.

End CodeUnits.

(** Lengths are those of JavaScript also outside ASCII: a line of 69 code
    units that takes 129 bytes passes neither the test [context.length >
    100] nor the test [context.length > 80], and a cut keeps code units. *)
Lemma length_test_counts_code_units :
  let line : str := "tropical " ++ concat (repeat ("é" : str) 60) in
  length line = 129 /\ Js.length line = 69 /\
  Part001.extractTropicalFromAFD quiet_host (Some line) = None /\
  Part001.extractTropicalFromMarine (Some line) = None /\
  Js.substring 0 11 line = "tropical éé" /\
  Js.trim (Js.of_units [160; 97; 8232]%N) = "a".
Proof. vm_compute. repeat split; reflexivity. Qed.

(* ================================================================= *)
(** ** processAlerts: what the text depends on *)

Section AlertTextFacts.
Import Composer.

Lemma map_snd_filter {A B : Type} (f : B -> bool) (l : list (A * B)) :
  map snd (filter (fun x => f (snd x)) l) = filter f (map snd l).
Proof.
  induction l as [|[a b] l IH]; [reflexivity|].
  simpl. destruct (f b); simpl; rewrite IH; reflexivity.
Qed.

Lemma map_snd_combine_seq {A : Type} (l : list A) (start : nat) :
  map snd (combine (seq start (length l)) l) = l.
Proof.
  revert start. induction l as [|a l IH]; intro start; [reflexivity|].
  simpl. rewrite IH. reflexivity.
Qed.

Lemma filter_idempotent {A : Type} (f : A -> bool) (l : list A) :
  filter f (filter f l) = filter f l.
Proof.
  induction l as [|a l IH]; [reflexivity|].
  simpl. destruct (f a) eqn:E; simpl; rewrite ?E, IH; reflexivity.
Qed.

Lemma active_constant_clock (t : Z) (alerts : list alert) :
  map snd (activeAlerts (fun _ => t) alerts)
  = filter (fun a => unexpired a t) alerts.
Proof.
  unfold activeAlerts.
  rewrite (map_snd_filter (fun a => unexpired a t)).
  rewrite map_snd_combine_seq. reflexivity.
Qed.

Lemma types_map_snd (group : list (nat * alert)) :
  types group = Js.join ", " (map event (map snd group)).
Proof. unfold types. rewrite map_map. reflexivity. Qed.

Lemma processAlerts_by_active (now1 now2 : nat -> Z) (l1 l2 : list alert)
    (state : str) (hot : bool) :
  map snd (activeAlerts now1 l1) = map snd (activeAlerts now2 l2) ->
  processAlerts now1 state l1 hot = processAlerts now2 state l2 hot.
Proof.
  intro H. unfold processAlerts, warnings, watches, advisories.
  set (A1 := activeAlerts now1 l1) in *.
  set (A2 := activeAlerts now2 l2) in *.
  assert (G : forall f : alert -> bool,
             map snd (filter (fun ia => f (snd ia)) A1)
             = map snd (filter (fun ia => f (snd ia)) A2)).
  { intro f. rewrite !map_snd_filter, H. reflexivity. }
  pose proof (G is_warning) as HW.
  pose proof (G is_watch) as HC.
  pose proof (G is_advisory) as HA.
  set (W1 := filter (fun ia => is_warning (snd ia)) A1) in *.
  set (W2 := filter (fun ia => is_warning (snd ia)) A2) in *.
  set (C1 := filter (fun ia => is_watch (snd ia)) A1) in *.
  set (C2 := filter (fun ia => is_watch (snd ia)) A2) in *.
  set (D1 := filter (fun ia => is_advisory (snd ia)) A1) in *.
  set (D2 := filter (fun ia => is_advisory (snd ia)) A2) in *.
  assert (TW : types W1 = types W2) by (rewrite !types_map_snd, HW; reflexivity).
  assert (TC : types C1 = types C2) by (rewrite !types_map_snd, HC; reflexivity).
  assert (TD : types D1 = types D2) by (rewrite !types_map_snd, HA; reflexivity).
  clearbody W1 W2 C1 C2 D1 D2. clear G. clearbody A1 A2.
  destruct A1, A2; try discriminate H; [reflexivity|].
  destruct W1, W2; try discriminate HW;
    destruct C1, C2; try discriminate HC;
      destruct D1, D2; try discriminate HA;
        rewrite ?TW, ?TC, ?TD; reflexivity.
Qed.

Lemma filter_none {A : Type} (f : A -> bool) (l : list A) :
  (forall x, In x l -> f x = false) -> filter f l = [].
Proof.
  induction l as [|a l IH]; intro H; [reflexivity|].
  simpl. rewrite (H a (or_introl eq_refl)). apply IH.
  intros x Hx. apply H. right. exact Hx.
Qed.

Lemma join_member (sep x : str) (l : list str) :
  In x l -> exists pre post, Js.join sep l = pre ++ x ++ post.
Proof.
  induction l as [|y l IH]; intro H; [destruct H|].
  destruct H as [->|H].
  - destruct l as [|z l].
    + exists [], []. simpl. rewrite app_nil_r. reflexivity.
    + exists [], (sep ++ Js.join sep (z :: l)). reflexivity.
  - destruct (IH H) as (pre & post & E).
    destruct l as [|z l]; [destruct H|].
    exists (y ++ sep ++ pre), post.
    change (Js.join sep (y :: z :: l)) with (y ++ sep ++ Js.join sep (z :: l)).
    rewrite E, <- !app_assoc. reflexivity.
Qed.

End AlertTextFacts.

(** X1. processAlerts reads the alerts only through the list of those that
    are unexpired when tested: two arrays (and clocks) with the same
    unexpired alerts in the same order give the same text.  In particular,
    for a clock that stands still during the call, removing the expired
    alerts from the array does not change the text. *)
Theorem expired_alerts_leave_no_trace :
  (forall (now1 now2 : nat -> Z) (l1 l2 : list Composer.alert)
          (state : str) (hot : bool),
     map snd (Composer.activeAlerts now1 l1)
     = map snd (Composer.activeAlerts now2 l2) ->
     Composer.processAlerts now1 state l1 hot
     = Composer.processAlerts now2 state l2 hot) /\
  (forall (t : Z) (alerts : list Composer.alert) (state : str) (hot : bool),
     Composer.processAlerts (fun _ => t) state alerts hot
     = Composer.processAlerts (fun _ => t) state
         (filter (fun a => Composer.unexpired a t) alerts) hot).
Proof.
  split.
  - intros. apply processAlerts_by_active. assumption.
  - intros t alerts state hot. apply processAlerts_by_active.
    rewrite !active_constant_clock, filter_idempotent. reflexivity.
Qed.

Lemma expired_alerts_leave_no_trace_witness :
  let gone := {| Composer.event := "Flood Watch";
                 Composer.severity := "Moderate";
                 Composer.expires := Some 50%Z |} in
  let live := {| Composer.event := "Tornado Warning";
                 Composer.severity := "Extreme";
                 Composer.expires := Some 500%Z |} in
  Composer.processAlerts (fun i => 100 + Z.of_nat i)%Z "Georgia"
    [gone; live] true
  = Composer.processAlerts (fun _ => 7%Z) "Georgia" [live] true.
Proof.
  intros gone live.
  apply (proj1 expired_alerts_leave_no_trace). reflexivity.
Defined.

(** X2. Alerts that are in force but belong to none of the three groups
    (no Severe, Extreme or Moderate severity; no Warning, Watch or Advisory
    in the event name) are not mentioned: the text is the seasonal sentence
    alone, as if there were no alert. *)
Theorem ungrouped_alerts_are_silent (now : nat -> Z) (state : str)
    (alerts : list Composer.alert) (hot : bool) :
  (forall i a, In (i, a) (Composer.activeAlerts now alerts) ->
     Composer.is_warning a = false /\ Composer.is_watch a = false /\
     Composer.is_advisory a = false) ->
  Composer.processAlerts now state alerts hot
  = Composer.getSeasonalConditions state hot.
Proof.
  intro H.
  unfold Composer.processAlerts, Composer.warnings, Composer.watches,
    Composer.advisories.
  rewrite !filter_none.
  - destruct (Composer.activeAlerts now alerts), hot; reflexivity.
  - intros [i a] Hin. apply (H i a Hin).
  - intros [i a] Hin. apply (H i a Hin).
  - intros [i a] Hin. apply (H i a Hin).
Qed.

Lemma ungrouped_alerts_are_silent_witness :
  Composer.processAlerts (fun _ => 0%Z) "Florida"
    [ {| Composer.event := "Special Weather Statement";
         Composer.severity := "Minor";
         Composer.expires := Some 10%Z |} ] true
  = Composer.getSeasonalConditions "Florida" true.
Proof.
  apply ungrouped_alerts_are_silent.
  intros i a Hin. vm_compute in Hin.
  destruct Hin as [E|[]]. inversion E. subst. vm_compute. auto.
Defined.

(** X3. Every alert that is unexpired when tested and counts as a warning
    (severity Severe or Extreme, or Warning in the event name) is named in
    the WARNINGS sentence, which opens the text. *)
Theorem active_warning_is_named (now : nat -> Z) (state : str)
    (alerts : list Composer.alert) (hot : bool) (i : nat)
    (a : Composer.alert) (e : Z) :
  nth_error alerts i = Some a ->
  Composer.expires a = Some e -> (now i < e)%Z ->
  Composer.is_warning a = true ->
  exists pre post rest : str,
    Composer.processAlerts now state alerts hot
    = "Active " ++ pre ++ Composer.event a ++ post
      ++ " WARNINGS in effect. " ++ rest.
Proof.
  intros Hn He Hlt Hw.
  pose proof (active_warning_kept now alerts i a e Hn He Hlt Hw) as Hin.
  assert (Hact : In (i, a) (Composer.activeAlerts now alerts)).
  { apply group_subset. left. exact Hin. }
  assert (Hev : In (Composer.event a)
                   (map (fun ia => Composer.event (snd ia))
                        (Composer.warnings now alerts))).
  { apply (in_map (fun ia => Composer.event (snd ia)) _ (i, a)). exact Hin. }
  destruct (join_member ", " _ _ Hev) as (pre & post & E).
  unfold Composer.processAlerts.
  destruct (Composer.activeAlerts now alerts) as [|x A]; [destruct Hact|].
  unfold Composer.types.
  destruct (Composer.warnings now alerts) as [|w W]; [destruct Hin|].
  rewrite E.
  exists pre, post.
  destruct (Composer.watches now alerts) as [|c C];
    destruct (Composer.advisories now alerts) as [|d D];
    eexists; cbv zeta; unfold Js.or_else; simpl "++";
      rewrite <- ?app_assoc; simpl "++"; reflexivity.
Qed.

Lemma active_warning_is_named_witness :
  exists pre post rest : str,
    Composer.processAlerts (fun _ => 0%Z) "Alabama"
      [ {| Composer.event := "Heat Advisory"; Composer.severity := "Moderate";
           Composer.expires := Some 10%Z |};
        {| Composer.event := "Flash Flood Emergency";
           Composer.severity := "Extreme";
           Composer.expires := Some 10%Z |} ] true
    = "Active " ++ pre ++ "Flash Flood Emergency" ++ post
      ++ " WARNINGS in effect. " ++ rest.
Proof.
  apply (active_warning_is_named (fun _ => 0%Z) "Alabama" _ true 1
           {| Composer.event := "Flash Flood Emergency";
              Composer.severity := "Extreme";
              Composer.expires := Some 10%Z |} 10%Z);
    [reflexivity | reflexivity | lia | reflexivity].
Defined.

(* ================================================================= *)
(** ** generateReport: the six replacements on arbitrary text *)

Section HighlightCounting.
Import Spec.

Lemma replace_all_absent (p r s : str) :
  Js.index_of p s = None -> Js.replace_all p r s = s.
Proof.
  induction s as [|c s IH]; intro H; [reflexivity|].
  simpl in H.
  destruct (Js.starts_with p (c :: s)) eqn:E; [discriminate|].
  rewrite replace_all_skip by exact E.
  f_equal. apply IH.
  destruct (Js.index_of p s); [discriminate | reflexivity].
Qed.

Lemma apply_rules_absent (rules : list (str * str)) (s : str) :
  (forall rule, In rule rules -> Js.includes (fst rule) s = false) ->
  Renderer.apply_rules rules s = s.
Proof.
  induction rules as [|rule rules IH]; intro H; [reflexivity|].
  rewrite apply_rules_cons.
  assert (E : Js.index_of (fst rule) s = None).
  { pose proof (H rule (or_introl eq_refl)) as Hr. unfold Js.includes in Hr.
    destruct (Js.index_of (fst rule) s); [discriminate | reflexivity]. }
  rewrite (replace_all_absent _ _ _ E).
  apply IH. intros x Hx. apply H. right. exact Hx.
Qed.

Lemma count_app_ge (q a y : str) :
  Js.count_occ q y <= Js.count_occ q (a ++ y).
Proof.
  induction a as [|c a IH]; [apply Nat.le_refl|].
  change ((c :: a) ++ y) with (c :: (a ++ y)).
  rewrite count_occ_cons. lia.
Qed.

Lemma count_head (r y : str) :
  r <> [] -> 1 + Js.count_occ r y <= Js.count_occ r (r ++ y).
Proof.
  intro Hr. destruct r as [|c r]; [congruence|].
  change ((c :: r) ++ y) with (c :: (r ++ y)).
  rewrite count_occ_cons.
  change (c :: (r ++ y)) with ((c :: r) ++ y).
  rewrite starts_with_app.
  pose proof (count_app_ge (c :: r) r y). lia.
Qed.

Lemma count_replaced_ge (p r : str) :
  Js.truthy p = true -> Js.truthy r = true ->
  settled p p = true -> Js.count_occ p p = 1 ->
  forall x, Js.count_occ p x <= Js.count_occ r (Js.replace_all p r x).
Proof.
  intros Hp Hr Hs Hc.
  pose proof (truthy_ne p Hp) as Hpn.
  pose proof (truthy_ne r Hr) as Hrn.
  apply (scan_ind p); [exact Hpn | | |].
  - rewrite count_occ_nil by exact Hpn. lia.
  - intros x Hm IH.
    rewrite (replace_all_match p r x Hpn Hm).
    rewrite (starts_with_inv p x Hm) at 1.
    rewrite (count_settled p p _ Hpn Hs), Hc.
    pose proof (count_head r (Js.replace_all p r (skipn (length p) x)) Hrn).
    lia.
  - intros c x Hm IH.
    rewrite (replace_all_skip p r c x Hm).
    rewrite !count_occ_cons, Hm. lia.
Qed.

Lemma apply_rules_app (l1 l2 : list (str * str)) (s : str) :
  Renderer.apply_rules (l1 ++ l2) s
  = Renderer.apply_rules l2 (Renderer.apply_rules l1 s).
Proof. unfold Renderer.apply_rules. apply fold_left_app. Qed.

Lemma count_wrapped_ge (before after : list (str * str)) (p r : str) :
  forallb (keeps_count p) before = true ->
  forallb (keeps_count r) after = true ->
  Js.truthy p = true -> Js.truthy r = true ->
  settled p p = true -> Js.count_occ p p = 1 ->
  forall s,
    Js.count_occ p s
    <= Js.count_occ r (Renderer.apply_rules (before ++ (p, r) :: after) s).
Proof.
  intros Hb Ha Hp Hr Hs Hc s.
  rewrite apply_rules_app, apply_rules_cons.
  rewrite (count_apply_rules r after Ha).
  rewrite <- (count_apply_rules p before Hb s).
  apply count_replaced_ge; assumption.
Qed.

Lemma count_wrapper_le (p r x : str) :
  Js.includes p r = true -> Js.count_occ r x <= Js.count_occ p x.
Proof.
  unfold Js.includes. destruct (Js.index_of p r) as [i|] eqn:E; [|discriminate].
  intros _. destruct (index_of_split p r i E) as [Er _].
  rewrite Er. apply count_inside.
Qed.

End HighlightCounting.

(** X4. A condition text in which none of the six targets occurs passes
    through the replacements of generateReport unchanged. *)
Theorem highlight_leaves_plain_text (s : str) :
  (forall rule, In rule Renderer.highlight_rules ->
     Js.includes (fst rule) s = false) ->
  Renderer.highlight s = s.
Proof. intro H. apply apply_rules_absent. exact H. Qed.

Lemma highlight_leaves_plain_text_witness :
  Renderer.highlight
    "Typical seasonal weather patterns expected. Monitor for changing conditions. "
  = "Typical seasonal weather patterns expected. Monitor for changing conditions. ".
Proof.
  apply highlight_leaves_plain_text.
  intros rule H. simpl in H.
  repeat (destruct H as [<-|H]; [vm_compute; reflexivity|]).
  destruct H.
Defined.

(** X5. For each of the six targets and every condition text: the
    highlighted text holds the wrapped form exactly as often as the text
    holds the target, and the target itself as often as before.  No
    occurrence is skipped, none is wrapped twice, none is created. *)
Theorem highlight_wraps_every_occurrence (p r : str) (s : str) :
  In (p, r) Renderer.highlight_rules ->
  Js.count_occ r (Renderer.highlight s) = Js.count_occ p s /\
  Js.count_occ p (Renderer.highlight s) = Js.count_occ p s.
Proof.
  intro H.
  assert (K : forall (before after : list (str * str)),
             Renderer.highlight_rules = before ++ (p, r) :: after ->
             forallb (Spec.keeps_count p) Renderer.highlight_rules = true ->
             forallb (Spec.keeps_count p) before = true ->
             forallb (Spec.keeps_count r) after = true ->
             Js.truthy p = true -> Js.truthy r = true ->
             Spec.settled p p = true -> Js.count_occ p p = 1 ->
             Js.includes p r = true ->
             Js.count_occ r (Renderer.highlight s) = Js.count_occ p s /\
             Js.count_occ p (Renderer.highlight s) = Js.count_occ p s).
  { intros before after E Hall Hb Ha Hp Hr Hs Hc Hi.
    assert (Keep : Js.count_occ p (Renderer.highlight s) = Js.count_occ p s)
      by (apply count_apply_rules; exact Hall).
    split; [|exact Keep].
    apply Nat.le_antisymm.
    - rewrite <- Keep. apply count_wrapper_le. exact Hi.
    - unfold Renderer.highlight. rewrite E.
      apply count_wrapped_ge; assumption. }
  simpl in H.
  destruct H as [H|[H|[H|[H|[H|[H|[]]]]]]]; inversion H; subst p r; clear H.
  - apply (K [] (skipn 1 Renderer.highlight_rules)); vm_compute; reflexivity.
  - apply (K (firstn 1 Renderer.highlight_rules)
             (skipn 2 Renderer.highlight_rules)); vm_compute; reflexivity.
  - apply (K (firstn 2 Renderer.highlight_rules)
             (skipn 3 Renderer.highlight_rules)); vm_compute; reflexivity.
  - apply (K (firstn 3 Renderer.highlight_rules)
             (skipn 4 Renderer.highlight_rules)); vm_compute; reflexivity.
  - apply (K (firstn 4 Renderer.highlight_rules)
             (skipn 5 Renderer.highlight_rules)); vm_compute; reflexivity.
  - apply (K (firstn 5 Renderer.highlight_rules) []); vm_compute; reflexivity.
Qed.

Lemma highlight_wraps_every_occurrence_witness :
  Js.count_occ ("<span class=" ++ dq ++ "watch" ++ dq ++ ">WATCHES</span>")
    (Renderer.highlight "Flood Watch WATCHES in effect. WATCHES for heavy rainfall.")
  = 2.
Proof.
  apply (highlight_wraps_every_occurrence "WATCHES"
           ("<span class=" ++ dq ++ "watch" ++ dq ++ ">WATCHES</span>")
           "Flood Watch WATCHES in effect. WATCHES for heavy rainfall.").
  right. left. reflexivity.
Defined.

(* ================================================================= *)
(** ** The resolvers: order of the sources and shape of the result *)

Section ResolverOrder.
Import Effects Spec Terms.

Lemma unreadable_loop_throws (areas : list (option area)) :
  readable areas = false ->
  (forall st, forEach UpdateWeather.area_body areas st = Throw ErrorObject) /\
  (forall st, forEach Part000.area_body areas st = Throw ErrorObject).
Proof.
  induction areas as [|e rest IH]; intro H; [discriminate|].
  simpl in H.
  destruct e as [[c2 c7 tx]|]; [|split; reflexivity].
  simpl in H.
  destruct c2 as [|s2|o2], c7 as [|s7|o7]; simpl in H;
    try (destruct (IH H) as [IH1 IH2]);
    split; intro st; simpl;
      repeat match goal with
             | |- context [Js.truthy ?s] => destruct (Js.truthy s)
             end; simpl; auto.
Qed.

Lemma readable_nil_or (areas : list (option area)) :
  readable areas = false -> areas <> [].
Proof. destruct areas; [discriminate | discriminate]. Qed.

Lemma main_structured_falls (w : UpdateWeather.world)
    (areas : list (option area)) :
  readable areas = false ->
  UpdateWeather.gtwo w = Response true (Normal (Areas areas)) ->
  UpdateWeather.structured_outlook w = Falls.
Proof.
  intros Hr Hg. unfold UpdateWeather.structured_outlook. rewrite Hg.
  pose proof (readable_nil_or areas Hr) as Hne.
  destruct areas as [|e rest]; [congruence|].
  cbn [when_ok].
  rewrite (proj1 (unreadable_loop_throws (e :: rest) Hr)). reflexivity.
Qed.

Lemma part000_structured_falls (w : Part000.world)
    (areas : list (option area)) :
  readable areas = false ->
  Part000.gtwo w = Response true (Normal (Areas areas)) ->
  Part000.structured_outlook w = Falls.
Proof.
  intros Hr Hg. unfold Part000.structured_outlook. rewrite Hg.
  pose proof (readable_nil_or areas Hr) as Hne.
  destruct areas as [|e rest]; [congruence|].
  cbn [when_ok].
  rewrite (proj2 (unreadable_loop_throws (e :: rest) Hr)). reflexivity.
Qed.

Lemma truthy_or_else (a d : str) :
  Js.truthy d = true -> Js.truthy (Js.or_else a d) = true.
Proof. intro H. unfold Js.or_else. destruct (Js.truthy a) eqn:E; assumption. Qed.

Lemma truthy_app_r (a b : str) :
  Js.truthy b = true -> Js.truthy (a ++ b) = true.
Proof. intro H. destruct a; [exact H | reflexivity]. Qed.

Lemma sequence_returns {R : Type} (P : R -> Prop) (blocks : list (block R))
    (final : R) :
  Forall (fun b => forall r, b = Returns r -> P r) blocks -> P final ->
  forall v, sequence blocks final = Normal v -> P v.
Proof.
  induction 1 as [|b blocks Hb _ IH]; intros Hf v Hv; simpl in Hv.
  - inversion Hv. subst. exact Hf.
  - destruct b as [r| |e].
    + inversion Hv. subst. apply Hb. reflexivity.
    + apply IH; assumption.
    + discriminate.
Qed.

Lemma try_return_either {R : Type} (P : R -> Prop) (c : completion R) (r : R) :
  (forall v, c = Normal v -> P v) -> P r ->
  exists v, try_return c r = Normal v /\ P v.
Proof.
  intros Hc Hr. destruct c as [v|e]; simpl.
  - exists v. split; [reflexivity | apply Hc; reflexivity].
  - exists r. split; [reflexivity | exact Hr].
Qed.

Lemma try_log_when_ok_returns {A R : Type} (f : fetched A) (k : A -> block R)
    (r : R) :
  try_log (when_ok f k) = Returns r -> exists a, k a = Returns r.
Proof.
  destruct f as [e|[|] [a|e]]; simpl; try destruct e; try discriminate.
  destruct (k a) as [r'| |[|]] eqn:E; simpl; try discriminate.
  intro H. exists a. congruence.
Qed.

Ltac nonempty :=
  first [ reflexivity
        | apply truthy_or_else;
          first [reflexivity | apply truthy_app_l; reflexivity]
        | apply truthy_app_r; reflexivity ].

Ltac open_block H :=
  apply try_log_when_ok_returns in H; destruct H as [? H].

Ltac split_matches H :=
  repeat match type of H with
         | context [match ?x with _ => _ end] => destruct x eqn:?
         end; try discriminate H.

Lemma storms_shown (f : fetched storms_payload) (o : Renderer.outlook) :
  current_storms f = Returns o -> shown o.
Proof.
  unfold current_storms. intro H. open_block H.
  split_matches H; inversion H; split; reflexivity.
Qed.

Lemma main_structured_shown (w : UpdateWeather.world) (o : Renderer.outlook) :
  UpdateWeather.structured_outlook w = Returns o -> shown o.
Proof.
  unfold UpdateWeather.structured_outlook. intro H. open_block H.
  split_matches H; inversion H; split; cbn [Renderer.outlook_text
    Renderer.formation_chance];
    unfold UpdateWeather.formationChance;
    repeat match goal with
           | |- context [(0 <? ?z)%Z] => destruct (0 <? z)%Z
           end; nonempty.
Qed.

Lemma main_rss_shown (h : regexp_host) (w : UpdateWeather.world)
    (o : Renderer.outlook) :
  UpdateWeather.rss_feed h w = Returns o -> shown o.
Proof.
  unfold UpdateWeather.rss_feed. intro H. open_block H.
  split_matches H; inversion H; split; cbn [Renderer.outlook_text
    Renderer.formation_chance];
    repeat match goal with
           | |- context [(0 <? ?z)%Z] => destruct (0 <? z)%Z
           end; nonempty.
Qed.

Lemma part000_structured_shown (w : Part000.world) (o : Renderer.outlook) :
  Part000.structured_outlook w = Returns o -> shown o.
Proof.
  unfold Part000.structured_outlook. intro H. open_block H.
  split_matches H; inversion H; split; cbn [Renderer.outlook_text
    Renderer.formation_chance];
    nonempty.
Qed.

Lemma part000_page_shown (h : regexp_host) (w : Part000.world)
    (o : Renderer.outlook) :
  Part000.page_scrape h w = Returns o -> shown o.
Proof.
  unfold Part000.page_scrape. intro H. open_block H.
  split_matches H; inversion H; split; cbn [Renderer.outlook_text
    Renderer.formation_chance];
    nonempty.
Qed.

Lemma part000_rss_shown (h : regexp_host) (w : Part000.world)
    (o : Renderer.outlook) :
  Part000.rss_feed h w = Returns o -> shown o.
Proof.
  unfold Part000.rss_feed. intro H. open_block H.
  split_matches H; inversion H; split; cbn [Renderer.outlook_text
    Renderer.formation_chance];
    nonempty.
Qed.


Lemma parseNWS_shown (h : regexp_host) (t : option str) :
  shown_or_null (Part001.parseNWSTropicalOutlook h t).
Proof.
  unfold Part001.parseNWSTropicalOutlook.
  destruct t as [t|]; [|exact I].
  destruct (fold_left _ _ _) as [m s].
  destruct (Js.truthy s || (0 <? m)%Z); [|exact I].
  split; cbn [Renderer.outlook_text Renderer.formation_chance].
  - apply truthy_or_else. reflexivity.
  - destruct (0 <? m)%Z; [apply truthy_app_r|]; reflexivity.
Qed.

Lemma tropicalAlerts_shown (now : nat -> Z)
    (l : list Part001.tropical_alert) :
  shown_or_null (Part001.processTropicalAlerts now l).
Proof.
  unfold Part001.processTropicalAlerts.
  destruct (Part001.active_from now 0 l); [exact I|].
  split; reflexivity.
Qed.

Lemma afd_shown (h : regexp_host) (t : option str) :
  shown_or_null (Part001.extractTropicalFromAFD h t).
Proof.
  unfold Part001.extractTropicalFromAFD.
  destruct t as [t|]; [|exact I].
  destruct (Js.truthy _) eqn:E; [|exact I].
  split; cbn [Renderer.outlook_text Renderer.formation_chance].
  - exact E.
  - destruct (exec_first _ _ _); [apply truthy_app_r|]; reflexivity.
Qed.

Lemma marine_shown (t : option str) :
  shown_or_null (Part001.extractTropicalFromMarine t).
Proof.
  unfold Part001.extractTropicalFromMarine.
  destruct t as [t|]; [|exact I].
  destruct (Js.truthy _) eqn:E; [|exact I].
  split; [exact E | reflexivity].
Qed.

Lemma latest_product_returns {R : Type} (f : fetched Part001.graph_payload)
    (k : option str -> block R) (r : R) :
  try_log (Part001.latest_product f k) = Returns r ->
  exists t, k t = Returns r.
Proof.
  unfold Part001.latest_product. intro H.
  apply try_log_when_ok_returns in H. destruct H as [data H].
  destruct data as [| | |product]; try discriminate.
  destruct product as [e|[|] [pd|e]]; simpl in H; try discriminate.
  destruct pd as [|t]; try discriminate. exists t. exact H.
Qed.

Lemma part001_sources_shown (h : regexp_host) (w : Part001.world) :
  Forall (fun b => forall r, b = Returns r -> shown_or_null r)
         (Part001.sources h w).
Proof.
  unfold Part001.sources.
  repeat (apply Forall_cons; [intros r H|]); [| | | |apply Forall_nil].
  - unfold Part001.outlook_product in H.
    apply latest_product_returns in H. destruct H as [t H].
    inversion H. apply parseNWS_shown.
  - unfold Part001.tropical_alerts in H. open_block H.
    split_matches H; inversion H; try exact I.
    apply tropicalAlerts_shown.
  - unfold Part001.forecast_discussion in H.
    apply latest_product_returns in H. destruct H as [t H].
    pose proof (afd_shown h t) as G.
    destruct (Part001.extractTropicalFromAFD h t); [|discriminate].
    inversion H. exact G.
  - unfold Part001.high_seas_forecast in H.
    apply latest_product_returns in H. destruct H as [t H].
    pose proof (marine_shown t) as G.
    destruct (Part001.extractTropicalFromMarine t); [|discriminate].
    inversion H. exact G.
Qed.

Lemma resolver_result_shown (h : regexp_host) (s : Pipeline.script) :
  exists v,
    Pipeline.getTropicalOutlook h s = Normal v /\
    match v with
    | Some o => shown o
    | None => exists w, s = Pipeline.Part001Js w
    end.
Proof.
  destruct s as [w|w|w]; simpl.
  - unfold UpdateWeather.getTropicalOutlook.
    destruct (try_return_either shown
                (sequence (UpdateWeather.sources h w)
                          (UpdateWeather.seasonal (UpdateWeather.month w)))
                UpdateWeather.unavailable) as [o [E G]].
    + apply sequence_returns.
      * unfold UpdateWeather.sources.
        repeat (apply Forall_cons; [intros r H|]); [| | |apply Forall_nil].
        -- exact (main_structured_shown w r H).
        -- exact (main_rss_shown h w r H).
        -- exact (storms_shown _ r H).
      * unfold UpdateWeather.seasonal.
        destruct (isHurricaneSeason _); split; reflexivity.
    + split; reflexivity.
    + rewrite E. exists (Some o). split; [reflexivity | exact G].
  - unfold Part000.getTropicalOutlook.
    destruct (try_return_either shown
                (sequence (Part000.sources h w)
                          (Part000.seasonal (Part000.month w)))
                Part000.unavailable) as [o [E G]].
    + apply sequence_returns.
      * unfold Part000.sources.
        repeat (apply Forall_cons; [intros r H|]); [| | | |apply Forall_nil].
        -- exact (part000_structured_shown w r H).
        -- exact (part000_page_shown h w r H).
        -- exact (part000_rss_shown h w r H).
        -- exact (storms_shown _ r H).
      * unfold Part000.seasonal.
        destruct (isHurricaneSeason _); split; reflexivity.
    + split; reflexivity.
    + rewrite E. exists (Some o). split; [reflexivity | exact G].
  - unfold Part001.getTropicalOutlook.
    destruct (try_return_either
                (fun v => match v with
                          | Some o => shown o
                          | None => exists w0, Pipeline.Part001Js w
                                               = Pipeline.Part001Js w0
                          end)
                (sequence (Part001.sources h w)
                          (Some (Part001.seasonal (Part001.month w))))
                (Some Part001.unavailable)) as [v [E G]].
    + intros v Hv.
      assert (G : shown_or_null v).
      { apply (sequence_returns shown_or_null (Part001.sources h w)
                 (Some (Part001.seasonal (Part001.month w))));
          [apply part001_sources_shown | | exact Hv].
        unfold Part001.seasonal.
        destruct (isHurricaneSeason _); split; reflexivity. }
      destruct v; [exact G | eauto].
    + split; reflexivity.
    + exists v. split; assumption.
Qed.

End ResolverOrder.

(* ================================================================= *)
(** ** Numbers and their decimal text *)

Section DecimalText.
Import Effects Terms.

Ltac arith_step :=
  cbn [DecimalPos.Unsigned.usize DecimalPos.Unsigned.hd
       DecimalPos.Unsigned.tl];
  rewrite N2Z.inj_add, N2Z.inj_mul, N2Z.inj_pow, N2Z.inj_succ,
    Z.pow_succ_r by lia; lia.

Lemma of_uint_step (d : Decimal.uint) :
  d <> Decimal.Nil ->
  Pos.of_uint d
  = (DecimalPos.Unsigned.hd d
     * 10 ^ DecimalPos.Unsigned.usize (DecimalPos.Unsigned.tl d)
     + Pos.of_uint (DecimalPos.Unsigned.tl d))%N.
Proof.
  destruct d; intro H; [congruence | reflexivity | ..];
    cbn [Pos.of_uint DecimalPos.Unsigned.hd DecimalPos.Unsigned.tl];
    rewrite DecimalPos.Unsigned.of_uint_acc_rev,
            <- DecimalPos.Unsigned.of_uint_alt; lia.
Qed.

Lemma parse_digits_uint (d : Decimal.uint) (rest : str) :
  match rest with [] => True | c :: _ => Js.digit_val 10 c = None end ->
  forall a : Z,
    Js.parse_digits 10 (Some a) (digits d ++ rest)
    = Some (a * 10 ^ Z.of_N (DecimalPos.Unsigned.usize d)
            + Z.of_N (Pos.of_uint d))%Z.
Proof.
  intro Hrest. unfold digits.
  induction d; intro a;
    cbn [NilEmpty.string_of_uint list_ascii_of_string app Js.parse_digits].
  1: { replace (Js.parse_digits 10 (Some a) rest) with (Some a).
       - f_equal. simpl. lia.
       - destruct rest as [|c rest]; [reflexivity|].
         simpl. rewrite Hrest. reflexivity. }
  all: match goal with
       | |- context [Js.digit_val 10 ?c] =>
           let v := eval vm_compute in (Js.digit_val 10 c) in
           change (Js.digit_val 10 c) with v
       end; cbv iota; rewrite IHd; f_equal.
  - cbn [DecimalPos.Unsigned.usize Pos.of_uint].
    rewrite N2Z.inj_succ, Z.pow_succ_r by lia. lia.
  - rewrite (of_uint_step (Decimal.D1 d)) by discriminate. arith_step.
  - rewrite (of_uint_step (Decimal.D2 d)) by discriminate. arith_step.
  - rewrite (of_uint_step (Decimal.D3 d)) by discriminate. arith_step.
  - rewrite (of_uint_step (Decimal.D4 d)) by discriminate. arith_step.
  - rewrite (of_uint_step (Decimal.D5 d)) by discriminate. arith_step.
  - rewrite (of_uint_step (Decimal.D6 d)) by discriminate. arith_step.
  - rewrite (of_uint_step (Decimal.D7 d)) by discriminate. arith_step.
  - rewrite (of_uint_step (Decimal.D8 d)) by discriminate. arith_step.
  - rewrite (of_uint_step (Decimal.D9 d)) by discriminate. arith_step.
Qed.

Lemma digits_head (d : Decimal.uint) :
  d <> Decimal.Nil ->
  exists c rest, digits d = c :: rest /\
    Js.is_space (N_of_ascii c) = false /\ c <> "-"%char /\ c <> "+"%char /\
    (c = "0"%char ->
     match rest with x :: _ => x <> "x"%char /\ x <> "X"%char | [] => True end).
Proof.
  unfold digits.
  destruct d; intro H; [congruence|..];
    cbn [NilEmpty.string_of_uint list_ascii_of_string];
    eexists; eexists; (split; [reflexivity|]);
    (split; [reflexivity|]); (split; [discriminate|]);
    (split; [discriminate|]); try discriminate.
  intros _. destruct d; cbn [NilEmpty.string_of_uint list_ascii_of_string];
    try exact I; split; discriminate.
Qed.

Lemma digits_ascii (d : Decimal.uint) :
  Forall (fun c => (N_of_ascii c < 128)%N) (digits d).
Proof.
  unfold digits.
  induction d; cbn [NilEmpty.string_of_uint list_ascii_of_string];
    constructor; try assumption; vm_compute; reflexivity.
Qed.

Lemma parse_digits_numeral (d : Decimal.uint) (rest : str) :
  d <> Decimal.Nil ->
  match rest with [] => True | c :: _ => Js.digit_val 10 c = None end ->
  Js.parse_digits 10 None (digits d ++ rest) = Some (Z.of_N (Pos.of_uint d)).
Proof.
  intros Hd Hrest.
  assert (E : Js.parse_digits 10 None (digits d ++ rest)
              = Js.parse_digits 10 (Some 0%Z) (digits d ++ rest)).
  { unfold digits. destruct d; [congruence|..]; reflexivity. }
  rewrite E, (parse_digits_uint d rest Hrest). f_equal.
Qed.

Lemma parseInt_numeral (d : Decimal.uint) :
  d <> Decimal.Nil ->
  Js.parseInt (digits d) = Some (Z.of_N (Pos.of_uint d)) /\
  Js.parseInt ("-"%char :: digits d) = Some (- Z.of_N (Pos.of_uint d))%Z.
Proof.
  intro Hd.
  pose proof (parse_digits_numeral d [] Hd I) as P.
  rewrite app_nil_r in P.
  destruct (digits_head d Hd) as (c & rest & E & Hsp & Hm & Hp & Hx).
  unfold Js.parseInt.
  assert (Radix :
    (let '(radix, s3) :=
       match digits d with
       | "0"%char :: "x"%char :: t => (16%Z, t)
       | "0"%char :: "X"%char :: t => (16%Z, t)
       | _ => (10%Z, digits d)
       end in Js.parse_digits radix None s3)
    = Some (Z.of_N (Pos.of_uint d))).
  { rewrite <- P. rewrite E in *. clear P.
    destruct (ascii_dec c "0") as [->|Hc].
    - specialize (Hx eq_refl).
      destruct rest as [|x rest]; [reflexivity|].
      destruct Hx as [Hx1 Hx2].
      destruct (ascii_dec x "x") as [->|H1]; [congruence|].
      destruct (ascii_dec x "X") as [->|H2]; [congruence|].
      destruct x as [[|] [|] [|] [|] [|] [|] [|] [|]];
        try reflexivity; congruence.
    - destruct c as [[|] [|] [|] [|] [|] [|] [|] [|]];
        try reflexivity; congruence. }
  split.
  - assert (T : Js.trim_start (digits d) = digits d).
    { apply trim_start_ascii; [apply digits_ascii|]. rewrite E. exact Hsp. }
    rewrite T.
    assert (S : match digits d with
                | "-"%char :: t => ((-1)%Z, t)
                | "+"%char :: t => (1%Z, t)
                | _ => (1%Z, digits d)
                end = (1%Z, digits d)).
    { rewrite E.
      destruct c as [[|] [|] [|] [|] [|] [|] [|] [|]];
        try reflexivity; congruence. }
    rewrite S.
    destruct (match digits d with
              | "0"%char :: "x"%char :: t => (16%Z, t)
              | "0"%char :: "X"%char :: t => (16%Z, t)
              | _ => (10%Z, digits d)
              end) as [radix s3].
    rewrite Radix. simpl. f_equal; try (destruct (Pos.of_uint d); reflexivity).
  - assert (T : Js.trim_start ("-"%char :: digits d) = "-"%char :: digits d).
    { apply trim_start_ascii; [|reflexivity].
      constructor; [vm_compute; reflexivity | apply digits_ascii]. }
    rewrite T. cbv iota.
    destruct (match digits d with
              | "0"%char :: "x"%char :: t => (16%Z, t)
              | "0"%char :: "X"%char :: t => (16%Z, t)
              | _ => (10%Z, digits d)
              end) as [radix s3].
    rewrite Radix. simpl. f_equal; try (destruct (Pos.of_uint d); reflexivity).
Qed.

Lemma of_Z_cases (z : Z) :
  z = 0%Z /\ Js.of_Z z = "0" \/
  exists d, d <> Decimal.Nil /\ Z.of_N (Pos.of_uint d) = Z.abs z /\
            (0 < Z.abs z)%Z /\
            Js.of_Z z = if (0 <? z)%Z then digits d
                        else "-"%char :: digits d.
Proof.
  destruct z as [|p|p]; [left; split; reflexivity|right|right];
    exists (Pos.to_uint p);
    pose proof (DecimalPos.Unsigned.to_uint_nonnil p) as Hn;
    (split; [exact Hn|]);
    (split; [rewrite DecimalPos.Unsigned.of_to; reflexivity|]);
    (split; [simpl; lia|]);
    unfold Js.of_Z, digits; simpl Z.to_int; cbn [NilZero.string_of_int];
    unfold NilZero.string_of_uint;
    destruct (Pos.to_uint p); try congruence; reflexivity.
Qed.

Lemma parseInt_of_Z (z : Z) : Js.parseInt (Js.of_Z z) = Some z.
Proof.
  destruct (of_Z_cases z) as [[-> ->]|(d & Hd & Hv & Hpos & ->)];
    [reflexivity|].
  destruct (parseInt_numeral d Hd) as [P N].
  destruct (0 <? z)%Z eqn:E.
  - rewrite P, Hv. f_equal. apply Z.ltb_lt in E. lia.
  - rewrite N, Hv. f_equal. apply Z.ltb_ge in E. lia.
Qed.

Lemma index_of_cons_miss (p : str) (c : ascii) (s : str) :
  Js.starts_with p (c :: s) = false ->
  Js.index_of p (c :: s) = option_map S (Js.index_of p s).
Proof. intro H. cbn [Js.index_of]. rewrite H. reflexivity. Qed.

Lemma digits_no_percent (d : Decimal.uint) :
  Js.index_of "%" (digits d) = None.
Proof.
  unfold digits. change (list_ascii_of_string "%") with ["%"%char].
  induction d; cbn [NilEmpty.string_of_uint list_ascii_of_string];
    [reflexivity|..];
    rewrite index_of_cons_miss by reflexivity; rewrite IHd; reflexivity.
Qed.

Lemma of_Z_no_percent (z : Z) : Js.index_of "%" (Js.of_Z z) = None.
Proof.
  destruct (of_Z_cases z) as [[-> ->]|(d & Hd & Hv & Hpos & ->)];
    [reflexivity|].
  destruct (0 <? z)%Z; [apply digits_no_percent|].
  rewrite index_of_cons_miss by reflexivity.
  rewrite digits_no_percent. reflexivity.
Qed.

Lemma strip_percent (x : str) :
  Js.index_of "%" x = None -> Js.replace_first "%" "" (x ++ "%") = x.
Proof.
  intro H. unfold Js.replace_first.
  pose proof (index_of_terminator "%" x [] eq_refl H) as E.
  rewrite app_nil_r in E. rewrite E.
  rewrite firstn_length_app.
  replace (skipn (length x + length (list_ascii_of_string "%")) (x ++ "%"))
    with (@nil ascii).
  - simpl. rewrite app_nil_r. reflexivity.
  - symmetry. apply skipn_all2. rewrite length_app. simpl. lia.
Qed.

Lemma of_Z_truthy (z : Z) : Js.truthy (Js.of_Z z) = true.
Proof.
  destruct (of_Z_cases z) as [[-> ->]|(d & Hd & Hv & Hpos & ->)];
    [reflexivity|].
  destruct (0 <? z)%Z; [|reflexivity].
  destruct (digits_head d Hd) as (c & rest & -> & _). reflexivity.
Qed.

Lemma of_Z_inj (a b : Z) : Js.of_Z a = Js.of_Z b -> a = b.
Proof.
  intro E. pose proof (parseInt_of_Z a) as Ha.
  rewrite E, parseInt_of_Z in Ha. congruence.
Qed.

Lemma percent_not_zero (m : Z) :
  (0 <? m)%Z = true -> Js.of_Z m ++ "%" <> "0%".
Proof.
  intros Hm E.
  change (list_ascii_of_string "0%") with (Js.of_Z 0 ++ "%") in E.
  apply app_inv_tail in E. apply of_Z_inj in E.
  subst m. discriminate.
Qed.

End DecimalText.

(** X6. For integers in the range that JavaScript numbers hold exactly:
    the decimal text that a template literal prints reads back as the same
    integer with parseInt, and a percentage token as the resolver prints it
    reads back as the same number through the parsing of the structured
    reply.  Hence different numbers never print alike. *)
Theorem printed_number_reads_back (z : Z) :
  Spec.exact z ->
  Js.parseInt (Js.of_Z z) = Some z /\
  Effects.chance_of (Effects.Text (Js.of_Z z ++ "%"))
  = Effects.Normal (Some z) /\
  (forall z' : Z, Spec.exact z' -> Js.of_Z z = Js.of_Z z' -> z = z').
Proof.
  intros _. split; [apply parseInt_of_Z|]. split.
  - unfold Effects.chance_of.
    rewrite (truthy_app_l _ _ (of_Z_truthy z)).
    rewrite (strip_percent _ (of_Z_no_percent z)), parseInt_of_Z.
    reflexivity.
  - intros z' _ E. apply of_Z_inj. exact E.
Qed.

Lemma printed_number_reads_back_witness :
  Js.parseInt (Js.of_Z 70) = Some 70%Z /\
  Effects.chance_of (Effects.Text (Js.of_Z 70 ++ "%"))
  = Effects.Normal (Some 70%Z) /\
  (forall z' : Z, Spec.exact z' -> Js.of_Z 70 = Js.of_Z z' -> 70%Z = z').
Proof.
  apply (printed_number_reads_back 70). unfold Spec.exact. simpl. lia.
Defined.

Section ResolverResults.
Import Effects Spec Terms.

Lemma main_structured_value (areas : list (option area)) :
  areas <> [] -> readable areas = true ->
  exists o, forall w,
    UpdateWeather.gtwo w = Response true (Normal (Areas areas)) ->
    UpdateWeather.structured_outlook w = Returns o.
Proof.
  intros Hne Hr.
  destruct (main_loop_maxima areas Hr
              {| UpdateWeather.maxChance2Day := 0;
                 UpdateWeather.maxChance7Day := 0;
                 UpdateWeather.outlookText := "" |})
    as [st [Hrun _]]; simpl; try lia.
  eexists. intros w Hg. unfold UpdateWeather.structured_outlook.
  rewrite Hg. destruct areas as [|e rest]; [congruence|].
  cbn [when_ok]. rewrite Hrun. reflexivity.
Qed.

Lemma part000_structured_value (areas : list (option area)) :
  areas <> [] -> readable areas = true ->
  (0 < Z.max (maximum (chances chance7day areas))
             (maximum (chances chance2day areas)))%Z ->
  exists o, forall w,
    Part000.gtwo w = Response true (Normal (Areas areas)) ->
    Part000.structured_outlook w = Returns o.
Proof.
  intros Hne Hr Hpos.
  destruct (part000_loop_maximum areas Hr
              {| Part000.maxChance := 0; Part000.outlookText := "";
                 Part000.disturbanceCount := 0 |})
    as [st [Hrun Hm]]; simpl; try lia.
  simpl in Hm.
  assert (Hb : (0 <? Part000.maxChance st)%Z = true)
    by (apply Z.ltb_lt; lia).
  eexists. intros w Hg. unfold Part000.structured_outlook.
  rewrite Hg. destruct areas as [|e rest]; [congruence|].
  cbn [when_ok]. rewrite Hrun, Hb. reflexivity.
Qed.

Lemma part000_block_not_zero (h : regexp_host) (w : Part000.world)
    (r : Renderer.outlook) :
  In (Returns r) (Part000.sources h w) ->
  Renderer.formation_chance r <> "0%".
Proof.
  unfold Part000.sources. simpl.
  intros [H|[H|[H|[H|[]]]]].
  - unfold Part000.structured_outlook in H.
    apply try_log_when_ok_returns in H. destruct H as [data H].
    repeat match type of H with
           | context [match ?x with _ => _ end] => destruct x eqn:?
           end; try discriminate H.
    inversion H. apply percent_not_zero. assumption.
  - unfold Part000.page_scrape in H.
    apply try_log_when_ok_returns in H. destruct H as [data H].
    repeat match type of H with
           | context [match ?x with _ => _ end] => destruct x eqn:?
           end; try discriminate H.
    inversion H. apply percent_not_zero. assumption.
  - unfold Part000.rss_feed in H.
    apply try_log_when_ok_returns in H. destruct H as [data H].
    repeat match type of H with
           | context [match ?x with _ => _ end] => destruct x eqn:?
           end; try discriminate H.
    inversion H. apply percent_not_zero. assumption.
  - unfold current_storms in H.
    apply try_log_when_ok_returns in H. destruct H as [data H].
    repeat match type of H with
           | context [match ?x with _ => _ end] => destruct x eqn:?
           end; try discriminate H.
    inversion H. discriminate.
Qed.

Lemma sequence_source {R : Type} (blocks : list (block R)) (final v : R) :
  sequence blocks final = Normal v ->
  In (Returns v) blocks \/
  (v = final /\ Forall (fun b => b = Falls) blocks).
Proof.
  induction blocks as [|b blocks IH]; simpl; intro H.
  - right. split; [congruence | constructor].
  - destruct b as [r| |e]; [| |discriminate].
    + left. left. congruence.
    + destruct (IH H) as [G|[G1 G2]]; [left; right; exact G|].
      right. split; [exact G1 | constructor; [reflexivity | exact G2]].
Qed.

End ResolverResults.

(** X7. A structured reply that can be read decides alone: with a non-empty,
    readable list of areas the result of update-weather.js is the same
    whatever the feed, the storm list, the month and the regular expression
    engine are; in part_000 the same holds when a positive probability is
    stated. *)
Theorem structured_reply_decides_alone (h1 h2 : Effects.regexp_host)
    (areas : list (option Effects.area)) :
  areas <> [] ->
  Spec.readable areas = true ->
  (forall w1 w2,
     UpdateWeather.gtwo w1
     = Effects.Response true (Effects.Normal (Effects.Areas areas)) ->
     UpdateWeather.gtwo w2
     = Effects.Response true (Effects.Normal (Effects.Areas areas)) ->
     UpdateWeather.getTropicalOutlook h1 w1
     = UpdateWeather.getTropicalOutlook h2 w2) /\
  (forall w1 w2,
     (0 < Z.max (Spec.maximum (Spec.chances Effects.chance7day areas))
                (Spec.maximum (Spec.chances Effects.chance2day areas)))%Z ->
     Part000.gtwo w1
     = Effects.Response true (Effects.Normal (Effects.Areas areas)) ->
     Part000.gtwo w2
     = Effects.Response true (Effects.Normal (Effects.Areas areas)) ->
     Part000.getTropicalOutlook h1 w1 = Part000.getTropicalOutlook h2 w2).
Proof.
  intros Hne Hr. split.
  - intros w1 w2 H1 H2.
    destruct (main_structured_value areas Hne Hr) as [o Ho].
    unfold UpdateWeather.getTropicalOutlook, UpdateWeather.sources.
    rewrite (Ho w1 H1), (Ho w2 H2). reflexivity.
  - intros w1 w2 Hpos H1 H2.
    destruct (part000_structured_value areas Hne Hr Hpos) as [o Ho].
    unfold Part000.getTropicalOutlook, Part000.sources.
    rewrite (Ho w1 H1), (Ho w2 H2). reflexivity.
Qed.

Lemma structured_reply_decides_alone_witness :
  UpdateWeather.getTropicalOutlook quiet_host
    (Examples.main_world
       (Effects.Response true
          (Effects.Normal (Effects.Areas Examples.two_areas))) 6)
  = UpdateWeather.getTropicalOutlook quiet_host
      {| UpdateWeather.gtwo :=
           Effects.Response true
             (Effects.Normal (Effects.Areas Examples.two_areas));
         UpdateWeather.rss := Effects.Response true (Effects.Normal ("<rss/>" : str));
         UpdateWeather.storms :=
           Effects.Response true
             (Effects.Normal
                (Effects.Storms [Some (Effects.Text "Alberto")]));
         UpdateWeather.month := 0 |}.
Proof.
  apply (proj1 (structured_reply_decides_alone quiet_host quiet_host
                  Examples.two_areas ltac:(discriminate) eq_refl));
    reflexivity.
Defined.

(** X8. One entry of the structured reply that cannot be read (an entry
    that is null, or a probability field that is not a string) discards
    the whole reply, also the probabilities that other entries state: the
    resolver answers as if the request had failed.  This holds for
    update-weather.js and for part_000. *)
Theorem malformed_area_discards_reply (h : Effects.regexp_host)
    (areas : list (option Effects.area)) :
  Spec.readable areas = false ->
  (forall w w',
     UpdateWeather.gtwo w
     = Effects.Response true (Effects.Normal (Effects.Areas areas)) ->
     Spec.refused (UpdateWeather.gtwo w') ->
     UpdateWeather.rss w' = UpdateWeather.rss w ->
     UpdateWeather.storms w' = UpdateWeather.storms w ->
     UpdateWeather.month w' = UpdateWeather.month w ->
     UpdateWeather.getTropicalOutlook h w
     = UpdateWeather.getTropicalOutlook h w') /\
  (forall w w',
     Part000.gtwo w
     = Effects.Response true (Effects.Normal (Effects.Areas areas)) ->
     Spec.refused (Part000.gtwo w') ->
     Part000.page w' = Part000.page w ->
     Part000.rss w' = Part000.rss w ->
     Part000.storms w' = Part000.storms w ->
     Part000.month w' = Part000.month w ->
     Part000.getTropicalOutlook h w = Part000.getTropicalOutlook h w').
Proof.
  intro Hr. split.
  - intros w w' Hg Hg' Hrss Hst Hm.
    unfold UpdateWeather.getTropicalOutlook, UpdateWeather.sources.
    rewrite (main_structured_falls w areas Hr Hg).
    unfold UpdateWeather.structured_outlook at 1.
    rewrite (refused_falls _ _ Hg').
    unfold UpdateWeather.rss_feed. rewrite Hrss, Hst, Hm. reflexivity.
  - intros w w' Hg Hg' Hpage Hrss Hst Hm.
    unfold Part000.getTropicalOutlook, Part000.sources.
    rewrite (part000_structured_falls w areas Hr Hg).
    unfold Part000.structured_outlook at 1.
    rewrite (refused_falls _ _ Hg').
    unfold Part000.page_scrape, Part000.rss_feed.
    rewrite Hpage, Hrss, Hst, Hm. reflexivity.
Qed.

Lemma malformed_area_discards_reply_witness :
  UpdateWeather.getTropicalOutlook quiet_host
    (Examples.main_world
       (Effects.Response true
          (Effects.Normal
             (Effects.Areas
                [ Some {| Effects.chance2day := Effects.Text "70%";
                          Effects.chance7day := Effects.Text "90%";
                          Effects.text := Effects.Text "A low." |};
                  None ]))) 8)
  = UpdateWeather.getTropicalOutlook quiet_host
      (Examples.main_world (Effects.Rejected Effects.ErrorObject) 8).
Proof.
  apply (proj1 (malformed_area_discards_reply quiet_host
                  [ Some {| Effects.chance2day := Effects.Text "70%";
                            Effects.chance7day := Effects.Text "90%";
                            Effects.text := Effects.Text "A low." |};
                    None ] eq_refl));
    try reflexivity.
  left. reflexivity.
Defined.

(** X9. Whatever the sources reply, the resolver completes, and the record
    it returns has a non-empty outlook text and a non-empty formation
    chance; only part_001 can return null instead of a record.  So the
    placeholders of the renderer for a missing text or chance are reached
    only through a null of part_001. *)
Theorem outlook_fields_are_never_empty (h : Effects.regexp_host)
    (s : Pipeline.script) :
  exists v,
    Pipeline.getTropicalOutlook h s = Effects.Normal v /\
    match v with
    | Some o =>
        Js.truthy (Renderer.outlook_text o) = true /\
        Js.truthy (Renderer.formation_chance o) = true
    | None => exists w, s = Pipeline.Part001Js w
    end.
Proof. exact (resolver_result_shown h s). Qed.

(** X10. In part_000 every source that answers states a positive
    percentage or names active systems, so a formation chance of 0% can
    only come from the last statements, outside the hurricane season, and
    after every source has fallen through. *)
Theorem part000_zero_percent_is_off_season (h : Effects.regexp_host)
    (w : Part000.world) (o : Renderer.outlook) :
  Part000.getTropicalOutlook h w = Effects.Normal o ->
  Renderer.formation_chance o = "0%" ->
  Effects.isHurricaneSeason (Part000.month w) = false /\
  o = Part000.seasonal (Part000.month w) /\
  Spec.all_sources_fail h (Pipeline.Part000Js w).
Proof.
  unfold Part000.getTropicalOutlook. intros H Hz.
  destruct (Effects.sequence (Part000.sources h w)
              (Part000.seasonal (Part000.month w))) as [v|e] eqn:E;
    simpl in H.
  - inversion H. subst v. clear H.
    destruct (sequence_source _ _ _ E) as [Hin|[Hv Hall]].
    + exfalso. exact (part000_block_not_zero h w o Hin Hz).
    + split; [|split; [exact Hv | exact Hall]].
      subst o. unfold Part000.seasonal in Hz.
      destruct (Effects.isHurricaneSeason (Part000.month w));
        [discriminate Hz | reflexivity].
  - inversion H. subst o. discriminate Hz.
Qed.

Lemma part000_zero_percent_is_off_season_witness :
  Effects.isHurricaneSeason 1 = false /\
  Part000.seasonal 1 = Part000.seasonal 1 /\
  Spec.all_sources_fail quiet_host
    (Pipeline.Part000Js
       (Examples.part000_world (Effects.Rejected Effects.ErrorObject) 1)).
Proof.
  apply (part000_zero_percent_is_off_season quiet_host
           (Examples.part000_world (Effects.Rejected Effects.ErrorObject) 1)
           (Part000.seasonal 1)); reflexivity.
Defined.

(* ================================================================= *)
(** ** updateHtmlFile: fragments that hold a closing tag, and later runs *)

Section LaterRuns.
Import Publisher Spec Terms.

Lemma index_of_before_first (p s : str) (j : nat) :
  p <> [] -> Js.index_of p s = Some j -> Js.index_of p (firstn j s) = None.
Proof.
  intros Hp Hj.
  destruct (Js.index_of p (firstn j s)) as [k|] eqn:Hk; [|reflexivity].
  exfalso.
  destruct (index_of_found _ _ _ Hk) as [Hm [Hle _]].
  destruct (index_of_found _ _ _ Hj) as [_ [Hjle Hno]].
  rewrite firstn_length_le in Hle by lia.
  assert (Hlt : k < j).
  { pose proof (starts_with_inv _ _ Hm) as E.
    apply (f_equal (@length _)) in E.
    rewrite length_app, !length_skipn, firstn_length_le in E by lia.
    destruct p; [congruence|]. simpl in E. lia. }
  specialize (Hno k Hlt).
  rewrite <- (firstn_skipn j s) in Hno at 1.
  rewrite skipn_app, firstn_length_le in Hno by lia.
  replace (k - j) with 0 in Hno by lia. simpl skipn in Hno.
  rewrite (starts_with_extend _ _ _ Hm) in Hno. discriminate.
Qed.

Lemma first_closing_tag (frag : str) (j : nat) :
  Js.index_of CLOSE frag = Some j ->
  frag = firstn j frag ++ CLOSE ++ skipn (j + length CLOSE) frag /\
  Js.index_of CLOSE (firstn j frag) = None /\
  length (firstn j frag) < length frag.
Proof.
  intro Hj. destruct (index_of_split _ _ _ Hj) as [E Hlen].
  split; [exact E|]. split.
  - apply index_of_before_first; [discriminate | exact Hj].
  - rewrite E at 2. rewrite !length_app. simpl. lia.
Qed.

Lemma written_page (template : str) :
  match_placeholder template <> None ->
  exists pre inner post,
    template = pre ++ OPEN ++ inner ++ CLOSE ++ post /\
    (forall frag, has_dollar_pattern frag = false ->
       replace_placeholder template frag
       = pre ++ OPEN ++ frag ++ CLOSE ++ post) /\
    forall x, Js.index_of OPEN (pre ++ OPEN ++ x) = Some (length pre).
Proof.
  intros Hm.
  destruct (match_placeholder template) as [[start stop]|] eqn:E;
    [|congruence].
  destruct (match_placeholder_split _ _ _ E)
    as (pre & inner & post & Et & _ & _ & Ho & Hc).
  exists pre, inner, post. rewrite Et in Ho |- *.
  split; [reflexivity|]. split.
  - intros frag Hd. apply replace_placeholder_built; assumption.
  - intro x. exact (index_of_prefix _ _ _ _ Ho).
Qed.

Lemma rewritten_page (pre frag post next : str) :
  (forall x, Js.index_of OPEN (pre ++ OPEN ++ x) = Some (length pre)) ->
  has_dollar_pattern next = false ->
  replace_placeholder (pre ++ OPEN ++ frag ++ CLOSE ++ post) next
  = pre ++ OPEN ++ next ++ CLOSE ++ leftover frag ++ post /\
  placeholder_content (pre ++ OPEN ++ frag ++ CLOSE ++ post)
  = Some match Js.index_of CLOSE frag with
         | Some j => firstn j frag
         | None => frag
         end.
Proof.
  intros Ho Hd. unfold leftover.
  destruct (Js.index_of CLOSE frag) as [j|] eqn:Hj.
  - destruct (first_closing_tag frag j Hj) as (E & Hnone & _).
    set (a := firstn j frag) in *.
    set (b := skipn (j + length CLOSE) frag) in *.
    assert (Epage : pre ++ OPEN ++ frag ++ CLOSE ++ post
                    = pre ++ OPEN ++ a ++ CLOSE ++ (b ++ CLOSE ++ post)).
    { rewrite E. rewrite <- !app_assoc. reflexivity. }
    rewrite Epage. split.
    + rewrite replace_placeholder_built; [|apply Ho|exact Hnone|exact Hd].
      rewrite <- !app_assoc. reflexivity.
    + apply placeholder_content_built; [apply Ho | exact Hnone].
  - split.
    + rewrite replace_placeholder_built; [reflexivity|apply Ho|exact Hj|exact Hd].
    + apply placeholder_content_built; [apply Ho | exact Hj].
Qed.

Lemma first_cut_formula (template frag : str) (j : nat) :
  match_placeholder template <> None ->
  has_dollar_pattern frag = false ->
  Js.index_of CLOSE frag = Some j ->
  placeholder_content (replace_placeholder template frag)
  = Some (firstn j frag) /\
  length (firstn j frag) < length frag.
Proof.
  intros Hm Hd Hj.
  destruct (written_page template Hm) as (pre & inner & post & _ & Hw & Ho).
  rewrite (Hw frag Hd).
  split.
  - rewrite (proj2 (rewritten_page pre frag post [] Ho eq_refl)).
    rewrite Hj. reflexivity.
  - exact (proj2 (proj2 (first_closing_tag frag j Hj))).
Qed.

Lemma second_run_formula (template first second : str) :
  match_placeholder template <> None ->
  has_dollar_pattern first = false ->
  has_dollar_pattern second = false ->
  exists pre post : str,
    replace_placeholder template second
    = pre ++ OPEN ++ second ++ CLOSE ++ post /\
    replace_placeholder (replace_placeholder template first) second
    = pre ++ OPEN ++ second ++ CLOSE ++ leftover first ++ post.
Proof.
  intros Hm H1 H2.
  destruct (written_page template Hm) as (pre & inner & post & Et & Hw & Ho).
  exists pre, post.
  rewrite (Hw first H1), (Hw second H2).
  rewrite (proj1 (rewritten_page pre first post second Ho H2)).
  split; reflexivity.
Qed.

End LaterRuns.



(** X11. Once a fragment that holds a closing div tag has been put into
    the page, the container is found to end at that tag: what a later
    reading of the page finds as the content of the container is the
    fragment cut at its first closing tag, a proper prefix of it. *)
Theorem fragment_is_cut_at_first_closing_tag (template frag : str)
    (j : nat) :
  Publisher.match_placeholder template <> None ->
  Spec.has_dollar_pattern frag = false ->
  Js.index_of Publisher.CLOSE frag = Some j ->
  Publisher.placeholder_content (Publisher.replace_placeholder template frag)
  = Some (firstn j frag) /\
  length (firstn j frag) < length frag.
Proof. apply first_cut_formula. Qed.

Lemma fragment_is_cut_at_first_closing_tag_witness :
  Publisher.placeholder_content
    (Publisher.replace_placeholder
       ("<body>" ++ Publisher.OPEN ++ "Loading...</div></body>")
       "<div>Mon</div><div>calm</div>")
  = Some (firstn 8 (list_ascii_of_string "<div>Mon</div><div>calm</div>")) /\
  length (firstn 8 (list_ascii_of_string "<div>Mon</div><div>calm</div>"))
  < length (list_ascii_of_string "<div>Mon</div><div>calm</div>").
Proof.
  apply fragment_is_cut_at_first_closing_tag;
    [vm_compute; discriminate | reflexivity | reflexivity].
Defined.

(** X12. A second run over a page that an earlier run wrote replaces the
    old fragment only up to its first closing div tag.  The page then
    holds the new fragment, followed by the rest of the old one: it is the
    page of the second run alone exactly when the old fragment held no
    closing tag. *)
Theorem second_run_leaves_old_tail (template first second : str) :
  Publisher.match_placeholder template <> None ->
  Spec.has_dollar_pattern first = false ->
  Spec.has_dollar_pattern second = false ->
  exists pre inner post : str,
    template = pre ++ Publisher.OPEN ++ inner ++ Publisher.CLOSE ++ post /\
    Publisher.replace_placeholder template second
    = pre ++ Publisher.OPEN ++ second ++ Publisher.CLOSE ++ post /\
    Publisher.replace_placeholder
      (Publisher.replace_placeholder template first) second
    = pre ++ Publisher.OPEN ++ second ++ Publisher.CLOSE
      ++ Terms.leftover first ++ post /\
    (Publisher.replace_placeholder
       (Publisher.replace_placeholder template first) second
     = Publisher.replace_placeholder template second
     <-> Js.includes Publisher.CLOSE first = false).
Proof.
  intros Hm H1 H2.
  destruct (written_page template Hm) as (pre & inner & post & Et & Hw & Ho).
  exists pre, inner, post. split; [exact Et|].
  rewrite (Hw first H1), (Hw second H2).
  rewrite (proj1 (rewritten_page pre first post second Ho H2)).
  split; [reflexivity|]. split; [reflexivity|].
  unfold Terms.leftover, Js.includes.
  destruct (Js.index_of Publisher.CLOSE first) as [j|]; split; intro H;
    try reflexivity; try discriminate.
  exfalso. apply (f_equal (@length _)) in H.
  rewrite !length_app in H. simpl in H. lia.
Qed.

Lemma second_run_leaves_old_tail_witness :
  exists pre inner post : str,
    "<body>" ++ Publisher.OPEN ++ "Loading...</div></body>"
    = pre ++ Publisher.OPEN ++ inner ++ Publisher.CLOSE ++ post /\
    Publisher.replace_placeholder
      ("<body>" ++ Publisher.OPEN ++ "Loading...</div></body>")
      "<div>Tue</div>"
    = pre ++ Publisher.OPEN ++ "<div>Tue</div>" ++ Publisher.CLOSE ++ post /\
    Publisher.replace_placeholder
      (Publisher.replace_placeholder
         ("<body>" ++ Publisher.OPEN ++ "Loading...</div></body>")
         "<div>Mon</div><div>calm</div>") "<div>Tue</div>"
    = pre ++ Publisher.OPEN ++ "<div>Tue</div>" ++ Publisher.CLOSE
      ++ Terms.leftover "<div>Mon</div><div>calm</div>" ++ post /\
    (Publisher.replace_placeholder
       (Publisher.replace_placeholder
          ("<body>" ++ Publisher.OPEN ++ "Loading...</div></body>")
          "<div>Mon</div><div>calm</div>") "<div>Tue</div>"
     = Publisher.replace_placeholder
         ("<body>" ++ Publisher.OPEN ++ "Loading...</div></body>")
         "<div>Tue</div>"
     <-> Js.includes Publisher.CLOSE "<div>Mon</div><div>calm</div>" = false).
Proof.
  apply second_run_leaves_old_tail;
    [vm_compute; discriminate | reflexivity | reflexivity].
Defined.

(** X13. Every report that generateReport renders holds a closing div
    tag.  So a run over a page that an earlier run wrote never restores the
    page of a single run: the new report is followed by what is left of
    the old one, and the page is longer by at least the stray closing
    tag. *)
Theorem rerun_never_restores_page (v1 v2 : Renderer.wording)
    (checkTime1 startDate1 endDate1 checkTime2 startDate2 endDate2 : str)
    (data1 data2 : Renderer.weather_data) (template : str) :
  let report1 :=
    Renderer.generateReport v1 checkTime1 startDate1 endDate1 data1 in
  let report2 :=
    Renderer.generateReport v2 checkTime2 startDate2 endDate2 data2 in
  Publisher.match_placeholder template <> None ->
  Spec.has_dollar_pattern report1 = false ->
  Spec.has_dollar_pattern report2 = false ->
  length (Publisher.replace_placeholder template report2)
  + length Publisher.CLOSE
  <= length (Publisher.replace_placeholder
               (Publisher.replace_placeholder template report1) report2) /\
  Publisher.placeholder_content
    (Publisher.replace_placeholder template report1) <> Some report1.
Proof.
  intros report1 report2 Hm H1 H2.
  pose proof (rendered_report_has_closing_tag v1 checkTime1 startDate1
                endDate1 data1) as Hc.
  fold report1 in Hc. unfold Js.includes in Hc.
  destruct (Js.index_of Publisher.CLOSE report1) as [j|] eqn:Hj;
    [clear Hc | discriminate].
  split.
  - destruct (second_run_formula template report1 report2 Hm H1 H2)
      as (pre & post & E2 & E12).
    rewrite E2, E12. unfold Terms.leftover. rewrite Hj.
    rewrite !length_app. lia.
  - destruct (first_cut_formula template report1 j Hm H1 Hj) as [E Hlt].
    rewrite E. intro K. inversion K as [K'].
    rewrite K' in Hlt. lia.
Qed.

Lemma rerun_never_restores_page_witness :
  let data :=
    {| Renderer.conditions :=
         Pipeline.state_conditions (Examples.offline_run 6 None);
       Renderer.tropical := Some (UpdateWeather.seasonal 6) |} in
  let report :=
    Renderer.generateReport Renderer.NHC "9:00 AM EDT" "Monday, June 1, 2026"
      "Friday, June 5, 2026" data in
  let template : str :=
    "<body>" ++ Publisher.OPEN ++ "Loading...</div></body>" in
  length (Publisher.replace_placeholder template report)
  + length Publisher.CLOSE
  <= length (Publisher.replace_placeholder
               (Publisher.replace_placeholder template report) report) /\
  Publisher.placeholder_content
    (Publisher.replace_placeholder template report) <> Some report.
Proof.
  intros data report template.
  apply (rerun_never_restores_page Renderer.NHC Renderer.NHC
           "9:00 AM EDT" "Monday, June 1, 2026" "Friday, June 5, 2026"
           "9:00 AM EDT" "Monday, June 1, 2026" "Friday, June 5, 2026"
           data data template);
    [vm_compute; discriminate | vm_compute; reflexivity
     | vm_compute; reflexivity].
Defined.

(** X14. The run ends with exit status 1 exactly when index.html cannot be
    read or cannot be written.  No reply of the weather services, no
    failure of a request and no content of the page makes the run fail:
    in every other case the page is written. *)
Theorem run_fails_only_on_file_errors (h : Effects.regexp_host)
    (r : Pipeline.run) (s : Pipeline.script) :
  (Pipeline.updateHtmlFile h r s = Publisher.Exit 1 <->
   Pipeline.index_html r = None \/ Pipeline.writable r = false) /\
  (forall page, Pipeline.index_html r = Some page ->
     Pipeline.writable r = true ->
     exists html, Pipeline.updateHtmlFile h r s = Publisher.Written html) /\
  (forall status, Pipeline.updateHtmlFile h r s = Publisher.Exit status ->
     status = 1).
Proof.
  unfold Pipeline.updateHtmlFile.
  destruct (resolver_result_shown h s) as [v [-> _]].
  cbn [Pipeline.fetchWeatherConditions]. unfold Publisher.publish.
  destruct (Pipeline.index_html r) as [page|];
    destruct (Pipeline.writable r); repeat split;
    try (intros; discriminate); try (intros; congruence); auto.
  - intros [H|H]; discriminate.
  - intros page' _ _. eexists. reflexivity.
Qed.

(* ================================================================= *)
(** ** part_001: the helpers that read products and alerts *)

Section ProductFacts.
Import Effects Spec Terms.

Lemma fold_left_fixed {A B : Type} (f : A -> B -> A) (l : list B) (st : A) :
  (forall i, In i l -> f st i = st) -> fold_left f l st = st.
Proof.
  induction l as [|i l IH]; intro H; [reflexivity|].
  simpl. rewrite (H i (or_introl eq_refl)).
  apply IH. intros j Hj. apply H. right. exact Hj.
Qed.

Lemma fold_left_invariant {A B : Type} (P : A -> Prop) (f : A -> B -> A)
    (l : list B) (st : A) :
  (forall s i, P s -> P (f s i)) -> P st -> P (fold_left f l st).
Proof.
  intro Hf. revert st. induction l as [|i l IH]; intros st H; [exact H|].
  simpl. apply IH. apply Hf. exact H.
Qed.

Lemma cut_length (n : nat) (s : str) :
  Js.length (Js.substring 0 n s ++ "...") <= n + 3.
Proof.
  unfold Js.substring. rewrite length_of_units_app, Nat.sub_0_r.
  pose proof (firstn_le_length n (skipn 0 (Js.units s))) as H.
  change (Js.length "...") with 3. lia.
Qed.

Lemma active_from_none (now : nat -> Z) (l : list Part001.tropical_alert)
    (k : nat) :
  (forall i a, nth_error l i = Some a ->
     Js.gt (Part001.expires a) (now (k + i)) = false) ->
  Part001.active_from now k l = [].
Proof.
  revert k. induction l as [|a l IH]; intros k H; [reflexivity|].
  simpl. pose proof (H 0 a eq_refl) as H0. rewrite Nat.add_0_r in H0.
  rewrite H0. apply IH. intros i b Hb.
  rewrite Nat.add_succ_l, <- Nat.add_succ_r. apply (H (S i) b). exact Hb.
Qed.

Lemma active_from_some (now : nat -> Z) (l : list Part001.tropical_alert)
    (k i : nat) (a : Part001.tropical_alert) :
  nth_error l i = Some a ->
  Js.gt (Part001.expires a) (now (k + i)) = true ->
  Part001.active_from now k l <> [].
Proof.
  revert k i. induction l as [|b l IH]; intros k i Hn Hg.
  - destruct i; discriminate.
  - simpl. destruct i as [|i].
    + inversion Hn. subst b. rewrite Nat.add_0_r in Hg. rewrite Hg.
      discriminate.
    + destruct (Js.gt (Part001.expires b) (now k)); [discriminate|].
      apply (IH (S k) i); [exact Hn|].
      rewrite Nat.add_succ_l, <- Nat.add_succ_r. exact Hg.
Qed.

Lemma active_from_head (now : nat -> Z) (l : list Part001.tropical_alert)
    (k : nat) (a : Part001.tropical_alert)
    (rest : list Part001.tropical_alert) :
  Part001.active_from now k l = a :: rest ->
  exists i, nth_error l i = Some a /\
            Js.gt (Part001.expires a) (now (k + i)) = true.
Proof.
  revert k. induction l as [|b l IH]; intros k H; [discriminate|].
  simpl in H. destruct (Js.gt (Part001.expires b) (now k)) eqn:G.
  - inversion H. subst b. exists 0. rewrite Nat.add_0_r. split;
      [reflexivity | exact G].
  - destruct (IH (S k) H) as (i & Hn & Hg). exists (S i). split; [exact Hn|].
    rewrite Nat.add_succ_r, <- Nat.add_succ_l. exact Hg.
Qed.

Lemma no_keyword_line (h : regexp_host) (t : str) :
  Forall (fun line =>
            Part001.any_includes
              ["disturbance" : str; "tropical" : str; "development" : str]
              (Js.toLowerCase line) = false)
         (Js.split_lines t) ->
  Part001.parseNWSTropicalOutlook h (Some t) = None.
Proof.
  intro H. unfold Part001.parseNWSTropicalOutlook.
  rewrite fold_left_fixed; [reflexivity|].
  intros i Hi. apply in_seq in Hi. unfold Part001.outlook_line.
  rewrite Forall_forall in H.
  rewrite (H (nth i (Js.split_lines t) [])); [reflexivity|].
  apply nth_In. lia.
Qed.

Lemma outlook_line_bound (h : regexp_host) (lines : list str)
    (st : Z * str) (i : nat) :
  Js.length (snd st) <= 303 ->
  Js.length (snd (Part001.outlook_line h lines st i)) <= 303.
Proof.
  intro H. unfold Part001.outlook_line.
  repeat match goal with
         | |- context [match ?x with _ => _ end] => destruct x
         end; cbn [snd fst]; try exact H; apply (cut_length 300).
Qed.

Lemma first_context_bound (words : list str)
    (before after minimum keep : nat) (lines : list str)
    (indices : list nat) :
  Js.length
    (Part001.first_context words before after minimum keep lines indices)
  <= keep + 3.
Proof.
  induction indices as [|i rest IH]; cbn [Part001.first_context];
    [change (Js.length "") with 0; lia|].
  repeat match goal with
         | |- context [if ?x then _ else _] => destruct x
         end; try exact IH. apply cut_length.
Qed.

Lemma fallback_ends_with_space (state : str) (hot : bool) :
  hd "x"%char (rev (Composer.generateFallbackConditions state hot))
  = " "%char.
Proof.
  unfold Composer.generateFallbackConditions.
  repeat match goal with
         | |- context [if ?x then _ else _] => destruct x
         end; rewrite ?rev_app_distr; reflexivity.
Qed.

End ProductFacts.

(** X15. part_001 returns null, and not an outlook record, whenever the
    outlook product gives nothing and the alerts query answers with a
    non-empty list whose alerts have all expired when they are tested:
    the later sources and the seasonal text are not reached. *)
Theorem part001_null_when_alerts_expired (h : Effects.regexp_host)
    (w : Part001.world) (features : list Part001.tropical_alert) :
  Part001.outlook_product h w = Effects.Falls ->
  Part001.alerts w
  = Effects.Response true (Effects.Normal (Part001.Features features)) ->
  features <> [] ->
  (forall i a, nth_error features i = Some a ->
     Js.gt (Part001.expires a) (Part001.now w i) = false) ->
  Part001.processTropicalAlerts (Part001.now w) features = None /\
  Part001.getTropicalOutlook h w = Effects.Normal None.
Proof.
  intros H1 Ha Hne Hexp.
  assert (E : Part001.processTropicalAlerts (Part001.now w) features = None).
  { unfold Part001.processTropicalAlerts.
    rewrite (active_from_none (Part001.now w) features 0); [reflexivity|].
    exact Hexp. }
  split; [exact E|].
  unfold Part001.getTropicalOutlook, Part001.sources.
  rewrite H1. unfold Part001.tropical_alerts. rewrite Ha.
  destruct features as [|a rest]; [congruence|].
  cbn [Effects.when_ok]. rewrite E. reflexivity.
Qed.

Lemma part001_null_when_alerts_expired_witness :
  Part001.processTropicalAlerts (fun _ => 2000%Z)
    [ {| Part001.event := "Hurricane Warning";
         Part001.areaDesc := "Coastal Miami-Dade";
         Part001.expires := Some 1000%Z |} ] = None /\
  Part001.getTropicalOutlook quiet_host Examples.expired_alert_world
  = Effects.Normal None.
Proof.
  apply (part001_null_when_alerts_expired quiet_host
           Examples.expired_alert_world
           [ {| Part001.event := "Hurricane Warning";
                Part001.areaDesc := "Coastal Miami-Dade";
                Part001.expires := Some 1000%Z |} ]);
    [reflexivity | reflexivity | discriminate |].
  intros i a H. destruct i as [|[|i]]; [|discriminate|discriminate].
  inversion H. reflexivity.
Defined.

(** X16. processTropicalAlerts gives a record exactly when some alert is
    unexpired when it is tested; the record then has the fixed formation
    chance Active System and a text that opens with the fixed
    introduction. *)
Theorem tropical_alerts_record (now : nat -> Z)
    (alerts : list Part001.tropical_alert) :
  (Part001.processTropicalAlerts now alerts <> None <->
   exists i a, nth_error alerts i = Some a /\
               Js.gt (Part001.expires a) (now i) = true) /\
  (forall o, Part001.processTropicalAlerts now alerts = Some o ->
     Renderer.formation_chance o = "Active System" /\
     Js.starts_with "Active tropical weather alerts: "
       (Renderer.outlook_text o) = true).
Proof.
  split.
  - split.
    + intro H. unfold Part001.processTropicalAlerts in H.
      destruct (Part001.active_from now 0 alerts) as [|a rest] eqn:E;
        [congruence|].
      destruct (active_from_head now alerts 0 a rest E) as (i & Hn & Hg).
      exists i, a. split; assumption.
    + intros (i & a & Hn & Hg). unfold Part001.processTropicalAlerts.
      pose proof (active_from_some now alerts 0 i a Hn Hg) as Hne.
      destruct (Part001.active_from now 0 alerts); [congruence | discriminate].
  - intros o H. unfold Part001.processTropicalAlerts in H.
    destruct (Part001.active_from now 0 alerts); [discriminate|].
    inversion H. split; reflexivity.
Qed.

(** X17. A product text in which no line names a disturbance, tropical
    weather or development makes parseNWSTropicalOutlook give null, and
    the whole resolver of part_001 then returns null, whatever the alerts
    query, the other products and the month are.  The same holds for a
    product whose text is not a string. *)
Theorem part001_null_on_plain_product (h : Effects.regexp_host)
    (w : Part001.world) (productText : option str) :
  Part001.two w
  = Effects.Response true
      (Effects.Normal
         (Part001.GraphFirst
            (Effects.Response true
               (Effects.Normal (Part001.ProductText productText))))) ->
  match productText with
  | Some t =>
      Forall (fun line =>
                Part001.any_includes
                  ["disturbance" : str; "tropical" : str; "development" : str]
                  (Js.toLowerCase line) = false)
             (Js.split_lines t)
  | None => True
  end ->
  Part001.parseNWSTropicalOutlook h productText = None /\
  Part001.getTropicalOutlook h w = Effects.Normal None.
Proof.
  intros Hw Ht.
  assert (E : Part001.parseNWSTropicalOutlook h productText = None).
  { destruct productText as [t|]; [|reflexivity].
    apply no_keyword_line. exact Ht. }
  split; [exact E|].
  unfold Part001.getTropicalOutlook, Part001.sources, Part001.outlook_product,
    Part001.latest_product.
  rewrite Hw. cbn [Effects.when_ok]. rewrite E. reflexivity.
Qed.

Lemma part001_null_on_plain_product_witness :
  Part001.parseNWSTropicalOutlook quiet_host
    (Some ("No activity is expected." : str)) = None /\
  Part001.getTropicalOutlook quiet_host
    {| Part001.two :=
         Effects.Response true
           (Effects.Normal
              (Part001.GraphFirst
                 (Effects.Response true
                    (Effects.Normal
                       (Part001.ProductText
                          (Some ("No activity is expected." : str)))))));
       Part001.alerts := Effects.Rejected Effects.ErrorObject;
       Part001.now := fun _ => 0%Z;
       Part001.afd := Effects.Rejected Effects.ErrorObject;
       Part001.high_seas := Effects.Rejected Effects.ErrorObject;
       Part001.month := 7 |}
  = Effects.Normal None.
Proof.
  apply part001_null_on_plain_product; [reflexivity|].
  repeat constructor.
Defined.

(** X18. The texts that the helpers of part_001 cut out of a product are
    bounded in length, the length being taken as JavaScript takes it, in
    UTF-16 code units, for every product text: at most 300 and the
    ellipsis from the outlook product and the marine forecast, at most 400
    and the ellipsis from the forecast discussion. *)
Theorem product_texts_are_bounded (h : Effects.regexp_host)
    (productText : option str) (o : Renderer.outlook) :
  (Part001.parseNWSTropicalOutlook h productText = Some o ->
   Js.length (Renderer.outlook_text o) <= 303) /\
  (Part001.extractTropicalFromAFD h productText = Some o ->
   Js.length (Renderer.outlook_text o) <= 403) /\
  (Part001.extractTropicalFromMarine productText = Some o ->
   Js.length (Renderer.outlook_text o) <= 303).
Proof.
  split; [|split].
  - unfold Part001.parseNWSTropicalOutlook.
    destruct productText as [t|]; [|discriminate].
    pose proof (fold_left_invariant
                  (fun st : Z * str => Js.length (snd st) <= 303)
                  (Part001.outlook_line h (Js.split_lines t))
                  (seq 0 (length (Js.split_lines t))) (0%Z, [])
                  (outlook_line_bound h (Js.split_lines t))) as B.
    change (fold_left (Part001.outlook_line h (Js.split_lines t))
              (seq 0 (length (Js.split_lines t))) (0%Z, ("" : str)))
      with (fold_left (Part001.outlook_line h (Js.split_lines t))
              (seq 0 (length (Js.split_lines t))) (0%Z, [])).
    destruct (fold_left _ _ _) as [m s]. cbn [snd] in B.
    destruct (Js.truthy s || (0 <? m)%Z); [|discriminate].
    intro H. inversion H. cbn [Renderer.outlook_text]. unfold Js.or_else.
    destruct (Js.truthy s);
      [apply B; change (Js.length []) with 0; lia
      | apply Nat.leb_le; vm_compute; reflexivity].
  - unfold Part001.extractTropicalFromAFD.
    destruct productText as [t|]; [|discriminate].
    destruct (Js.truthy _); [|discriminate].
    intro H. inversion H. cbn [Renderer.outlook_text].
    apply (first_context_bound _ 2 4 100 400).
  - unfold Part001.extractTropicalFromMarine.
    destruct productText as [t|]; [|discriminate].
    destruct (Js.truthy _); [|discriminate].
    intro H. inversion H. cbn [Renderer.outlook_text].
    apply (first_context_bound _ 1 3 80 300).
Qed.

(** X19. The hot season of the condition composer (May to October) and
    the hurricane season of the resolver (June to November) give the same
    answer in every month but May and November. *)
Theorem seasons_agree_but_in_may_and_november (month : nat) :
  Composer.isHotSeason month = Effects.isHurricaneSeason month <->
  month <> 4 /\ month <> 10.
Proof.
  unfold Composer.isHotSeason, Effects.isHurricaneSeason.
  destruct (Nat.leb_spec 4 month), (Nat.leb_spec month 9),
    (Nat.leb_spec 5 month), (Nat.leb_spec month 10);
    simpl; split; intro K; try lia; try reflexivity; try discriminate K.
Qed.

(** X20. The sentence that no significant weather hazards are reported is
    dead text: no condition of any state in any run is that sentence,
    whether the alerts were read or the fallback was used, because every
    text that is composed ends with a space after its last sentence. *)
Theorem no_hazards_sentence_is_never_shown (r : Pipeline.run) (state c : str) :
  In (state, c) (Pipeline.state_conditions r) ->
  c <> Composer.no_hazards state /\
  hd "x"%char (rev c) = " "%char.
Proof.
  unfold Pipeline.state_conditions. intro H.
  apply in_map_iff in H. destruct H as (st & E & _).
  inversion E. subst st. clear E.
  assert (S : hd "x"%char
                (rev (Pipeline.generateStateConditions
                        (Pipeline.feed r (Composer.getStateCode state))
                        (Pipeline.clock r state) state
                        (Composer.isHotSeason (Pipeline.today_month r))))
              = " "%char).
  { unfold Pipeline.generateStateConditions.
    destruct (Pipeline.feed r (Composer.getStateCode state)) as [|l].
    - apply fallback_ends_with_space.
    - destruct (no_hazards_default_is_dead (Pipeline.clock r state) state l
                  (Composer.isHotSeason (Pipeline.today_month r)))
        as (cond & -> & _).
      rewrite rev_app_distr.
      destruct (Composer.isHotSeason (Pipeline.today_month r)); reflexivity. }
  split; [|exact S].
  intro K. rewrite K in S. unfold Composer.no_hazards in S.
  rewrite !rev_app_distr in S. discriminate S.
Qed.

Lemma no_hazards_sentence_is_never_shown_witness :
  Composer.generateFallbackConditions "Florida" true
  <> Composer.no_hazards "Florida" /\
  hd "x"%char (rev (Composer.generateFallbackConditions "Florida" true))
  = " "%char.
Proof.
  apply (no_hazards_sentence_is_never_shown (Examples.offline_run 6 None)).
  vm_compute. do 4 right. left. reflexivity.
Defined.

(* ================================================================= *)
(** ** update-weather.js: where a chance of 0% comes from *)

Section ZeroPercent.
Import Effects Spec Terms.

Lemma percent_body_keeps (cleanDesc : str) (st : Z * str) (m : str) :
  (0 <= fst st)%Z /\ (fst st = 0%Z -> snd st = []) ->
  (0 <= fst (UpdateWeather.percent_body cleanDesc st m))%Z /\
  (fst (UpdateWeather.percent_body cleanDesc st m) = 0%Z ->
   snd (UpdateWeather.percent_body cleanDesc st m) = []).
Proof.
  intros [H0 H1]. unfold UpdateWeather.percent_body.
  destruct (Js.parseInt _) as [num|]; [|split; assumption].
  destruct (fst st <? num)%Z eqn:E; [|split; assumption].
  apply Z.ltb_lt in E. cbn [fst snd]. split; lia.
Qed.

Lemma desc_body_keeps (h : regexp_host) (st : Z * str) (desc : str) :
  (0 <= fst st)%Z /\ (fst st = 0%Z -> snd st = []) ->
  (0 <= fst (UpdateWeather.desc_body h st desc))%Z /\
  (fst (UpdateWeather.desc_body h st desc) = 0%Z ->
   snd (UpdateWeather.desc_body h st desc) = []).
Proof.
  intro H. unfold UpdateWeather.desc_body.
  apply (fold_left_invariant
           (fun s : Z * str => (0 <= fst s)%Z /\ (fst s = 0%Z -> snd s = [])));
    [|exact H].
  intros s i Hs. apply percent_body_keeps. exact Hs.
Qed.

Lemma main_rss_not_zero (h : regexp_host) (w : UpdateWeather.world)
    (o : Renderer.outlook) :
  UpdateWeather.rss_feed h w = Returns o ->
  exists m, (0 < m)%Z /\ Renderer.formation_chance o = Js.of_Z m ++ "%".
Proof.
  unfold UpdateWeather.rss_feed. intro H.
  apply try_log_when_ok_returns in H. destruct H as [xmlText H].
  destruct (match_all h UpdateWeather.RE_description xmlText) as [|d ds];
    [discriminate|].
  pose proof (fold_left_invariant
                (fun s : Z * str =>
                   (0 <= fst s)%Z /\ (fst s = 0%Z -> snd s = []))
                (UpdateWeather.desc_body h) (d :: ds) (0%Z, [])
                (fun s i Hs => desc_body_keeps h s i Hs)
                (conj (Z.le_refl 0) (fun _ => eq_refl))) as Inv.
  change (fold_left (UpdateWeather.desc_body h) (d :: ds) (0%Z, ("" : str)))
    with (fold_left (UpdateWeather.desc_body h) (d :: ds) (0%Z, [])) in H.
  destruct (fold_left (UpdateWeather.desc_body h) (d :: ds) (0%Z, []))
    as [m t].
  cbn [fst snd] in Inv. destruct Inv as [I0 I1].
  destruct (0 <? m)%Z eqn:E.
  - cbn [orb] in H. inversion H. exists m. split;
      [apply Z.ltb_lt; exact E | reflexivity].
  - apply Z.ltb_ge in E. assert (m = 0%Z) by lia.
    rewrite (I1 H0) in H. discriminate H.
Qed.

Lemma null_storm_throws (l : list (option field)) :
  In None l -> mapM storm_name l = Throw ErrorObject.
Proof.
  induction l as [|s l IH]; intro H; [destruct H|].
  destruct s as [name|]; [|reflexivity].
  destruct H as [H|H]; [discriminate|].
  simpl. rewrite (IH H). reflexivity.
Qed.

End ZeroPercent.

(** X21. update-weather.js answers 0% in two cases only: a structured
    reply decided, or every source fell through outside the hurricane
    season.  The feed never gives 0%: its block returns only with a
    positive percentage, so the branch that would print 0% there is dead. *)
Theorem main_zero_percent_origin (h : Effects.regexp_host)
    (w : UpdateWeather.world) (o : Renderer.outlook) :
  UpdateWeather.getTropicalOutlook h w = Effects.Normal o ->
  Renderer.formation_chance o = "0%" ->
  UpdateWeather.structured_outlook w = Effects.Returns o \/
  (Effects.isHurricaneSeason (UpdateWeather.month w) = false /\
   o = UpdateWeather.seasonal (UpdateWeather.month w) /\
   Spec.all_sources_fail h (Pipeline.UpdateWeatherJs w)).
Proof.
  unfold UpdateWeather.getTropicalOutlook. intros H Hz.
  destruct (Effects.sequence (UpdateWeather.sources h w)
              (UpdateWeather.seasonal (UpdateWeather.month w)))
    as [v|e] eqn:E; simpl in H.
  - inversion H. subst v. clear H.
    destruct (sequence_source _ _ _ E) as [Hin|[Hv Hall]].
    + unfold UpdateWeather.sources in Hin. simpl in Hin.
      destruct Hin as [Hin|[Hin|[Hin|[]]]].
      * left. exact Hin.
      * exfalso. destruct (main_rss_not_zero h w o Hin) as (m & Hm & Em).
        rewrite Em in Hz. revert Hz. apply percent_not_zero.
        apply Z.ltb_lt. exact Hm.
      * exfalso. unfold Effects.current_storms in Hin.
        apply try_log_when_ok_returns in Hin. destruct Hin as [data Hin].
        repeat match type of Hin with
               | context [match ?x with _ => _ end] => destruct x eqn:?
               end; try discriminate Hin.
        inversion Hin as [K]. rewrite <- K in Hz. discriminate Hz.
    + right. split; [|split; [exact Hv | exact Hall]].
      subst o. unfold UpdateWeather.seasonal in Hz.
      destruct (Effects.isHurricaneSeason (UpdateWeather.month w));
        [discriminate Hz | reflexivity].
  - inversion H. subst o. discriminate Hz.
Qed.

Lemma main_zero_percent_origin_witness :
  let w :=
    Examples.main_world
      (Effects.Response true
         (Effects.Normal
            (Effects.Areas
               [ Some {| Effects.chance2day := Effects.Text "0%";
                         Effects.chance7day := Effects.Text "0%";
                         Effects.text := Effects.Text "Quiet." |} ]))) 8 in
  let o := {| Renderer.outlook_text := "Quiet.";
              Renderer.formation_chance := "0%" |} in
  UpdateWeather.structured_outlook w = Effects.Returns o \/
  (Effects.isHurricaneSeason (UpdateWeather.month w) = false /\
   o = UpdateWeather.seasonal (UpdateWeather.month w) /\
   Spec.all_sources_fail quiet_host (Pipeline.UpdateWeatherJs w)).
Proof.
  intros w o.
  apply (main_zero_percent_origin quiet_host w o); reflexivity.
Defined.

(** X22. One null entry in the list of active storms discards the list:
    the block of update-weather.js and part_000 that reads
    CurrentStorms.json falls through, although other storms are named. *)
Theorem null_storm_discards_list (l : list (option Effects.field)) :
  In None l ->
  Effects.current_storms
    (Effects.Response true (Effects.Normal (Effects.Storms l)))
  = Effects.Falls.
Proof.
  intro H. unfold Effects.current_storms. cbn [Effects.when_ok].
  destruct l as [|s l]; [destruct H|].
  rewrite (null_storm_throws (s :: l) H). reflexivity.
Qed.

Lemma null_storm_discards_list_witness :
  Effects.current_storms
    (Effects.Response true
       (Effects.Normal
          (Effects.Storms [Some (Effects.Text "Alberto"); None])))
  = Effects.Falls.
Proof.
  apply null_storm_discards_list. right. left. reflexivity.
Defined.

(* ================================================================= *)
(** ** The scrapers: the largest percentage found *)

Section LargestPercentage.
Import Effects Spec Terms.

Lemma fold_left_raise {A : Type} (f : Z * str -> A -> Z * str)
    (read : A -> option Z) (l : list A) :
  (forall st x, fst (f st x) = raise_to (fst st) (read x)) ->
  forall st, (0 <= fst st)%Z ->
    fst (fold_left f l st) = Z.max (fst st) (maximum (numbers read l)).
Proof.
  intro Hf. induction l as [|x l IH]; intros st H0.
  - simpl. lia.
  - cbn [fold_left]. rewrite IH.
    + rewrite Hf. unfold numbers. cbn [flat_map].
      fold (numbers read l). rewrite maximum_app.
      destruct (read x) as [v|]; simpl; lia.
    + rewrite Hf. destruct (read x) as [v|]; simpl; lia.
Qed.

Lemma fold_left_raise_all {A : Type} (g : Z * str -> A -> Z * str)
    (vals : A -> list Z) (l : list A) :
  (forall st x, (0 <= fst st)%Z ->
     fst (g st x) = Z.max (fst st) (maximum (vals x))) ->
  forall st, (0 <= fst st)%Z ->
    fst (fold_left g l st) = Z.max (fst st) (maximum (flat_map vals l)).
Proof.
  intro Hg. induction l as [|x l IH]; intros st H0.
  - simpl. lia.
  - cbn [fold_left flat_map]. rewrite IH.
    + rewrite (Hg st x H0), maximum_app. lia.
    + rewrite (Hg st x H0). pose proof (maximum_nonneg (vals x)). lia.
Qed.

Lemma match_body_raises (h : regexp_host) (htmlText : str) (st : Z * str)
    (m : exec_result) :
  fst (Part000.match_body h htmlText st m)
  = raise_to (fst st) (Js.parseInt (group1 m)).
Proof.
  unfold Part000.match_body.
  destruct (Js.parseInt (group1 m)) as [v|]; [|reflexivity].
  destruct (fst st <? v)%Z eqn:E; simpl;
    [apply Z.ltb_lt in E | apply Z.ltb_ge in E]; lia.
Qed.

Lemma page_maximum (h : regexp_host) (htmlText : str) :
  fst (fold_left (Part000.pattern_body h htmlText)
         [Part000.formationRegex; Part000.disturbanceRegex;
          Part000.percentageRegex] (0%Z, []))
  = maximum (page_percentages h htmlText).
Proof.
  unfold page_percentages.
  rewrite (fold_left_raise_all (Part000.pattern_body h htmlText)
             (fun pattern =>
                numbers (fun m => Js.parseInt (group1 m))
                        (exec_all h pattern htmlText))).
  - simpl fst. pose proof (maximum_nonneg
      (flat_map (fun pattern =>
                   numbers (fun m => Js.parseInt (group1 m))
                           (exec_all h pattern htmlText))
                [Part000.formationRegex; Part000.disturbanceRegex;
                 Part000.percentageRegex])). lia.
  - intros st p H0. unfold Part000.pattern_body.
    apply fold_left_raise; [|exact H0].
    intros s m. apply match_body_raises.
  - simpl. lia.
Qed.



Lemma main_loop_text (areas : list (option area)) :
  forall st st',
    forEach UpdateWeather.area_body areas st = Normal st' ->
    UpdateWeather.outlookText st'
    = UpdateWeather.outlookText st ++ concat (map area_text areas).
Proof.
  induction areas as [|e rest IH]; intros st st' H.
  - simpl in H. inversion H. simpl. rewrite app_nil_r. reflexivity.
  - cbn [forEach] in H.
    destruct (UpdateWeather.area_body st e) as [st1|x] eqn:E;
      [|discriminate H].
    cbn [bind] in H. rewrite (IH st1 st' H).
    cbn [map concat]. rewrite app_assoc. f_equal.
    unfold UpdateWeather.area_body in E.
    destruct e as [a|]; [|discriminate E].
    destruct (chance_of (chance2day a)) as [c2|x]; [|discriminate E].
    destruct (chance_of (chance7day a)) as [c7|x]; [|discriminate E].
    cbn [bind] in E. inversion E. cbn [UpdateWeather.outlookText area_text].
    destruct (field_truthy (text a)); [reflexivity|].
    rewrite app_nil_r. reflexivity.
Qed.

Lemma part000_loop_text (areas : list (option area)) :
  forall st st',
    forEach Part000.area_body areas st = Normal st' ->
    Part000.outlookText st'
    = Part000.outlookText st
      ++ concat (map numbered_text
                     (combine (seq (Part000.disturbanceCount st)
                                   (length areas)) areas)) /\
    Part000.disturbanceCount st'
    = Part000.disturbanceCount st + length areas.
Proof.
  induction areas as [|e rest IH]; intros st st' H.
  - simpl in H. inversion H. simpl. rewrite app_nil_r. split; [reflexivity|lia].
  - cbn [forEach] in H.
    destruct (Part000.area_body st e) as [st1|x] eqn:E; [|discriminate H].
    cbn [bind] in H. destruct (IH st1 st' H) as [T C]. rewrite T, C.
    unfold Part000.area_body in E.
    destruct e as [a|]; [|discriminate E].
    destruct (chance_of (chance7day a)) as [c7|x]; [|discriminate E].
    destruct (chance_of (chance2day a)) as [c2|x]; [|discriminate E].
    cbn [bind] in E. inversion E.
    cbn [Part000.outlookText Part000.disturbanceCount length seq combine
         map concat].
    split; [|lia].
    rewrite app_assoc. f_equal.
    unfold numbered_text. cbn [fst snd].
    destruct (field_truthy (text a)).
    + rewrite <- ?app_assoc. reflexivity.
    + rewrite app_nil_r. reflexivity.
Qed.

End LargestPercentage.

(** X23. part_000, Method 2: when the structured source gives nothing and
    the outlook page is delivered, the formation chance is the largest
    percentage that the three patterns capture anywhere in the page, if it
    is positive; if none is positive the page decides nothing.  The
    percentages are taken to be integers that a JavaScript number holds
    exactly. *)
Theorem page_scrape_gives_largest_percentage (h : Effects.regexp_host)
    (w : Part000.world) (htmlText : str) :
  Part000.structured_outlook w = Effects.Falls ->
  Part000.page w = Effects.Response true (Effects.Normal htmlText) ->
  Forall Spec.exact (Terms.page_percentages h htmlText) ->
  let largest := Spec.maximum (Terms.page_percentages h htmlText) in
  ((0 < largest)%Z ->
   exists o,
     Part000.getTropicalOutlook h w = Effects.Normal o /\
     Renderer.formation_chance o = Js.of_Z largest ++ "%") /\
  (largest = 0%Z -> Part000.page_scrape h w = Effects.Falls).
Proof.
  intros Hs Hp _ largest.
  pose proof (page_maximum h htmlText) as M. fold largest in M.
  unfold Part000.getTropicalOutlook, Part000.sources. rewrite Hs.
  unfold Part000.page_scrape. rewrite Hp. cbn [Effects.when_ok].
  change (fold_left (Part000.pattern_body h htmlText)
            [Part000.formationRegex; Part000.disturbanceRegex;
             Part000.percentageRegex] (0%Z, ("" : str)))
    with (fold_left (Part000.pattern_body h htmlText)
            [Part000.formationRegex; Part000.disturbanceRegex;
             Part000.percentageRegex] (0%Z, [])).
  destruct (fold_left (Part000.pattern_body h htmlText) _ _) as [m t].
  cbn [fst] in M. subst m. split.
  - intro Hpos. apply Z.ltb_lt in Hpos. rewrite Hpos.
    eexists. split; reflexivity.
  - intro Hz. rewrite Hz. reflexivity.
Qed.

Lemma page_scrape_gives_largest_percentage_witness :
  let w :=
    {| Part000.gtwo := Effects.Rejected Effects.ErrorObject;
       Part000.page :=
         Effects.Response true (Effects.Normal ("40 percent" : str));
       Part000.rss := Effects.Rejected Effects.ErrorObject;
       Part000.storms := Effects.Rejected Effects.ErrorObject;
       Part000.month := 7 |} in
  ((0 < 40)%Z ->
   exists o,
     Part000.getTropicalOutlook Terms.sample_host w = Effects.Normal o /\
     Renderer.formation_chance o = Js.of_Z 40 ++ "%") /\
  (40%Z = 0%Z -> Part000.page_scrape Terms.sample_host w = Effects.Falls).
Proof.
  intro w.
  apply (page_scrape_gives_largest_percentage Terms.sample_host w
           "40 percent"); [reflexivity | reflexivity |].
  repeat constructor; unfold Spec.exact; simpl; lia.
Defined.



(** X25. The outlook text of a structured reply that decides: in
    update-weather.js the texts of the areas in order, each followed by a
    space, trimmed; in part_000 each text is introduced by the number of
    its area in the list, so that an area without text leaves a gap in the
    numbering.  When no area has a text, the fixed sentence is used, which
    in part_000 states the number of areas. *)
Theorem structured_outlook_text (h : Effects.regexp_host)
    (areas : list (option Effects.area)) :
  areas <> [] ->
  Spec.readable areas = true ->
  (forall w,
     UpdateWeather.gtwo w
     = Effects.Response true (Effects.Normal (Effects.Areas areas)) ->
     exists o,
       UpdateWeather.getTropicalOutlook h w = Effects.Normal o /\
       Renderer.outlook_text o
       = Js.or_else (Js.trim (concat (map Terms.area_text areas)))
           "The National Hurricane Center is monitoring the Atlantic basin for tropical development.") /\
  (forall w,
     Part000.gtwo w
     = Effects.Response true (Effects.Normal (Effects.Areas areas)) ->
     (0 < Z.max (Spec.maximum (Spec.chances Effects.chance7day areas))
                (Spec.maximum (Spec.chances Effects.chance2day areas)))%Z ->
     exists o,
       Part000.getTropicalOutlook h w = Effects.Normal o /\
       Renderer.outlook_text o
       = Js.or_else
           (Js.trim (concat (map Terms.numbered_text
                               (combine (seq 0 (length areas)) areas))))
           ("The National Hurricane Center is monitoring "
            ++ Js.of_nat (length areas)
            ++ " disturbance(s) in the Atlantic basin for potential tropical development.")).
Proof.
  intros Hne Hr. split.
  - intros w Hg.
    destruct (main_loop_maxima areas Hr
                {| UpdateWeather.maxChance2Day := 0;
                   UpdateWeather.maxChance7Day := 0;
                   UpdateWeather.outlookText := "" |})
      as [st [Hrun _]]; simpl; try lia.
    pose proof (main_loop_text areas _ _ Hrun) as T. simpl in T.
    unfold UpdateWeather.getTropicalOutlook, UpdateWeather.sources,
      UpdateWeather.structured_outlook.
    rewrite Hg. destruct areas as [|e rest]; [congruence|].
    cbn [Effects.when_ok]. rewrite Hrun.
    cbn [Effects.try_log Effects.sequence Effects.try_return].
    eexists. split; [reflexivity|].
    cbn [Renderer.outlook_text]. rewrite T. reflexivity.
  - intros w Hg Hpos.
    destruct (part000_loop_maximum areas Hr
                {| Part000.maxChance := 0; Part000.outlookText := "";
                   Part000.disturbanceCount := 0 |})
      as [st [Hrun Hm]]; simpl; try lia.
    simpl in Hm.
    destruct (part000_loop_text areas _ _ Hrun) as [T C]. simpl in T, C.
    assert (Hb : (0 <? Part000.maxChance st)%Z = true)
      by (apply Z.ltb_lt; lia).
    unfold Part000.getTropicalOutlook, Part000.sources,
      Part000.structured_outlook.
    rewrite Hg. destruct areas as [|e rest]; [congruence|].
    cbn [Effects.when_ok]. rewrite Hrun, Hb.
    cbn [Effects.try_log Effects.sequence Effects.try_return].
    eexists. split; [reflexivity|].
    cbn [Renderer.outlook_text]. rewrite T, C. reflexivity.
Qed.

Lemma structured_outlook_text_witness :
  exists o,
    Part000.getTropicalOutlook quiet_host
      (Examples.part000_world
         (Effects.Response true
            (Effects.Normal
               (Effects.Areas
                  [ Some {| Effects.chance2day := Effects.Text "10%";
                            Effects.chance7day := Effects.Absent;
                            Effects.text := Effects.Absent |};
                    Some {| Effects.chance2day := Effects.Text "30%";
                            Effects.chance7day := Effects.Text "60%";
                            Effects.text := Effects.Text "A low near Bermuda." |} ])))
         8)
    = Effects.Normal o /\
    Renderer.outlook_text o = "Disturbance 2: A low near Bermuda.".
Proof.
  destruct (proj2 (structured_outlook_text quiet_host
                     [ Some {| Effects.chance2day := Effects.Text "10%";
                               Effects.chance7day := Effects.Absent;
                               Effects.text := Effects.Absent |};
                       Some {| Effects.chance2day := Effects.Text "30%";
                               Effects.chance7day := Effects.Text "60%";
                               Effects.text := Effects.Text "A low near Bermuda." |} ]
                     ltac:(discriminate) eq_refl)
             (Examples.part000_world
                (Effects.Response true
                   (Effects.Normal
                      (Effects.Areas
                         [ Some {| Effects.chance2day := Effects.Text "10%";
                                   Effects.chance7day := Effects.Absent;
                                   Effects.text := Effects.Absent |};
                           Some {| Effects.chance2day := Effects.Text "30%";
                                   Effects.chance7day := Effects.Text "60%";
                                   Effects.text := Effects.Text "A low near Bermuda." |} ])))
                8) eq_refl ltac:(vm_compute; reflexivity)) as [o [E T]].
  exists o. split; [exact E|]. rewrite T. vm_compute. reflexivity.
Defined.

Section ProductPercentage.
Import Effects Spec Terms.

Lemma outlook_line_raises (h : regexp_host) (lines : list str)
    (st : Z * str) (i : nat) :
  fst (Part001.outlook_line h lines st i)
  = raise_to (fst st) (product_percentage h lines i).
Proof.
  unfold Part001.outlook_line, product_percentage.
  destruct (Part001.any_includes _ _); [|reflexivity].
  destruct st as [m0 t0]. cbv zeta. cbn [fst snd].
  destruct (exec_first h Part001.percentRegex _) as [m|];
    [destruct (Js.parseInt (group1 m)) as [v|];
     [destruct (m0 <? v)%Z eqn:E;
      [apply Z.ltb_lt in E | apply Z.ltb_ge in E]|]|];
    cbv iota;
    match goal with
    | |- context [if ?b then _ else _] => destruct b
    end; simpl; lia.
Qed.

End ProductPercentage.

(** X26. parseNWSTropicalOutlook: when it gives a record, the formation
    chance is the largest percentage read from the contexts of the lines
    that name a disturbance, tropical weather or development, if that is
    positive, and Low otherwise.  The percentages are taken to be integers
    that a JavaScript number holds exactly. *)
Theorem product_gives_largest_percentage (h : Effects.regexp_host)
    (productText : str) (o : Renderer.outlook) :
  Part001.parseNWSTropicalOutlook h (Some productText) = Some o ->
  Forall Spec.exact (Terms.product_percentages h productText) ->
  let largest := Spec.maximum (Terms.product_percentages h productText) in
  Renderer.formation_chance o
  = if (0 <? largest)%Z then Js.of_Z largest ++ "%" else "Low".
Proof.
  intros H _ largest. unfold Part001.parseNWSTropicalOutlook in H.
  assert (M : fst (fold_left
                     (Part001.outlook_line h (Js.split_lines productText))
                     (seq 0 (length (Js.split_lines productText)))
                     (0%Z, [])) = largest).
  { rewrite (fold_left_raise _
               (Terms.product_percentage h (Js.split_lines productText)));
      [| intros st i; apply outlook_line_raises | simpl; lia].
    simpl fst. unfold largest, Terms.product_percentages. cbv zeta.
    match goal with |- Z.max 0 (Spec.maximum ?l) = _ =>
      pose proof (maximum_nonneg l) end. lia. }
  change (fold_left (Part001.outlook_line h (Js.split_lines productText))
            (seq 0 (length (Js.split_lines productText)))
            (0%Z, ("" : str)))
    with (fold_left (Part001.outlook_line h (Js.split_lines productText))
            (seq 0 (length (Js.split_lines productText))) (0%Z, [])) in H.
  destruct (fold_left _ _ _) as [m t]. cbn [fst] in M. subst m.
  destruct (Js.truthy t || (0 <? largest)%Z); [|discriminate H].
  inversion H. reflexivity.
Qed.

Lemma product_gives_largest_percentage_witness :
  exists o,
    Part001.parseNWSTropicalOutlook quiet_host
      (Some ("A tropical wave is expected to move off the coast of Africa in a few days." : str))
    = Some o /\
    Renderer.formation_chance o = "Low".
Proof.
  eexists. split; [reflexivity|].
  apply (product_gives_largest_percentage quiet_host
           "A tropical wave is expected to move off the coast of Africa in a few days.");
    [reflexivity | constructor].
Defined.
